(** * image-gen-mcp: the tool-call handler of [src/index.ts]

    A shallow embedding of the MCP server that proxies six tools to a
    Stable-Diffusion HTTP API: the argument validators, the payload
    builders, the call handler with its error translation, and the
    materialisation loops.

    Layout:
    - [JS]      the fragment of ECMAScript the server relies on: values,
                [typeof], [Number(...)], [||], [??], template literals,
                [JSON.stringify];
    - [Path]    Node's POSIX [path.basename], [path.normalize], [path.join];
    - [Effects] the world the process talks to (file system, HTTP service,
                sharp, crypto) and the state/error monad of [async] code;
    - [Server]  the code of [index.ts] itself;
    - the theorems about it.

    Modelling decisions:
    - the arguments of a request are arbitrary JSON values, as the protocol
      delivers them; what the remote service and the libraries answer is
      typed by their contracts, and any of their calls may throw;
    - a number is a binary64 value, written as the decimal it is; a string
      is the sequence of the bytes of its UTF-8 encoding; paths are POSIX
      paths;
    - an [async] function is a function of the world and of the history of
      interactions so far; a promise that is not awaited runs where it is
      created and its outcome is dropped. *)

From Stdlib Require Import ZArith QArith List String Ascii Bool Lia.
From Stdlib Require Import DecimalString Qpower.
Import ListNotations.

Local Open Scope string_scope.
Local Open Scope Z_scope.

(* ===================================================================== *)
(** * The ECMAScript fragment *)
(* ===================================================================== *)

Module JS.

(** ** Numbers

    A JS number is NaN, an infinity, or a finite binary64 value.  Every
    finite binary64 value is a finite decimal, and is kept as one:
    [Fin m e] stands for [m * 10^e].  The operations that round in the
    language round here: a numeric string, a literal and a product go
    through [round64], the nearest binary64 value with ties to even.
    Comparison and [Math.round] are exact on such values.  The sign of
    zero is not modelled. *)

Inductive number : Type :=
  | NaN : number
  | Infinity (negative : bool) : number
  | Fin (m : Z) (e : Z) : number.

Definition of_Z (z : Z) : number := Fin z 0.

(** The rational denoted by [Fin m e]. *)
Definition value (m e : Z) : Q := (inject_Z m * (10 # 1) ^ e)%Q.

(** [isNaN(x)] on a number. *)
Definition isNaN (x : number) : bool :=
  match x with NaN => true | _ => false end.

(** The order of IEEE comparisons: [None] when an operand is NaN. *)
Definition num_compare (x y : number) : option comparison :=
  match x, y with
  | NaN, _ | _, NaN => None
  | Infinity a, Infinity b =>
      Some (if Bool.eqb a b then Eq else if a then Lt else Gt)
  | Infinity a, Fin _ _ => Some (if a then Lt else Gt)
  | Fin _ _, Infinity b => Some (if b then Gt else Lt)
  | Fin m e, Fin m' e' => Some (value m e ?= value m' e')%Q
  end.

(** [x < y] and [x > y]: false whenever an operand is NaN. *)
Definition num_lt (x y : number) : bool :=
  match num_compare x y with Some Lt => true | _ => false end.

Definition num_gt (x y : number) : bool := num_lt y x.

Definition num_is_zero (x : number) : bool :=
  match x with Fin m _ => m =? 0 | _ => false end.

Definition num_is_neg (x : number) : bool :=
  match x with Fin m _ => m <? 0 | Infinity s => s | NaN => false end.

(** *** Decimal digits *)

Definition digits_of (z : Z) : string :=
  NilZero.string_of_uint (N.to_uint (Z.to_N (Z.abs z))).

Fixpoint strip_zeros (fuel : nat) (m e : Z) : Z * Z :=
  match fuel with
  | O => (m, e)
  | S fuel' =>
      if (m =? 0) || negb (m mod 10 =? 0) then (m, e)
      else strip_zeros fuel' (m / 10) (e + 1)
  end.

Fixpoint zeros (n : nat) : string :=
  match n with O => "" | S n' => String "0" (zeros n') end.

Definition string_take (n : nat) (s : string) : string := substring 0 n s.
Definition string_drop (n : nat) (s : string) : string :=
  substring n (String.length s - n) s.

(** *** binary64

    A finite binary64 value is [sig * 2^ex] with [|sig| <= 2^53] and
    [-1074 <= ex <= 971]; what reaches [2^1024] is an infinity. *)

(** The integer nearest to [a / b], for [0 <= a] and [0 < b], ties to
    even. *)
Definition div_nearest_even (a b : Z) : Z :=
  let k := a / b in
  match 2 * (a mod b) ?= b with
  | Lt => k
  | Gt => k + 1
  | Eq => if Z.even k then k else k + 1
  end.

(** [floor (log2 (n / d))], for [0 < n] and [0 < d]. *)
Definition log2_ratio (n d : Z) : Z :=
  let g := Z.log2 n - Z.log2 d in
  let below := if 0 <=? g then n <? d * 2 ^ g else n * 2 ^ (- g) <? d in
  if below then g - 1 else g.

(** The binary64 value nearest to [n / d], for [0 < n] and [0 < d], as
    significand and exponent; [None] when it is out of range. *)
Definition round_ratio (n d : Z) : option (Z * Z) :=
  let ex := Z.max (log2_ratio n d - 52) (-1074) in
  let sig :=
    if ex <? 0 then div_nearest_even (n * 2 ^ (- ex)) d
    else div_nearest_even n (d * 2 ^ ex) in
  if (971 <? ex) || ((ex =? 971) && (sig =? 2 ^ 53)) then None
  else Some (sig, ex).

(** The decimal [m * 10^e] in its canonical form: an integer is
    [Fin z 0], anything else [Fin m e] with [e < 0] and [m] not a multiple
    of 10. *)
Definition canonical (m e : Z) : number :=
  let '(m', e') := strip_zeros (Z.to_nat (Z.log2 (Z.abs m))) m e in
  if (m' =? 0) || (0 <=? e') then Fin (m' * 10 ^ e') 0 else Fin m' e'.

(** [sig * 2^ex] as a decimal: [2^ex = 5^(-ex) * 10^ex] when [ex < 0]. *)
Definition dyadic (sig ex : Z) : number :=
  if 0 <=? ex then Fin (sig * 2 ^ ex) 0 else canonical (sig * 5 ^ (- ex)) ex.

(** The binary64 value of a decimal: round to nearest, ties to even. *)
Definition round64 (x : number) : number :=
  match x with
  | Fin m e =>
      if m =? 0 then Fin 0 0
      else
        let n := if 0 <=? e then Z.abs m * 10 ^ e else Z.abs m in
        let d := if 0 <=? e then 1 else 10 ^ (- e) in
        match round_ratio n d with
        | Some (sig, ex) => dyadic (if m <? 0 then - sig else sig) ex
        | None => Infinity (m <? 0)
        end
  | _ => x
  end.

(** A decimal literal of the source, such as [0.7]. *)
Definition literal (m e : Z) : number := round64 (Fin m e).

Definition num_eqb (x y : number) : bool :=
  match num_compare x y with Some Eq => true | _ => false end.

(** [x * y]: the product, rounded. *)
Definition num_mul (x y : number) : number :=
  match x, y with
  | NaN, _ | _, NaN => NaN
  | Fin m e, Fin m' e' => round64 (Fin (m * m') (e + e'))
  | _, _ =>
      if num_is_zero x || num_is_zero y then NaN
      else Infinity (xorb (num_is_neg x) (num_is_neg y))
  end.

(** [Math.round(x)]: the integer nearest to [x], ties towards +Infinity.
    On a binary64 value the result is one as well. *)
Definition Math_round (x : number) : number :=
  match x with
  | Fin m e =>
      if 0 <=? e then Fin m e
      else let k := 10 ^ (- e) in Fin ((2 * m + k) / (2 * k)) 0
  | _ => x
  end.

(** *** Number::toString (radix 10)

    The standard prints the fewest digits [s] that still denote the
    number: the least [k] such that some [s] of [k] digits, at the right
    place, rounds to [x]; of two such [s] the one nearer to [x], and of two
    equally near the even one. *)

(** For [x = m * 10^e] with [m > 0] of [D] digits: the [k]-digit
    candidates are [m] cut after [k] digits, and that plus one. *)
Fixpoint shortest (fuel : nat) (k : Z) (m e D : Z) : Z * Z :=
  match fuel with
  | O => (m, e)
  | S fuel' =>
      if D <=? k then (m, e)
      else
        let p := 10 ^ (D - k) in
        let lo := m / p in
        let rest := m mod p in
        let hi := lo + 1 in
        let ok_lo := num_eqb (round64 (Fin lo (e + D - k))) (Fin m e) in
        let ok_hi := num_eqb (round64 (Fin hi (e + D - k))) (Fin m e) in
        if ok_lo && ok_hi then
          match 2 * rest ?= p with
          | Lt => (lo, e + D - k)
          | Gt => (hi, e + D - k)
          | Eq => ((if Z.even lo then lo else hi), e + D - k)
          end
        else if ok_lo then (lo, e + D - k)
        else if ok_hi then (hi, e + D - k)
        else shortest fuel' (k + 1) m e D
  end.

(** With [s] the [k] significant digits and [n] the position of the
    decimal point ([x = 0.s * 10^n]), the four cases of the standard. *)
Definition number_toString (x : number) : string :=
  match x with
  | NaN => "NaN"
  | Infinity s => if s then "-Infinity" else "Infinity"
  | Fin 0 _ => "0"
  | Fin m e =>
      let '(m0, e0) := strip_zeros (Z.to_nat (Z.log2 (Z.abs m))) (Z.abs m) e in
      let '(m1, e1) :=
        shortest 17 1 m0 e0 (Z.of_nat (String.length (digits_of m0))) in
      let '(m', e') := strip_zeros (Z.to_nat (Z.log2 m1)) m1 e1 in
      let s := digits_of m' in
      let k := Z.of_nat (String.length s) in
      let n := k + e' in
      let sign := if m <? 0 then "-" else "" in
      let body :=
        if (k <=? n) && (n <=? 21) then s ++ zeros (Z.to_nat (n - k))
        else if (0 <? n) && (n <=? 21) then
          string_take (Z.to_nat n) s ++ "." ++ string_drop (Z.to_nat n) s
        else if (-6 <? n) && (n <=? 0) then
          "0." ++ zeros (Z.to_nat (- n)) ++ s
        else
          let ex := (if 0 <=? n - 1 then "+" else "-") ++ digits_of (n - 1) in
          if k =? 1 then s ++ "e" ++ ex
          else string_take 1 s ++ "." ++ string_drop 1 s ++ "e" ++ ex
      in sign ++ body
  end.

(** *** White space

    A string is the sequence of the bytes of its UTF-8 encoding.  What
    [trim], [Number] and [parseInt] strip is the standard's WhiteSpace and
    LineTerminator: U+0009 to U+000D, U+0020, U+00A0, U+1680, U+2000 to
    U+200A, U+2028, U+2029, U+202F, U+205F, U+3000 and U+FEFF. *)

Definition white_space : list (list ascii) :=
  map (map ascii_of_nat)
    [[9]; [10]; [11]; [12]; [13]; [32];
     [194; 160];
     [225; 154; 128];
     [226; 128; 128]; [226; 128; 129]; [226; 128; 130]; [226; 128; 131];
     [226; 128; 132]; [226; 128; 133]; [226; 128; 134]; [226; 128; 135];
     [226; 128; 136]; [226; 128; 137]; [226; 128; 138];
     [226; 128; 168]; [226; 128; 169]; [226; 128; 175];
     [226; 129; 159];
     [227; 128; 128];
     [239; 187; 191]]%nat.

Fixpoint strip_prefix (pre cs : list ascii) : option (list ascii) :=
  match pre, cs with
  | [], _ => Some cs
  | a :: pre', c :: cs' =>
      if Ascii.eqb a c then strip_prefix pre' cs' else None
  | _ :: _, [] => None
  end.

Fixpoint strip_one (seqs : list (list ascii)) (cs : list ascii)
  : option (list ascii) :=
  match seqs with
  | [] => None
  | q :: seqs' =>
      match strip_prefix q cs with
      | Some r => Some r
      | None => strip_one seqs' cs
      end
  end.

Fixpoint drop_all (seqs : list (list ascii)) (fuel : nat) (cs : list ascii)
  : list ascii :=
  match fuel with
  | O => cs
  | S fuel' =>
      match strip_one seqs cs with
      | Some r => drop_all seqs fuel' r
      | None => cs
      end
  end.

Definition drop_white_space (cs : list ascii) : list ascii :=
  drop_all white_space (List.length cs) cs.

(** At the end the same sequences are looked for backwards. *)
Definition trim_chars (cs : list ascii) : list ascii :=
  let front := drop_white_space cs in
  rev (drop_all (map (@rev ascii) white_space) (List.length front) (rev front)).

(** [String.prototype.trim]. *)
Definition trim (s : string) : string :=
  string_of_list_ascii (trim_chars (list_ascii_of_string s)).

(** *** StringToNumber

    The grammar of numeric strings: optional white space around either a
    signed decimal literal (digits, fraction, exponent, or [Infinity]) or an
    unsigned [0x]/[0o]/[0b] integer; the empty string is 0 and anything else
    is NaN.  The mathematical value of the literal is rounded to binary64. *)

Definition digit_of (base : Z) (c : ascii) : option Z :=
  let n := Z.of_nat (nat_of_ascii c) in
  let d :=
    if (48 <=? n) && (n <=? 57) then Some (n - 48)
    else if (97 <=? n) && (n <=? 122) then Some (n - 87)
    else if (65 <=? n) && (n <=? 90) then Some (n - 55)
    else None in
  match d with
  | Some v => if v <? base then Some v else None
  | None => None
  end.

Fixpoint span_digits (base : Z) (cs : list ascii) : list Z * list ascii :=
  match cs with
  | c :: cs' =>
      match digit_of base c with
      | Some d => let '(ds, r) := span_digits base cs' in (d :: ds, r)
      | None => ([], cs)
      end
  | [] => ([], [])
  end.

Definition digits_value (base : Z) (ds : list Z) : Z :=
  fold_left (fun acc d => acc * base + d) ds 0.

Definition take_sign (cs : list ascii) : bool * list ascii :=
  match cs with
  | "-"%char :: r => (true, r)
  | "+"%char :: r => (false, r)
  | _ => (false, cs)
  end.

Definition is_nil {A} (l : list A) : bool :=
  match l with [] => true | _ => false end.

(** StrUnsignedDecimalLiteral without [Infinity]: mantissa and exponent. *)
Definition unsigned_decimal (cs : list ascii) : option (Z * Z) :=
  let '(ip, r1) := span_digits 10 cs in
  let '(fp, r2) :=
    match r1 with
    | "."%char :: r => span_digits 10 r
    | _ => ([], r1)
    end in
  if is_nil ip && is_nil fp then None
  else
    let m := digits_value 10 (ip ++ fp) in
    let scale := Z.of_nat (List.length fp) in
    match r2 with
    | [] => Some (m, - scale)
    | c :: r3 =>
        if (Ascii.eqb c "e" || Ascii.eqb c "E")%bool then
          let '(neg, r4) := take_sign r3 in
          let '(ed, r5) := span_digits 10 r4 in
          if negb (is_nil ed) && is_nil r5 then
            let ex := digits_value 10 ed in
            Some (m, (if neg then - ex else ex) - scale)
          else None
        else None
    end.

Definition decimal_literal (cs : list ascii) : number :=
  let '(neg, r) := take_sign cs in
  if String.eqb (string_of_list_ascii r) "Infinity" then Infinity neg
  else match unsigned_decimal r with
       | Some (m, e) => round64 (Fin (if neg then - m else m) e)
       | None => NaN
       end.

Definition non_decimal_literal (cs : list ascii) : option number :=
  match cs with
  | "0"%char :: p :: r =>
      let base :=
        if (Ascii.eqb p "x" || Ascii.eqb p "X")%bool then Some 16
        else if (Ascii.eqb p "o" || Ascii.eqb p "O")%bool then Some 8
        else if (Ascii.eqb p "b" || Ascii.eqb p "B")%bool then Some 2
        else None in
      match base with
      | Some b =>
          let '(ds, rest) := span_digits b r in
          if negb (is_nil ds) && is_nil rest
          then Some (round64 (Fin (digits_value b ds) 0)) else Some NaN
      | None => None
      end
  | _ => None
  end.

Definition StringToNumber (s : string) : number :=
  let cs := trim_chars (list_ascii_of_string s) in
  if is_nil cs then Fin 0 0
  else match non_decimal_literal cs with
       | Some n => n
       | None => decimal_literal cs
       end.

(** ** Values

    What [JSON.parse] produces, plus [undefined].  An object keeps its
    properties in insertion order, which [JSON.stringify] observes. *)

#[warnings="-register-all"]
Inductive JSValue : Type :=
  | JUndefined : JSValue
  | JNull : JSValue
  | JBool (b : bool) : JSValue
  | JNum (n : number) : JSValue
  | JStr (s : string) : JSValue
  | JArr (elements : list JSValue) : JSValue
  | JObj (properties : list (string * JSValue)) : JSValue.

Definition JInt (z : Z) : JSValue := JNum (of_Z z).

(** ** What can be thrown

    Instances of [Error] as the language and the two libraries make them,
    and any other thrown value. *)

Inductive ErrorCode : Type := InvalidParams | MethodNotFound | InternalError.

Inductive Exn : Type :=
  | TypeError (message : string)
  | Error (message : string)
  | McpError (code : ErrorCode) (message : string)
  | AxiosError (response : option JSValue) (request : bool) (message : string)
  | Thrown (v : JSValue).

(** Fallible pure computations: [inl] is a throw. *)
Definition Result (A : Type) : Type := (Exn + A)%type.

Definition rbind {A B} (r : Result A) (k : A -> Result B) : Result B :=
  match r with inl e => inl e | inr a => k a end.

(** [typeof v]. *)
Definition typeof (v : JSValue) : string :=
  match v with
  | JUndefined => "undefined"
  | JBool _ => "boolean"
  | JNum _ => "number"
  | JStr _ => "string"
  | JNull | JArr _ | JObj _ => "object"
  end.

Definition is_undefined (v : JSValue) : bool :=
  match v with JUndefined => true | _ => false end.

Definition is_null (v : JSValue) : bool :=
  match v with JNull => true | _ => false end.

Definition is_string (v : JSValue) : bool := String.eqb (typeof v) "string".

(** [Array.isArray(v)]. *)
Definition Array_isArray (v : JSValue) : bool :=
  match v with JArr _ => true | _ => false end.

Fixpoint lookup (k : string) (ps : list (string * JSValue)) : option JSValue :=
  match ps with
  | [] => None
  | (k', v) :: ps' => if String.eqb k k' then Some v else lookup k ps'
  end.

(** [v.k] for a property name [k] that no prototype defines (every name
    the server reads, such as [prompt] or [steps]): an own property of an
    object, [undefined] elsewhere.  Not to be used on null or undefined. *)
Definition get (v : JSValue) (k : string) : JSValue :=
  match v with
  | JObj ps => match lookup k ps with Some x => x | None => JUndefined end
  | _ => JUndefined
  end.

Fixpoint update (k : string) (x : JSValue) (ps : list (string * JSValue))
  : list (string * JSValue) :=
  match ps with
  | [] => [(k, x)]
  | (k', v) :: ps' =>
      if String.eqb k k' then (k, x) :: ps' else (k', v) :: update k x ps'
  end.

(** [v.k = x] on an object: the property keeps its place, a new one goes
    last. *)
Definition set (v : JSValue) (k : string) (x : JSValue) : JSValue :=
  match v with
  | JObj ps => JObj (update k x ps)
  | _ => v
  end.

(** ToBoolean: the falsy values are undefined, null, false, 0, NaN and
    the empty string. *)
Definition ToBoolean (v : JSValue) : bool :=
  match v with
  | JUndefined | JNull => false
  | JBool b => b
  | JNum n => negb (isNaN n || num_is_zero n)
  | JStr s => negb (String.eqb s "")
  | JArr _ | JObj _ => true
  end.

(** [a || b] and [a ?? b] (the right operand is a value here). *)
Definition or_else (a b : JSValue) : JSValue := if ToBoolean a then a else b.

Definition nullish (a b : JSValue) : JSValue :=
  if is_undefined a || is_null a then b else a.

Fixpoint join (sep : string) (l : list string) : string :=
  match l with
  | [] => ""
  | [x] => x
  | x :: r => x ++ sep ++ join sep r
  end.

Fixpoint sequence {A} (l : list (Result A)) : Result (list A) :=
  match l with
  | [] => inr []
  | r :: l' => rbind r (fun a => rbind (sequence l') (fun t => inr (a :: t)))
  end.

(** ToString.  An array is its elements joined by commas, null and
    undefined elements giving the empty string.  A plain object is
    ["[object Object]"], unless it has an own property [toString]: a parsed
    JSON value is never callable, so the conversion finds no method and
    throws. *)
Fixpoint ToString (v : JSValue) : Result string :=
  match v with
  | JUndefined => inr "undefined"
  | JNull => inr "null"
  | JBool b => inr (if b then "true" else "false")
  | JNum n => inr (number_toString n)
  | JStr s => inr s
  | JArr l =>
      rbind
        (sequence
           (map (fun x =>
                   match x with
                   | JUndefined | JNull => inr ""
                   | _ => ToString x
                   end) l))
        (fun parts => inr (join "," parts))
  | JObj ps =>
      match lookup "toString" ps with
      | Some _ => inl (TypeError "Cannot convert object to primitive value")
      | None => inr "[object Object]"
      end
  end.

(** ToNumber, which is what [Number(v)] computes. *)
Definition ToNumber (v : JSValue) : Result number :=
  match v with
  | JUndefined => inr NaN
  | JNull => inr (Fin 0 0)
  | JBool b => inr (if b then Fin 1 0 else Fin 0 0)
  | JNum n => inr n
  | JStr s => inr (StringToNumber s)
  | JArr _ | JObj _ => rbind (ToString v) (fun s => inr (StringToNumber s))
  end.

Definition Number_ (v : JSValue) : Result JSValue :=
  rbind (ToNumber v) (fun n => inr (JNum n)).

(** ** JSON.stringify *)

Definition hex_digit (n : nat) : ascii :=
  ascii_of_nat (if (n <? 10)%nat then 48 + n else 87 + n)%nat.

Definition quote_char : ascii := ascii_of_nat 34.
Definition backslash : ascii := ascii_of_nat 92.

Definition escape_char (c : ascii) : list ascii :=
  let n := nat_of_ascii c in
  if (n =? 34)%nat then [backslash; quote_char]
  else if (n =? 92)%nat then [backslash; backslash]
  else if (n =? 8)%nat then [backslash; "b"%char]
  else if (n =? 12)%nat then [backslash; "f"%char]
  else if (n =? 10)%nat then [backslash; "n"%char]
  else if (n =? 13)%nat then [backslash; "r"%char]
  else if (n =? 9)%nat then [backslash; "t"%char]
  else if (n <? 32)%nat then
    [backslash; "u"%char; "0"%char; "0"%char;
     hex_digit (n / 16); hex_digit (n mod 16)]
  else [c].

Definition JSON_quote (s : string) : string :=
  string_of_list_ascii
    ([quote_char] ++ flat_map escape_char (list_ascii_of_string s)
       ++ [quote_char]).

(** The serialisation of a value, [None] where JSON.stringify yields
    undefined.  Array elements without one print as [null]; object
    properties without one are left out. *)
Fixpoint JSON_serialize (v : JSValue) : option string :=
  match v with
  | JUndefined => None
  | JNull => Some "null"
  | JBool b => Some (if b then "true" else "false")
  | JNum (Fin m e) => Some (number_toString (Fin m e))
  | JNum _ => Some "null"
  | JStr s => Some (JSON_quote s)
  | JArr l =>
      Some ("[" ++ join ","
              (map (fun x => match JSON_serialize x with
                             | Some s => s
                             | None => "null"
                             end) l) ++ "]")
  | JObj ps =>
      Some ("{" ++ join ","
              ((fix members (ps : list (string * JSValue)) : list string :=
                  match ps with
                  | [] => []
                  | (k, x) :: ps' =>
                      match JSON_serialize x with
                      | Some s => (JSON_quote k ++ ":" ++ s) :: members ps'
                      | None => members ps'
                      end
                  end) ps) ++ "}")
  end.

Definition JSON_stringify (v : JSValue) : JSValue :=
  match JSON_serialize v with Some s => JStr s | None => JUndefined end.

End JS.

(* ===================================================================== *)
(** * Node's [path] module (POSIX flavour) *)
(* ===================================================================== *)

Module Path.

Definition is_slash (c : ascii) : bool := Ascii.eqb c "/".

Fixpoint drop_slashes (cs : list ascii) : list ascii :=
  match cs with
  | c :: cs' => if is_slash c then drop_slashes cs' else cs
  | [] => []
  end.

Fixpoint take_segment (cs : list ascii) : list ascii :=
  match cs with
  | c :: cs' => if is_slash c then [] else c :: take_segment cs'
  | [] => []
  end.

(** [path.basename(p)]: trailing slashes are ignored, and the result is
    what follows the last remaining slash. *)
Definition basename (p : string) : string :=
  string_of_list_ascii
    (rev (take_segment (drop_slashes (rev (list_ascii_of_string p))))).

(** The segments between slashes, with the segment being read in [cur]. *)
Fixpoint split_slash (cur : list ascii) (cs : list ascii) : list string :=
  match cs with
  | [] => [string_of_list_ascii (rev cur)]
  | c :: cs' =>
      if is_slash c then string_of_list_ascii (rev cur) :: split_slash [] cs'
      else split_slash (c :: cur) cs'
  end.

(** normalizeString: [stack] holds the kept segments, last one first. *)
Fixpoint resolve (allowAboveRoot : bool) (stack : list string)
    (segs : list string) : list string :=
  match segs with
  | [] => rev stack
  | seg :: segs' =>
      if String.eqb seg "" || String.eqb seg "." then
        resolve allowAboveRoot stack segs'
      else if String.eqb seg ".." then
        match stack with
        | top :: below =>
            if String.eqb top ".." then
              resolve allowAboveRoot
                (if allowAboveRoot then ".." :: stack else stack) segs'
            else resolve allowAboveRoot below segs'
        | [] =>
            resolve allowAboveRoot
              (if allowAboveRoot then [".."] else []) segs'
        end
      else resolve allowAboveRoot (seg :: stack) segs'
  end.

Definition starts_with_slash (cs : list ascii) : bool :=
  match cs with c :: _ => is_slash c | [] => false end.

(** [path.normalize(p)]. *)
Definition normalize (p : string) : string :=
  let cs := list_ascii_of_string p in
  if JS.is_nil cs then "."
  else
    let isAbsolute := starts_with_slash cs in
    let trailingSeparator := starts_with_slash (rev cs) in
    let body :=
      JS.join "/" (resolve (negb isAbsolute) [] (split_slash [] cs)) in
    if String.eqb body "" then
      if isAbsolute then "/" else if trailingSeparator then "./" else "."
    else
      let body' := if trailingSeparator then body ++ "/" else body in
      if isAbsolute then "/" ++ body' else body'.

(** [path.join(a, b)]: the non-empty arguments joined by a slash, then
    normalised. *)
Definition join (a b : string) : string :=
  let parts := filter (fun x => negb (String.eqb x "")) [a; b] in
  if JS.is_nil parts then "." else normalize (JS.join "/" parts).

End Path.

(* ===================================================================== *)
(** * The outside world and the monad of [async] code *)
(* ===================================================================== *)

Module Effects.
Import JS.

Definition Buffer : Type := string.

(** What [sharp(...).metadata()] resolves to. *)
Record Metadata : Type := {
  width : option number;
  height : option number
}.

Record ModelInfo : Type := {
  title : string;
  model_name : string;
  hash : string;
  sha256 : string;
  filename : string;
  config : string
}.

Record UpscalerInfo : Type := {
  name : string;
  upscaler_model_name : string;
  model_path : string;
  model_url : string;
  scale : number
}.

(** Every interaction with the outside, in the order it is started. *)
Inductive Event : Type :=
  | FsAccess (path : string)
  | FsMkdir (path : string)
  | FsReadFile (path : string)
  | FsWriteFile (path : string) (data : Buffer)
  | SharpMetadata (input : Buffer)
  | SharpToFile (input : Buffer) (imageDescription : string) (path : string)
  | RandomUUID
  | HttpGet (url : string)
  | HttpPost (url : string) (body : JSValue) (timeout : option Z)
  | UnhandledRejection (reason : Exn).

Definition History : Type := list Event.

(** The world answers each interaction, possibly depending on everything
    that happened before.  A remote answer is typed by the HTTP contract of
    the Stable-Diffusion API; a failed call is a thrown value.  The base64
    codec of [Buffer] is part of the world as well, and so is the order in
    which concurrent promises settle: of several rejections,
    [promise_race] names the one that came first.  Every request the
    server waits for is answered; the img2img request, which it does not
    wait for, may still be pending ([None]) when the server goes on. *)
Record World : Type := {
  fs_access : History -> string -> Result unit;
  fs_mkdir : History -> string -> Result unit;
  fs_readFile : History -> string -> Result Buffer;
  fs_writeFile : History -> string -> Buffer -> Result unit;
  sharp_metadata : History -> Buffer -> Result Metadata;
  sharp_toFile : History -> Buffer -> string -> string -> Result unit;
  crypto_randomUUID : History -> string;
  sd_txt2img : History -> JSValue -> Result (option (list string));
  sd_png_info : History -> JSValue -> Result string;
  sd_models : History -> Result (list ModelInfo);
  sd_options : History -> JSValue -> Result unit;
  sd_upscalers : History -> Result (list UpscalerInfo);
  sd_extra_batch_images : History -> JSValue -> Result (option (list string));
  sd_img2img : History -> JSValue -> option (Result unit);
  base64_encode : Buffer -> string;
  base64_decode : string -> Buffer;
  promise_race : History -> nat
}.

(** An [async] computation: it reads the world, extends the history, and
    either throws or returns. *)
Definition M (A : Type) : Type := World -> History -> History * Result A.

Definition ret {A} (a : A) : M A := fun _ h => (h, inr a).

Definition throw {A} (e : Exn) : M A := fun _ h => (h, inl e).

Definition bind {A B} (m : M A) (k : A -> M B) : M B :=
  fun w h =>
    match m w h with
    | (h', inl e) => (h', inl e)
    | (h', inr a) => k a w h'
    end.

(** [try { m } catch (e) { handler(e) }]. *)
Definition try_catch {A} (m : M A) (handler : Exn -> M A) : M A :=
  fun w h =>
    match m w h with
    | (h', inl e) => handler e w h'
    | (h', inr a) => (h', inr a)
    end.

(** A promise that has been started and is not waited for: its state,
    when the code that started it goes on, is pending ([None]), rejected
    or fulfilled.  Nothing in [M] can wait for it: waiting for a promise
    that stays pending never comes back. *)
Definition Promise (A : Type) : Type :=
  World -> History -> History * option (Result A).

Definition started {A} (ev : Event)
    (state : World -> History -> option (Result A)) : Promise A :=
  fun w h => ((h ++ [ev])%list, state w h).

(** [p.catch(handler)]: the handler runs if and when [p] is rejected. *)
Definition catch_ {A} (p : Promise A) (handler : Exn -> M A) : Promise A :=
  fun w h =>
    match p w h with
    | (h', Some (inl e)) => let '(h'', r) := handler e w h' in (h'', Some r)
    | (h', Some (inr a)) => (h', Some (inr a))
    | (h', None) => (h', None)
    end.

(** A promise that is dropped: the code goes on at once, pending or not,
    and nothing of the outcome reaches it; a rejection nobody handles is
    reported to the process. *)
Definition spawn {A} (p : Promise A) : M unit :=
  fun w h =>
    match p w h with
    | (h', Some (inl e)) => ((h' ++ [UnhandledRejection e])%list, inr tt)
    | (h', _) => (h', inr tt)
    end.

Definition lift {A} (r : Result A) : M A := fun _ h => (h, r).

Definition io {A} (ev : Event) (answer : World -> History -> Result A) : M A :=
  fun w h => ((h ++ [ev])%list, answer w h).

Definition pure_of_world {A} (f : World -> A) : M A := fun w h => (h, inr (f w)).

End Effects.

Declare Scope async_scope.
Delimit Scope async_scope with async.
Notation "x <- c ;; k" := (Effects.bind c (fun x => k))
  (at level 61, c at next level, right associativity) : async_scope.
Notation "' p <- c ;; k" := (Effects.bind c (fun p => k))
  (at level 61, p pattern, c at next level, right associativity) : async_scope.
Notation "c ;; k" := (Effects.bind c (fun _ => k))
  (at level 61, right associativity) : async_scope.

(* ===================================================================== *)
(** * The server: [src/index.ts] *)
(* ===================================================================== *)

Module Server.
Import JS Effects.

(** ** Configuration, read once from the environment *)

(** [parseInt(s, 10)]: leading white space, a sign, then the longest run
    of decimal digits, rounded to binary64; NaN when there is none. *)
Definition parseInt10 (s : string) : number :=
  let '(neg, r) := take_sign (drop_white_space (list_ascii_of_string s)) in
  let '(ds, _) := span_digits 10 r in
  if is_nil ds then NaN
  else round64 (Fin (if neg then - digits_value 10 ds else digits_value 10 ds) 0).

Definition Env : Type := string -> option string.

(** [process.env.X || fallback]. *)
Definition env_or (x : option string) (fallback : string) : string :=
  match x with
  | Some s => if String.eqb s "" then fallback else s
  | None => fallback
  end.

Record Config : Type := {
  SD_WEBUI_URL : string;
  AUTH_USER : option string;
  AUTH_PASS : option string;
  DEFAULT_OUTPUT_DIR : string;
  REQUEST_TIMEOUT : number;
  SD_RESIZE_MODE : number;
  SD_UPSCALE_MULTIPLIER : number;
  SD_UPSCALE_WIDTH : number;
  SD_UPSCALE_HEIGHT : number;
  SD_UPSCALER_1 : string;
  SD_UPSCALER_2 : string
}.

Definition config_of_env (env : Env) : Config := {|
  SD_WEBUI_URL := env_or (env "SD_WEBUI_URL") "http://127.0.0.1:7860";
  AUTH_USER := env "SD_AUTH_USER";
  AUTH_PASS := env "SD_AUTH_PASS";
  DEFAULT_OUTPUT_DIR := env_or (env "SD_OUTPUT_DIR") "./output";
  REQUEST_TIMEOUT := parseInt10 (env_or (env "REQUEST_TIMEOUT") "300000");
  SD_RESIZE_MODE := parseInt10 (env_or (env "SD_RESIZE_MODE") "0");
  SD_UPSCALE_MULTIPLIER := parseInt10 (env_or (env "SD_UPSCALE_MULTIPLIER") "4");
  SD_UPSCALE_WIDTH := parseInt10 (env_or (env "SD_UPSCALE_WIDTH") "512");
  SD_UPSCALE_HEIGHT := parseInt10 (env_or (env "SD_UPSCALE_HEIGHT") "512");
  SD_UPSCALER_1 := env_or (env "SD_UPSCALER_1") "R-ESRGAN 4x+";
  SD_UPSCALER_2 := env_or (env "SD_UPSCALER_2") "None"
|}.

(** ** The argument validators

    A validator returns [false] at the first failed check.  Below, each
    check is a step that answers whether to go on ([true]) or to return
    [false]; [Number(...)] may throw, so a step is a [Result]. *)

Definition is_object (value : JSValue) : bool :=
  String.eqb (typeof value) "object" && negb (is_null value).

Definition and_then {S} (step : Result (bool * S))
    (k : S -> Result (bool * S)) : Result (bool * S) :=
  rbind step (fun '(ok, st) => if ok then k st else inr (false, st)).

(** [if (v.k !== undefined) { const n = Number(v.k);
      if (isNaN(n) || n < lo || n > hi) return false; v.k = n; }] *)
Definition coerce_in_range (k : string) (lo hi : Z) (v : JSValue)
  : Result (bool * JSValue) :=
  if negb (is_undefined (get v k)) then
    rbind (ToNumber (get v k)) (fun n =>
      if isNaN n || num_lt n (of_Z lo) || num_gt n (of_Z hi)
      then inr (false, v)
      else inr (true, set v k (JNum n)))
  else inr (true, v).

(** [isGenerateImageArgs]: the answer, and the argument object as the
    validator leaves it ([steps] and [batch_size] replaced by numbers). *)
Definition isGenerateImageArgs (value : JSValue) : Result (bool * JSValue) :=
  if negb (is_object value) then inr (false, value)
  else
    let v := value in
    if negb (is_string (get v "prompt")) then inr (false, v)
    else if negb (is_undefined (get v "negative_prompt"))
            && negb (is_string (get v "negative_prompt"))
    then inr (false, v)
    else
      and_then (coerce_in_range "steps" 1 150 v) (fun v =>
      and_then (coerce_in_range "batch_size" 1 4 v) (fun v =>
      inr (true, v))).

Definition isSetModelArgs (value : JSValue) : bool :=
  if negb (is_object value) then false
  else is_string (get value "model_name").

(** [if (v.k !== undefined) { const n = Number(v.k);
      if (isNaN(n) || n < lo) return false; }] *)
Definition check_at_least (k : string) (lo : Z) (v : JSValue)
  : Result (bool * unit) :=
  if negb (is_undefined (get v k)) then
    rbind (ToNumber (get v k)) (fun n =>
      if isNaN n || num_lt n (of_Z lo) then inr (false, tt) else inr (true, tt))
  else inr (true, tt).

(** As above with both bounds and no write-back; the lower bound of
    [denoising_strength] is 0. *)
Definition check_in_range (k : string) (lo hi : Z) (v : JSValue)
  : Result (bool * unit) :=
  if negb (is_undefined (get v k)) then
    rbind (ToNumber (get v k)) (fun n =>
      if isNaN n || num_lt n (of_Z lo) || num_gt n (of_Z hi)
      then inr (false, tt) else inr (true, tt))
  else inr (true, tt).

Definition optional_string (k : string) (v : JSValue) : Result (bool * unit) :=
  if negb (is_undefined (get v k)) && negb (is_string (get v k))
  then inr (false, tt) else inr (true, tt).

Definition all_strings (v : JSValue) : bool :=
  match v with
  | JArr imgs => forallb is_string imgs
  | _ => false
  end.

Definition isUpscaleImagesArgs (value : JSValue) : Result bool :=
  if negb (is_object value) then inr false
  else
    let v := value in
    if negb (Array_isArray (get v "images")) || negb (all_strings (get v "images"))
    then inr false
    else if negb (is_undefined (get v "resize_mode"))
            && (negb (is_string (get v "resize_mode"))
                || negb (match get v "resize_mode" with
                         | JStr s => existsb (String.eqb s) ["0"; "1"]
                         | _ => false
                         end))
    then inr false
    else
      rbind
        (and_then (check_at_least "upscaling_resize" 1 v) (fun _ =>
         and_then (check_at_least "upscaling_resize_w" 1 v) (fun _ =>
         and_then (check_at_least "upscaling_resize_h" 1 v) (fun _ =>
         and_then (optional_string "upscaler_1" v) (fun _ =>
         and_then (optional_string "upscaler_2" v) (fun _ =>
         and_then (optional_string "output_path" v) (fun _ =>
         inr (true, tt))))))))
        (fun r => inr (fst r)).

Definition isHiresFixImageArgs (value : JSValue) : Result bool :=
  if negb (is_object value) then inr false
  else
    let v := value in
    if negb (is_string (get v "image_path")) then inr false
    else
      rbind
        (and_then (check_in_range "hr_scale" 1 4 v) (fun _ =>
         and_then (optional_string "hr_upscaler" v) (fun _ =>
         and_then (check_in_range "denoising_strength" 0 1 v) (fun _ =>
         and_then (check_in_range "steps" 1 150 v) (fun _ =>
         inr (true, tt))))))
        (fun r => inr (fst r)).

(** ** Protocol values *)

Record ToolRequest : Type := {
  request_name : string;
  request_arguments : JSValue
}.

Record ContentBlock : Type := {
  type : string;
  text : JSValue
}.

Record ToolResult : Type := {
  content : list ContentBlock
}.

Definition text_result (t : JSValue) : ToolResult :=
  {| content := [ {| type := "text"; text := t |} ] |}.

Definition error_code_number (c : ErrorCode) : Z :=
  match c with
  | InvalidParams => -32602
  | MethodNotFound => -32601
  | InternalError => -32603
  end.

(** [new McpError(code, message)]: the SDK prefixes the message with the
    numeric code. *)
Definition new_McpError (c : ErrorCode) (message : string) : Exn :=
  McpError c
    ("MCP error " ++ number_toString (of_Z (error_code_number c)) ++ ": "
       ++ message).

(** ** The interactions the handler performs *)

Local Open Scope async_scope.

Definition access (p : string) : M unit :=
  io (FsAccess p) (fun w h => fs_access w h p).

Definition mkdir (p : string) : M unit :=
  io (FsMkdir p) (fun w h => fs_mkdir w h p).

Definition invalid_path_argument (received : string) : Exn :=
  TypeError
    (string_of_list_ascii
       (list_ascii_of_string "The " ++ [quote_char]
          ++ list_ascii_of_string "path" ++ [quote_char]
          ++ list_ascii_of_string " argument must be of type string. Received "
          ++ list_ascii_of_string received)%list).

Definition readFile (p : JSValue) : M Buffer :=
  match p with
  | JStr p => io (FsReadFile p) (fun w h => fs_readFile w h p)
  | _ => throw (invalid_path_argument (typeof p))
  end.

Definition writeFile (p : string) (data : Buffer) : M unit :=
  io (FsWriteFile p data) (fun w h => fs_writeFile w h p data).

Definition metadata_of (input : Buffer) : M Metadata :=
  io (SharpMetadata input) (fun w h => sharp_metadata w h input).

Definition toFile (input : Buffer) (imageDescription p : string) : M unit :=
  io (SharpToFile input imageDescription p)
     (fun w h => sharp_toFile w h input imageDescription p).

Definition randomUUID : M string :=
  io RandomUUID (fun w h => inr (crypto_randomUUID w h)).

Definition Buffer_from_base64 (s : string) : M Buffer :=
  pure_of_world (fun w => base64_decode w s).

Definition toString_base64 (b : Buffer) : M string :=
  pure_of_world (fun w => base64_encode w b).

Definition post_txt2img (payload : JSValue) : M (option (list string)) :=
  io (HttpPost "/sdapi/v1/txt2img" payload None)
     (fun w h => sd_txt2img w h payload).

Definition post_png_info (body : JSValue) : M string :=
  io (HttpPost "/sdapi/v1/png-info" body None)
     (fun w h => sd_png_info w h body).

Definition get_sd_models_list : M (list ModelInfo) :=
  io (HttpGet "/sdapi/v1/sd-models") (fun w h => sd_models w h).

Definition post_options (body : JSValue) : M unit :=
  io (HttpPost "/sdapi/v1/options" body None)
     (fun w h => sd_options w h body).

Definition get_upscalers_list : M (list UpscalerInfo) :=
  io (HttpGet "/sdapi/v1/upscalers") (fun w h => sd_upscalers w h).

Definition post_extra_batch_images (payload : JSValue)
  : M (option (list string)) :=
  io (HttpPost "/sdapi/v1/extra-batch-images" payload None)
     (fun w h => sd_extra_batch_images w h payload).

Definition post_img2img (payload : JSValue) (timeout : Z) : Promise unit :=
  started (HttpPost "/sdapi/v1/img2img" payload (Some timeout))
    (fun w h => sd_img2img w h payload).

(** [path.basename(x)] on a value: anything but a string is refused. *)
Definition path_basename (x : JSValue) : M string :=
  match x with
  | JStr p => ret (Path.basename p)
  | _ => throw (invalid_path_argument (typeof x))
  end.

(** [x.trim()] on a value: only strings have the method. *)
Definition method_trim (x : JSValue) : Result string :=
  match x with
  | JStr s => inr (trim s)
  | _ => inl (TypeError "args.output_path.trim is not a function")
  end.

(** [a * b]: both operands go through ToNumber. *)
Definition times (a b : JSValue) : M number :=
  x <- lift (ToNumber a) ;;
  y <- lift (ToNumber b) ;;
  ret (num_mul x y).

(** Runs [m] and hands its outcome over instead of throwing. *)
Definition settle {A} (m : M A) : M (Result A) :=
  fun w h => let '(h', r) := m w h in (h', inr r).

Fixpoint start_all {A} (ms : list (M A)) : M (list (Result A)) :=
  match ms with
  | [] => ret []
  | m :: ms' =>
      r <- settle m ;;
      rs <- start_all ms' ;;
      ret (r :: rs)
  end.

Definition rejections {A} (rs : list (Result A)) : list Exn :=
  flat_map (fun r => match r with inl e => [e] | inr _ => [] end) rs.

(** [Promise.all] over settled promises: the list of values, or, when
    some are rejected, the rejection that came first in time. *)
Definition all_settled {A} (rs : list (Result A)) : M (list A) :=
  match rejections rs with
  | [] => lift (sequence rs)
  | e :: es => fun w h => (h, inl (nth (promise_race w h) (e :: es) e))
  end.

(** [await Promise.all(ms)]: every promise is started, in list order. *)
Definition Promise_all {A} (ms : list (M A)) : M (list A) :=
  rs <- start_all ms ;;
  all_settled rs.

(** ** [ensureDirectoryExists] *)

Definition ensureDirectoryExists (dirPath : string) : M unit :=
  try_catch (access dirPath) (fun _ => mkdir dirPath).

(** [args.output_path ? path.normalize(args.output_path.trim())
                      : DEFAULT_OUTPUT_DIR] *)
Definition resolve_output_dir (cfg : Config) (args : JSValue) : Result string :=
  if ToBoolean (get args "output_path") then
    rbind (method_trim (get args "output_path")) (fun trimmed =>
    inr (Path.normalize trimmed))
  else inr (DEFAULT_OUTPUT_DIR cfg).

Definition invalid_parameters {A} : M A :=
  throw (new_McpError InvalidParams "Invalid parameters").

(** ** generate_image *)

(** The [SDAPIPayload] literal. *)
Definition txt2img_payload (args : JSValue) : JSValue :=
  JObj [
    ("prompt", get args "prompt");
    ("negative_prompt", or_else (get args "negative_prompt") (JStr ""));
    ("steps", or_else (get args "steps") (JInt 20));
    ("width", or_else (get args "width") (JInt 1024));
    ("height", or_else (get args "height") (JInt 1024));
    ("cfg_scale", or_else (get args "cfg_scale") (JInt 7));
    ("sampler_name", or_else (get args "sampler_name") (JStr "Euler"));
    ("seed", nullish (get args "seed") (JInt (-1)));
    ("n_iter", or_else (get args "batch_size") (JInt 1));
    ("distilled_cfg_scale",
       or_else (get args "distilled_cfg_scale") (JNum (Fin 35 (-1))));
    ("scheduler", or_else (get args "scheduler_name") (JStr "Simple"));
    ("tiling", JBool (ToBoolean (get args "tiling")));
    ("restore_faces", JBool (ToBoolean (get args "restore_faces")))
  ].

Fixpoint after_comma (s : string) : option string :=
  match s with
  | EmptyString => None
  | String c r => if Ascii.eqb c "," then Some r else after_comma r
  end.

Fixpoint before_comma (s : string) : string :=
  match s with
  | EmptyString => EmptyString
  | String c r => if Ascii.eqb c "," then EmptyString else String c (before_comma r)
  end.

(** [imageData.includes(',') ? imageData.split(',')[1] : imageData] *)
Definition strip_data_uri (imageData : string) : string :=
  match after_comma imageData with
  | Some r => before_comma r
  | None => imageData
  end.

(** [!response.data.images?.length] *)
Definition no_images (images : option (list string)) : bool :=
  match images with
  | Some (_ :: _) => false
  | _ => true
  end.

Definition images_of (images : option (list string)) : list string :=
  match images with Some l => l | None => [] end.

(** The body of [for (const imageData of response.data.images)]. *)
Fixpoint generate_loop (outputDir : string) (images : list string)
    (results : list JSValue) : M (list JSValue) :=
  match images with
  | [] => ret results
  | imageData :: rest =>
      let base64Data := strip_data_uri imageData in
      info <- post_png_info
                (JObj [("image", JStr ("data:image/png;base64," ++ imageData))]) ;;
      uuid <- randomUUID ;;
      let outputPath := Path.join outputDir ("sd_" ++ uuid ++ ".png") in
      imageBuffer <- Buffer_from_base64 base64Data ;;
      toFile imageBuffer info outputPath ;;
      generate_loop outputDir rest
        (results ++ [JObj [("path", JStr outputPath); ("parameters", JStr info)]])
  end.

Definition generate_image (cfg : Config) (request : ToolRequest) : M ToolResult :=
  ' (ok, args) <- lift (isGenerateImageArgs (request_arguments request)) ;;
  if negb ok then invalid_parameters
  else
    outputDir <- lift (resolve_output_dir cfg args) ;;
    ensureDirectoryExists outputDir ;;
    let payload := txt2img_payload args in
    response <- post_txt2img payload ;;
    if no_images response then throw (Error "No images generated")
    else
      results <- generate_loop outputDir (images_of response) [] ;;
      ret (text_result (JSON_stringify (JArr results))).

(** ** get_sd_models, set_sd_model, get_sd_upscalers *)

Definition get_sd_models : M ToolResult :=
  models <- get_sd_models_list ;;
  ret (text_result (JSON_stringify (JArr (map (fun m => JStr (title m)) models)))).

Definition set_sd_model (request : ToolRequest) : M ToolResult :=
  let args := request_arguments request in
  if negb (isSetModelArgs args) then invalid_parameters
  else
    post_options (JObj [("sd_model_checkpoint", get args "model_name")]) ;;
    model_name <- lift (ToString (get args "model_name")) ;;
    ret (text_result (JStr ("Model set to: " ++ model_name))).

Definition get_sd_upscalers : M ToolResult :=
  upscalers <- get_upscalers_list ;;
  ret (text_result (JSON_stringify (JArr (map (fun u => JStr (name u)) upscalers)))).

(** ** upscale_images *)

Definition elements (v : JSValue) : list JSValue :=
  match v with JArr l => l | _ => [] end.

(** The callback of [args.images.map(...)]. *)
Definition encode_image (imagePath : JSValue) : M JSValue :=
  data <- readFile imagePath ;;
  encoded <- toString_base64 data ;;
  base <- path_basename imagePath ;;
  ret (JObj [("data", JStr encoded); ("name", JStr base)]).

(** [args.resize_mode !== undefined ? Number(args.resize_mode)
                                    : SD_RESIZE_MODE] *)
Definition resizeModeNum (cfg : Config) (args : JSValue) : Result JSValue :=
  if negb (is_undefined (get args "resize_mode"))
  then Number_ (get args "resize_mode")
  else inr (JNum (SD_RESIZE_MODE cfg)).

(** The [UpscaleImagePayload] literal. *)
Definition upscale_payload (cfg : Config) (args : JSValue)
    (resize_mode : JSValue) (encodedImages : list JSValue) : JSValue :=
  JObj [
    ("resize_mode", resize_mode);
    ("show_extras_results", JBool true);
    ("gfpgan_visibility", JInt 0);
    ("codeformer_visibility", JInt 0);
    ("codeformer_weight", JInt 0);
    ("upscaling_resize",
       nullish (get args "upscaling_resize") (JNum (SD_UPSCALE_MULTIPLIER cfg)));
    ("upscaling_resize_w",
       nullish (get args "upscaling_resize_w") (JNum (SD_UPSCALE_WIDTH cfg)));
    ("upscaling_resize_h",
       nullish (get args "upscaling_resize_h") (JNum (SD_UPSCALE_HEIGHT cfg)));
    ("upscaling_crop", JBool true);
    ("upscaler_1", nullish (get args "upscaler_1") (JStr (SD_UPSCALER_1 cfg)));
    ("upscaler_2", nullish (get args "upscaler_2") (JStr (SD_UPSCALER_2 cfg)));
    ("extras_upscaler_2_visibility", JInt 0);
    ("upscale_first", JBool false);
    ("imageList", JArr encodedImages)
  ].

(** [for (let i = 0; i < response.data.images.length; i++)], entered with
    the images from index [i] on; [args.images[i]] is undefined past the
    end of the input array. *)
Fixpoint upscale_loop (outputDir : string) (inputs : list JSValue) (i : nat)
    (images : list string) (results : list JSValue) : M (list JSValue) :=
  match images with
  | [] => ret results
  | imageData :: rest =>
      base <- path_basename (nth i inputs JUndefined) ;;
      let outputPath := Path.join outputDir ("upscaled_" ++ base) in
      data <- Buffer_from_base64 imageData ;;
      writeFile outputPath data ;;
      upscale_loop outputDir inputs (S i) rest
        (results ++ [JObj [("path", JStr outputPath)]])
  end.

Definition upscale_images (cfg : Config) (request : ToolRequest) : M ToolResult :=
  let args := request_arguments request in
  ok <- lift (isUpscaleImagesArgs args) ;;
  if negb ok then invalid_parameters
  else
    outputDir <- lift (resolve_output_dir cfg args) ;;
    ensureDirectoryExists outputDir ;;
    encodedImages <- Promise_all (map encode_image (elements (get args "images"))) ;;
    resize_mode <- lift (resizeModeNum cfg args) ;;
    let payload := upscale_payload cfg args resize_mode encodedImages in
    response <- post_extra_batch_images payload ;;
    if no_images response then throw (Error "No images upscaled")
    else
      results <- upscale_loop outputDir (elements (get args "images")) 0
                   (images_of response) [] ;;
      ret (text_result (JSON_stringify (JArr results))).

(** ** hires_fix_image *)

Definition newline : string := String (ascii_of_nat 10) EmptyString.

Definition at_marker (rest : string) : bool :=
  String.prefix (newline ++ "Negative prompt:") rest || String.prefix "Steps:" rest.

(** The lazy group of [/^(.+?)(?:\nNegative prompt:|Steps:)/s]: with [n]
    characters taken so far, stop at the first position where a marker
    follows. *)
Fixpoint lazy_group (n : nat) (rest : string) : option nat :=
  if at_marker rest then Some n
  else match rest with
       | EmptyString => None
       | String _ rest' => lazy_group (S n) rest'
       end.

(** [infoText.match(...)], reduced to its first group. *)
Definition match_prompt (infoText : string) : option string :=
  match infoText with
  | EmptyString => None
  | String _ rest =>
      match lazy_group 1 rest with
      | Some n => Some (string_take n infoText)
      | None => None
      end
  end.

Definition of_optional (x : option number) : JSValue :=
  match x with Some n => JNum n | None => JUndefined end.

(** The inner [try { ... } catch (e) { prompt = '' }]. *)
Definition recover_prompt (base64Image : string) : M string :=
  try_catch
    (info <- post_png_info (JObj [("image", JStr base64Image)]) ;;
     infoText <- lift (ToString (or_else (JStr info) (JStr ""))) ;;
     ret (match match_prompt infoText with
          | Some group => trim group
          | None => ""
          end))
    (fun _ => ret "").

(** The [Img2ImgPayload] literal. *)
Definition img2img_payload (args : JSValue) (base64Image prompt : string)
    (targetWidth targetHeight : number) : JSValue :=
  JObj [
    ("init_images", JArr [JStr base64Image]);
    ("prompt", JStr prompt);
    ("negative_prompt", JStr "");
    ("steps", or_else (get args "steps") (JInt 20));
    ("cfg_scale", JInt 7);
    ("width", JNum targetWidth);
    ("height", JNum targetHeight);
    ("denoising_strength",
       or_else (get args "denoising_strength") (JNum (literal 7 (-1))));
    ("sampler_name", JStr "Euler");
    ("scheduler", JStr "Simple")
  ].

Definition hires_fix_message (args : JSValue) (metadata : Metadata)
    (targetWidth targetHeight : number) : Result string :=
  rbind (ToString (or_else (get args "hr_scale") (JInt 2))) (fun scale_text =>
  rbind (ToString (of_optional (width metadata))) (fun width_text =>
  rbind (ToString (of_optional (height metadata))) (fun height_text =>
  inr ("Hires.fix request sent to Stable Diffusion (" ++ scale_text
       ++ "x upscale from " ++ width_text ++ "x" ++ height_text
       ++ " to " ++ number_toString targetWidth ++ "x"
       ++ number_toString targetHeight
       ++ "). The image will be saved to the SD output directory when processing completes. This will take a while on CPU.")))).

Definition hires_fix_image (request : ToolRequest) : M ToolResult :=
  let args := request_arguments request in
  ok <- lift (isHiresFixImageArgs args) ;;
  if negb ok then invalid_parameters
  else
    imageData <- readFile (get args "image_path") ;;
    encoded <- toString_base64 imageData ;;
    let base64Image := "data:image/png;base64," ++ encoded in
    metadata <- metadata_of imageData ;;
    w <- times (or_else (of_optional (width metadata)) (JInt 1024))
               (or_else (get args "hr_scale") (JInt 2)) ;;
    let targetWidth := Math_round w in
    h <- times (or_else (of_optional (height metadata)) (JInt 1024))
               (or_else (get args "hr_scale") (JInt 2)) ;;
    let targetHeight := Math_round h in
    prompt <- recover_prompt base64Image ;;
    let payload := img2img_payload args base64Image prompt targetWidth targetHeight in
    spawn (catch_ (post_img2img payload 1000) (fun _ => ret tt)) ;;
    message <- lift (hires_fix_message args metadata targetWidth targetHeight) ;;
    ret (text_result (JStr message)).

(** ** The CallTool request handler *)

(** [axios.isAxiosError(error)]. *)
Definition isAxiosError (error : Exn) : bool :=
  match error with AxiosError _ _ _ => true | _ => false end.

(** [error instanceof Error ? error.message : 'Unknown error occurred'] *)
Definition message_or_unknown (error : Exn) : string :=
  match error with
  | TypeError m | Error m | McpError _ m | AxiosError _ _ m => m
  | Thrown _ => "Unknown error occurred"
  end.

(** [error.response.data?.error] *)
Definition response_error_field (data : JSValue) : JSValue :=
  if is_undefined data || is_null data then JUndefined else get data "error".

(** The [catch (error)] block.  The template literal of the first case
    converts [data?.error || error.message] to a string, which can throw. *)
Definition translate_error {A} (error : Exn) : M A :=
  if isAxiosError error then
    match error with
    | AxiosError (Some data) _ message =>
        detail <- lift (ToString (or_else (response_error_field data) (JStr message))) ;;
        throw (new_McpError InternalError ("API error: " ++ detail))
    | AxiosError None request message =>
        throw (new_McpError InternalError
                 ((if request then "No response: " else "Request error: ")
                    ++ message))
    | _ => throw (new_McpError InternalError (message_or_unknown error))
    end
  else throw (new_McpError InternalError (message_or_unknown error)).

(** The [switch (request.params.name)]. *)
Definition dispatch (cfg : Config) (request : ToolRequest) : M ToolResult :=
  let name := request_name request in
  if String.eqb name "generate_image" then generate_image cfg request
  else if String.eqb name "get_sd_models" then get_sd_models
  else if String.eqb name "set_sd_model" then set_sd_model request
  else if String.eqb name "get_sd_upscalers" then get_sd_upscalers
  else if String.eqb name "upscale_images" then upscale_images cfg request
  else if String.eqb name "hires_fix_image" then hires_fix_image request
  else throw (new_McpError MethodNotFound ("Unknown tool: " ++ name)).

(** [try { switch ... } catch (error) { ... }] *)
Definition call_tool (cfg : Config) (request : ToolRequest) : M ToolResult :=
  try_catch (dispatch cfg request) translate_error.

(** The names the ListTools handler announces. *)
Definition registered_tools : list string :=
  ["generate_image"; "get_sd_models"; "set_sd_model"; "get_sd_upscalers";
   "upscale_images"; "hires_fix_image"].

(** ** The ListTools request handler *)

Definition schema_property (ty description : string)
    (more : list (string * JSValue)) : JSValue :=
  JObj ([("type", JStr ty); ("description", JStr description)] ++ more)%list.

Definition tool_descriptor (name description : string)
    (properties : list (string * JSValue)) (required : list string) : JSValue :=
  JObj [("name", JStr name);
        ("description", JStr description);
        ("inputSchema",
           JObj [("type", JStr "object");
                 ("properties", JObj properties);
                 ("required", JArr (map JStr required))])].

(** The [tools] array, as the handler returns it. *)
Definition tools : list JSValue := [
  tool_descriptor "generate_image" "Generate an image using Stable Diffusion"
    [("prompt", schema_property "string" "The prompt describing the desired image" []);
     ("negative_prompt", schema_property "string" "Things to exclude from the image" []);
     ("steps", schema_property "number" "Number of sampling steps (default: 20)"
                 [("minimum", JInt 1); ("maximum", JInt 150)]);
     ("width", schema_property "number" "Image width (default: 1024)"
                 [("minimum", JInt 512); ("maximum", JInt 2048)]);
     ("height", schema_property "number" "Image height (default: 1024)"
                 [("minimum", JInt 512); ("maximum", JInt 2048)]);
     ("cfg_scale", schema_property "number" "CFG scale (default: 7)"
                 [("minimum", JInt 1); ("maximum", JInt 30)]);
     ("sampler_name", schema_property "string" "Sampling algorithm (default: Euler)"
                 [("default", JStr "Euler")]);
     ("scheduler_name", schema_property "string" "Scheduler algorithm (default: Simple)"
                 [("default", JStr "Simple")]);
     ("seed", schema_property "number" "Random seed (-1 for random)"
                 [("minimum", JInt (-1))]);
     ("batch_size", schema_property "number" "Number of images to generate (default: 1)"
                 [("minimum", JInt 1); ("maximum", JInt 4)]);
     ("restore_faces", schema_property "boolean" "Enable face restoration" []);
     ("tiling", schema_property "boolean" "Generate tileable images" []);
     ("distilled_cfg_scale", schema_property "number" "Distilled CFG scale (default: 3.5)"
                 [("minimum", JInt 1); ("maximum", JInt 30)]);
     ("output_path", schema_property "string" "Custom output path for the generated image" [])]
    ["prompt"];
  tool_descriptor "get_sd_models" "Get list of available Stable Diffusion models" [] [];
  tool_descriptor "set_sd_model" "Set the active Stable Diffusion model"
    [("model_name", schema_property "string" "Name of the model to set as active" [])]
    ["model_name"];
  tool_descriptor "get_sd_upscalers" "Get list of available upscaler models" [] [];
  tool_descriptor "upscale_images" "Upscale one or more images using Stable Diffusion"
    [("images",
        JObj [("type", JStr "array");
              ("items", JObj [("type", JStr "string")]);
              ("description", JStr "Array of image file paths to upscale")]);
     ("resize_mode",
        JObj [("type", JStr "string");
              ("enum", JArr [JStr "0"; JStr "1"]);
              ("description", JStr "0 for multiplier mode (default), 1 for dimension mode")]);
     ("upscaling_resize", schema_property "number"
        "Upscale multiplier (default: 4) - used when resize_mode is 0" []);
     ("upscaling_resize_w", schema_property "number"
        "Target width in pixels (default: 512) - used when resize_mode is 1" []);
     ("upscaling_resize_h", schema_property "number"
        "Target height in pixels (default: 512) - used when resize_mode is 1" []);
     ("upscaler_1", schema_property "string"
        "Primary upscaler model (default: R-ESRGAN 4x+)" []);
     ("upscaler_2", schema_property "string"
        "Secondary upscaler model (default: None)" []);
     ("output_path", schema_property "string"
        "Custom output directory for upscaled images" [])]
    ["images"];
  tool_descriptor "hires_fix_image"
    "Apply hires.fix upscaling to an existing image using img2img. This sends the request to Stable Diffusion but does not wait for completion - the image will be saved to the SD output directory when finished."
    [("image_path", schema_property "string" "Path to the image file to upscale" []);
     ("hr_scale", schema_property "number" "Upscale factor (default: 2)"
                 [("minimum", JInt 1); ("maximum", JInt 4)]);
     ("hr_upscaler", schema_property "string" "Upscaler to use (default: Latent)" []);
     ("denoising_strength", schema_property "number"
        "How much to alter the image (default: 0.7, lower = closer to original)"
        [("minimum", JInt 0); ("maximum", JInt 1)]);
     ("steps", schema_property "number" "Number of sampling steps (default: 20)"
                 [("minimum", JInt 1); ("maximum", JInt 150)])]
    ["image_path"]
].

Definition list_tools : M JSValue := ret (JObj [("tools", JArr tools)]).

(** ** The constructor: the configuration of the HTTP client *)

Record AxiosConfig : Type := {
  baseURL : string;
  headers : list (string * string);
  timeout : number;
  auth : option (string * string)
}.

Definition truthy_variable (x : option string) : option string :=
  match x with
  | Some s => if String.eqb s "" then None else Some s
  | None => None
  end.

(** [if (AUTH_USER && AUTH_PASS) axiosConfig.auth = {username, password}] *)
Definition axiosConfig (cfg : Config) : AxiosConfig := {|
  baseURL := SD_WEBUI_URL cfg;
  headers := [("Content-Type", "application/json")];
  timeout := REQUEST_TIMEOUT cfg;
  auth := match truthy_variable (AUTH_USER cfg), truthy_variable (AUTH_PASS cfg) with
          | Some username, Some password => Some (username, password)
          | _, _ => None
          end
|}.

End Server.

(* ===================================================================== *)
(** * A concrete configuration and world, for running the handler *)
(* ===================================================================== *)

Module Examples.
Import JS Effects Server.

(** No environment variable is set. *)
Definition default_config : Config := config_of_env (fun _ => None).

(** A 512x768 source image, a service that returns [images] for every
    generation or upscaling request, and an img2img request that times
    out. *)
Definition world_answering (images : option (list string)) : World := {|
  fs_access := fun _ _ => inr tt;
  fs_mkdir := fun _ _ => inr tt;
  fs_readFile := fun _ p => inr ("<" ++ p ++ ">");
  fs_writeFile := fun _ _ _ => inr tt;
  sharp_metadata := fun _ _ =>
    inr {| width := Some (of_Z 512); height := Some (of_Z 768) |};
  sharp_toFile := fun _ _ _ _ => inr tt;
  crypto_randomUUID := fun _ => "0000";
  sd_txt2img := fun _ _ => inr images;
  sd_png_info := fun _ _ => inr ("a cat" ++ newline ++ "Steps: 20");
  sd_models := fun _ => inr [];
  sd_options := fun _ _ => inr tt;
  sd_upscalers := fun _ => inr [];
  sd_extra_batch_images := fun _ _ => inr images;
  sd_img2img := fun _ _ =>
    Some (inl (AxiosError None true "timeout of 1000ms exceeded"));
  base64_encode := fun b => "base64:" ++ b;
  base64_decode := fun s => "bytes:" ++ s;
  promise_race := fun _ => 0%nat
|}.

Definition call (name : string) (args : JSValue) : ToolRequest :=
  {| request_name := name; request_arguments := args |}.

End Examples.

(* ===================================================================== *)
(** * Properties *)
(* ===================================================================== *)

Import JS Effects Server Examples.
Local Open Scope async_scope.

(** ** Vocabulary of the statements *)

(** *** Dispatch and validation *)

(** [name] is one of the six tools. *)
Definition is_registered (name : string) : bool :=
  existsb (String.eqb name) registered_tools.

(** The validator the handler runs for a tool, if it has one, and its
    answer. *)
Definition validator_of (name : string) (args : JSValue) : option (Result bool) :=
  if String.eqb name "generate_image" then
    Some (rbind (isGenerateImageArgs args) (fun r => inr (fst r)))
  else if String.eqb name "set_sd_model" then Some (inr (isSetModelArgs args))
  else if String.eqb name "upscale_images" then Some (isUpscaleImagesArgs args)
  else if String.eqb name "hires_fix_image" then Some (isHiresFixImageArgs args)
  else None.

(** *** Histories *)

(** The bodies of the requests a history posted to [url]. *)
Definition posted (url : string) (h : History) : list JSValue :=
  flat_map (fun ev =>
              match ev with
              | HttpPost u body _ => if String.eqb u url then [body] else []
              | _ => []
              end) h.

(** [emits Q m]: running [m] extends the history by events that all
    satisfy [Q], whatever the world and the history so far. *)
Definition emits {A} (Q : Event -> Prop) (m : M A) : Prop :=
  forall w h, exists l, fst (m w h) = (h ++ l)%list /\ Forall Q l.


Definition extra_batch_images_url : string := "/sdapi/v1/extra-batch-images".

Definition img2img_url : string := "/sdapi/v1/img2img".

(** The only request upscale_images posts to the upscaling endpoint is the
    payload literal, built from accepted arguments. *)
Definition posts_the_upscale_payload (cfg : Config) (args : JSValue)
    (ev : Event) : Prop :=
  match ev with
  | HttpPost url body _ =>
      url = extra_batch_images_url ->
      isUpscaleImagesArgs args = inr true
      /\ exists resize_mode encodedImages,
           resizeModeNum cfg args = inr resize_mode
           /\ body = upscale_payload cfg args resize_mode encodedImages
  | _ => True
  end.

(** *** Defaults *)



(** *** Ranges *)

(** [n] is a finite number whose value lies in the closed interval
    [[lo, hi]]. *)
Definition in_closed_interval (lo hi : Z) (n : number) : Prop :=
  match n with
  | Fin m e => (inject_Z lo <= value m e /\ value m e <= inject_Z hi)%Q
  | _ => False
  end.

(** The property [k] is missing or undefined. *)
Definition absent (args : JSValue) (k : string) : Prop :=
  get args k = JUndefined.

(** [Number(args.k)] is a number of [[lo, hi]]. *)
Definition coerces_into (args : JSValue) (k : string) (lo hi : Z) : Prop :=
  exists n, ToNumber (get args k) = inr n /\ in_closed_interval lo hi n.

(** [args.k] is supplied and [Number(args.k)] is NaN or a number outside
    [[lo, hi]]. *)
Definition coerces_outside (args : JSValue) (k : string) (lo hi : Z) : Prop :=
  get args k <> JUndefined
  /\ exists n, ToNumber (get args k) = inr n /\ ~ in_closed_interval lo hi n.

(** [args.k] is missing, or [Number(args.k)] yields a number. *)
Definition coerces (args : JSValue) (k : string) : Prop :=
  absent args k \/ exists n, ToNumber (get args k) = inr n.

(** The remaining requirements of [isGenerateImageArgs]: an object whose
    [prompt] is a string and whose [negative_prompt], if any, is one. *)
Definition well_typed_prompts (args : JSValue) : Prop :=
  is_object args = true
  /\ is_string (get args "prompt") = true
  /\ (absent args "negative_prompt"
      \/ is_string (get args "negative_prompt") = true).

(** *** Upscaled files *)

(** The artifact written for the input path [p]. *)
Definition artifact (outputDir p : string) : JSValue :=
  JObj [("path", JStr (Path.join outputDir ("upscaled_" ++ Path.basename p)))].

(** *** Other worlds *)

(** The world [w] with another img2img service: one that fulfils the
    request, rejects it, or leaves it pending. *)
Definition with_img2img (w : World)
    (answer : History -> JSValue -> option (Result unit)) : World := {|
  fs_access := fs_access w;
  fs_mkdir := fs_mkdir w;
  fs_readFile := fs_readFile w;
  fs_writeFile := fs_writeFile w;
  sharp_metadata := sharp_metadata w;
  sharp_toFile := sharp_toFile w;
  crypto_randomUUID := crypto_randomUUID w;
  sd_txt2img := sd_txt2img w;
  sd_png_info := sd_png_info w;
  sd_models := sd_models w;
  sd_options := sd_options w;
  sd_upscalers := sd_upscalers w;
  sd_extra_batch_images := sd_extra_batch_images w;
  sd_img2img := answer;
  base64_encode := base64_encode w;
  base64_decode := base64_decode w;
  promise_race := promise_race w
|}.


(** *** Inputs of the examples *)


Definition args_in_range : JSValue :=
  JObj [("prompt", JStr "a cat"); ("steps", JStr "150"); ("batch_size", JInt 1)].

Definition args_steps_0 : JSValue :=
  JObj [("prompt", JStr "a cat"); ("steps", JInt 0)].

Definition args_steps_151 : JSValue :=
  JObj [("prompt", JStr "a cat"); ("steps", JInt 151)].

Definition args_batch_5 : JSValue :=
  JObj [("prompt", JStr "a cat"); ("steps", JInt 1); ("batch_size", JInt 5)].

Definition two_inputs : JSValue :=
  JObj [("images", JArr [JStr "a.png"; JStr "/tmp/in/b.png"])].

Definition two_artifacts : ToolResult :=
  text_result
    (JSON_stringify
       (JArr [JObj [("path", JStr "output/upscaled_a.png")];
              JObj [("path", JStr "output/upscaled_b.png")]])).

Definition one_input : JSValue := JObj [("images", JArr [JStr "a.png"])].

Definition args_without_prompt : JSValue := JObj [("steps", JInt 20)].

(** [steps] is an object with a [toString] property that is no function:
    [Number(steps)] throws. *)
Definition args_steps_unconvertible : JSValue :=
  JObj [("prompt", JStr "a cat");
        ("steps", JObj [("toString", JInt 1)]);
        ("batch_size", JInt 5)].

Definition no_break_space : string :=
  String (ascii_of_nat 194) (String (ascii_of_nat 160) EmptyString).

(** *** Further vocabulary: failures, traces, strings *)

(** The message of the one TypeError that string conversion throws. *)
Definition not_primitive : string := "Cannot convert object to primitive value".

(** [world_answering None] with a model listing that fails with [e]. *)
Definition world_failing (e : Exn) : World := {|
  fs_access := fs_access (world_answering None);
  fs_mkdir := fs_mkdir (world_answering None);
  fs_readFile := fs_readFile (world_answering None);
  fs_writeFile := fs_writeFile (world_answering None);
  sharp_metadata := sharp_metadata (world_answering None);
  sharp_toFile := sharp_toFile (world_answering None);
  crypto_randomUUID := crypto_randomUUID (world_answering None);
  sd_txt2img := sd_txt2img (world_answering None);
  sd_png_info := sd_png_info (world_answering None);
  sd_models := fun _ => inl e;
  sd_options := sd_options (world_answering None);
  sd_upscalers := sd_upscalers (world_answering None);
  sd_extra_batch_images := sd_extra_batch_images (world_answering None);
  sd_img2img := sd_img2img (world_answering None);
  base64_encode := base64_encode (world_answering None);
  base64_decode := base64_decode (world_answering None);
  promise_race := promise_race (world_answering None)
|}.

(** [emits_in w Q m]: in the world [w], running [m] extends the history by
    events that all satisfy [Q]. *)
Definition emits_in {A} (w : World) (Q : Event -> Prop) (m : M A) : Prop :=
  forall h, exists l, fst (m w h) = (h ++ l)%list /\ Forall Q l.

(** No file is written: neither by sharp nor by [fs]. *)
Definition writes_nothing (ev : Event) : Prop :=
  match ev with
  | SharpToFile _ _ _ | FsWriteFile _ _ => False
  | _ => True
  end.

(** No request is sent. *)
Definition sends_nothing (ev : Event) : Prop :=
  match ev with
  | HttpGet _ | HttpPost _ _ _ => False
  | _ => True
  end.

(** The artifact returned for [imageData] by generate_image comes from
    three consecutive steps of the history [h]: the png-info request for
    that image, whose answer is [info]; the draw of a UUID; and the file
    sharp wrote, from the decoded image, with [info] as its description,
    under the name [sd_<uuid>.png] of the output directory.  The artifact
    is that path and that [info]. *)
Definition written_artifact (w : World) (outputDir : string) (h : History)
    (imageData : string) (item : JSValue) : Prop :=
  exists before after info,
    let body := JObj [("image", JStr ("data:image/png;base64," ++ imageData))] in
    let asked := (before ++ [HttpPost "/sdapi/v1/png-info" body None])%list in
    let outputPath :=
      Path.join outputDir ("sd_" ++ crypto_randomUUID w asked ++ ".png") in
    h = (before
           ++ [HttpPost "/sdapi/v1/png-info" body None;
               RandomUUID;
               SharpToFile (base64_decode w (strip_data_uri imageData)) info
                 outputPath]
           ++ after)%list
    /\ sd_png_info w before body = inr info
    /\ item = JObj [("path", JStr outputPath); ("parameters", JStr info)].

Definition one_image_run : History * Result ToolResult :=
  call_tool default_config (call "generate_image" (JObj [("prompt", JStr "a cat")]))
    (world_answering (Some ["data:image/png;base64,AAAA"])) [].

Definition one_image_result : ToolResult :=
  text_result
    (JSON_stringify
       (JArr [JObj [("path", JStr "output/sd_0000.png");
                    ("parameters", JStr ("a cat" ++ newline ++ "Steps: 20"))]])).

(** [c] occurs in [s]. *)
Fixpoint contains (c : ascii) (s : string) : bool :=
  match s with
  | EmptyString => false
  | String a r => Ascii.eqb a c || contains c r
  end.

(** A world in which no file can be read. *)
Definition world_without_files : World := {|
  fs_access := fs_access (world_answering None);
  fs_mkdir := fs_mkdir (world_answering None);
  fs_readFile := fun _ _ => inl (Error "ENOENT: no such file or directory");
  fs_writeFile := fs_writeFile (world_answering None);
  sharp_metadata := sharp_metadata (world_answering None);
  sharp_toFile := sharp_toFile (world_answering None);
  crypto_randomUUID := crypto_randomUUID (world_answering None);
  sd_txt2img := sd_txt2img (world_answering None);
  sd_png_info := sd_png_info (world_answering None);
  sd_models := sd_models (world_answering None);
  sd_options := sd_options (world_answering None);
  sd_upscalers := sd_upscalers (world_answering None);
  sd_extra_batch_images := sd_extra_batch_images (world_answering None);
  sd_img2img := sd_img2img (world_answering None);
  base64_encode := base64_encode (world_answering None);
  base64_decode := base64_decode (world_answering None);
  promise_race := promise_race (world_answering None)
|}.

(** The world [w] in which writing the file [p] fails: the device is
    full. *)
Definition with_failing_write (w : World) (p : string) : World := {|
  fs_access := fs_access w;
  fs_mkdir := fs_mkdir w;
  fs_readFile := fs_readFile w;
  fs_writeFile := fun hist q data =>
    if String.eqb q p then inl (Error "ENOSPC: no space left on device")
    else fs_writeFile w hist q data;
  sharp_metadata := sharp_metadata w;
  sharp_toFile := sharp_toFile w;
  crypto_randomUUID := crypto_randomUUID w;
  sd_txt2img := sd_txt2img w;
  sd_png_info := sd_png_info w;
  sd_models := sd_models w;
  sd_options := sd_options w;
  sd_upscalers := sd_upscalers w;
  sd_extra_batch_images := sd_extra_batch_images w;
  sd_img2img := sd_img2img w;
  base64_encode := base64_encode w;
  base64_decode := base64_decode w;
  promise_race := promise_race w
|}.

(** [n] is a number not below [lo]: finite or +Infinity. *)
Definition at_least (lo : Z) (n : number) : Prop :=
  match n with
  | NaN => False
  | Infinity negative => negative = false
  | Fin m e => (inject_Z lo <= value m e)%Q
  end.

(** [Number(args.k)] is a number not below [lo]. *)
Definition coerces_at_least (args : JSValue) (k : string) (lo : Z) : Prop :=
  exists n, ToNumber (get args k) = inr n /\ at_least lo n.

(** [args.k] is missing or a string. *)
Definition optional_string_field (args : JSValue) (k : string) : Prop :=
  absent args k \/ is_string (get args k) = true.

(** The fields the generate_image validator looks at. *)
Definition generate_checked_fields : list string :=
  ["prompt"; "negative_prompt"; "steps"; "batch_size"].

Definition args_steps_as_string : JSValue :=
  JObj [("prompt", JStr "a cat"); ("steps", JStr "30")].

(** The write the upscaling loop performs for the input [p] and the
    returned image [imageData]. *)
Definition upscaled_write (w : World) (outputDir : string)
    (pair : string * string) : Event :=
  FsWriteFile (Path.join outputDir ("upscaled_" ++ Path.basename (fst pair)))
    (base64_decode w (snd pair)).

(** What the file system answers to the [i]-th of these writes, issued
    after the ones before it; [None] when there is no [i]-th pair. *)
Definition write_answer (w : World) (outputDir : string) (h : History)
    (pairs : list (string * string)) (i : nat) : option (Result unit) :=
  match nth_error pairs i with
  | Some (p, imageData) =>
      Some (fs_writeFile w
              (h ++ map (upscaled_write w outputDir) (firstn i pairs))%list
              (Path.join outputDir ("upscaled_" ++ Path.basename p))
              (base64_decode w imageData))
  | None => None
  end.

(** How the upscaling loop ends after [n] writes: it returns when every
    image was written, there being no more images than inputs; it fails
    with the error of its last write; or it fails at the first image
    without an input, all writes before having succeeded. *)
Definition loop_end (w : World) (outputDir : string) (h : History)
    (paths images : list string) (n : nat) (r : Result (list JSValue)) : Prop :=
  match r with
  | inr _ =>
      n = List.length images
      /\ (List.length images <= List.length paths)%nat
      /\ forall i, (i < n)%nat ->
           write_answer w outputDir h (combine paths images) i = Some (inr tt)
  | inl e =>
      (exists i, n = S i
                 /\ write_answer w outputDir h (combine paths images) i
                    = Some (inl e))
      \/ (n = List.length paths
          /\ (List.length paths < List.length images)%nat
          /\ (forall i, (i < n)%nat ->
                 write_answer w outputDir h (combine paths images) i
                 = Some (inr tt))
          /\ e = invalid_path_argument "undefined")
  end.

(** *** The tool catalogue *)

Definition name_is (name : string) (tool : JSValue) : bool :=
  match get tool "name" with
  | JStr n => String.eqb n name
  | _ => false
  end.

(** The names ListTools announces. *)
Definition tool_names : list string :=
  flat_map (fun tool => match get tool "name" with JStr n => [n] | _ => [] end)
    tools.

(** The input schema ListTools announces for the tool [name]. *)
Definition input_schema (name : string) : JSValue :=
  match find (name_is name) tools with
  | Some tool => get tool "inputSchema"
  | None => JUndefined
  end.

(** The schema of the property [field] of the tool [name]. *)
Definition schema_of (name field : string) : JSValue :=
  get (get (input_schema name) "properties") field.

Definition required_of (name : string) : list JSValue :=
  elements (get (input_schema name) "required").

(** The type of a value in the words of JSON schema. *)
Definition json_type (v : JSValue) : string :=
  match v with
  | JUndefined => "undefined"
  | JNull => "null"
  | JBool _ => "boolean"
  | JNum _ => "number"
  | JStr _ => "string"
  | JArr _ => "array"
  | JObj _ => "object"
  end.

(** The numeric properties of generate_image whose announced bounds no
    validator looks at. *)
Definition unenforced_bounds : list string :=
  ["width"; "height"; "cfg_scale"; "distilled_cfg_scale"].

(** A path segment that [path.normalize] keeps as it is: not empty,
    not [.] or [..], and without a slash. *)
Definition plain_segment (seg : string) : Prop :=
  seg <> "" /\ seg <> "." /\ seg <> ".." /\ contains "/" seg = false.

(** *** The target size of hires_fix_image *)

(** A dimension as sharp reports it: the whole number [W], or nothing, in
    which case the handler assumes 1024. *)
Definition reported (d : option number) (W : Z) : Prop :=
  d = Some (of_Z W) \/ (d = None /\ W = 1024).

(** An img2img request asks for a width of [[W, 4W]] and a height of
    [[H, 4H]]. *)
Definition asks_within (W H : Z) (ev : Event) : Prop :=
  match ev with
  | HttpPost url body _ =>
      url = img2img_url ->
      exists targetWidth targetHeight,
        get body "width" = JNum targetWidth
        /\ get body "height" = JNum targetHeight
        /\ in_closed_interval W (4 * W) targetWidth
        /\ in_closed_interval H (4 * H) targetHeight
  | _ => True
  end.

(** *** The output directory of a call *)

(** The directory a call of the tool [name] resolves, once its validator
    has accepted the arguments; only generate_image and upscale_images
    have one. *)
Definition output_dir_of (cfg : Config) (name : string) (args : JSValue)
  : option string :=
  if String.eqb name "generate_image" then
    match isGenerateImageArgs args with
    | inr (true, args') =>
        match resolve_output_dir cfg args' with
        | inr outputDir => Some outputDir
        | inl _ => None
        end
    | _ => None
    end
  else if String.eqb name "upscale_images" then
    match isUpscaleImagesArgs args with
    | inr true =>
        match resolve_output_dir cfg args with
        | inr outputDir => Some outputDir
        | inl _ => None
        end
    | _ => None
    end
  else None.

(** Any event but the creation of a directory. *)
Definition makes_no_directory (ev : Event) : Prop :=
  match ev with FsMkdir _ => False | _ => True end.

(** A world in which no directory exists or can be created. *)
Definition world_without_directories : World := {|
  fs_access := fun _ _ => inl (Error "ENOENT: no such file or directory");
  fs_mkdir := fun _ _ => inl (Error "EACCES: permission denied");
  fs_readFile := fs_readFile (world_answering None);
  fs_writeFile := fs_writeFile (world_answering None);
  sharp_metadata := sharp_metadata (world_answering None);
  sharp_toFile := sharp_toFile (world_answering None);
  crypto_randomUUID := crypto_randomUUID (world_answering None);
  sd_txt2img := sd_txt2img (world_answering None);
  sd_png_info := sd_png_info (world_answering None);
  sd_models := sd_models (world_answering None);
  sd_options := sd_options (world_answering None);
  sd_upscalers := sd_upscalers (world_answering None);
  sd_extra_batch_images := sd_extra_batch_images (world_answering None);
  sd_img2img := sd_img2img (world_answering None);
  base64_encode := base64_encode (world_answering None);
  base64_decode := base64_decode (world_answering None);
  promise_race := promise_race (world_answering None)
|}.

(** ** Stepping through [async] code *)

Lemma bind_returns {A B} (m : M A) (k : A -> M B) w h h' b :
  bind m k w h = (h', inr b) ->
  exists a h1, m w h = (h1, inr a) /\ k a w h1 = (h', inr b).
Proof.
  unfold bind. destruct (m w h) as [h1 [e | a]]; intros H.
  - discriminate.
  - exists a, h1. auto.
Qed.

Lemma bind_run {A B} (m : M A) (k : A -> M B) w h h1 a :
  m w h = (h1, inr a) -> bind m k w h = k a w h1.
Proof. unfold bind. intros ->. reflexivity. Qed.

(** The catch block never returns normally: whatever was thrown, the
    handler's promise is rejected. *)
Lemma translate_error_throws {A} (error : Exn) w h :
  exists e, @translate_error A error w h = (h, inl e).
Proof.
  destruct error as [m | m | c m | [data |] request m | v]; cbn;
    try (eexists; reflexivity).
  unfold bind, lift, throw.
  destruct (ToString (or_else (response_error_field data) (JStr m)));
    eexists; reflexivity.
Qed.

Lemma call_tool_returns cfg request w h h' r :
  call_tool cfg request w h = (h', inr r) ->
  dispatch cfg request w h = (h', inr r).
Proof.
  unfold call_tool, try_catch.
  destruct (dispatch cfg request w h) as [h1 [e | a]]; intros H; auto.
  destruct (translate_error_throws (A := ToolResult) e w h1) as [e' He'].
  rewrite He' in H. discriminate.
Qed.

(** ** Unknown tools *)

Lemma dispatch_unknown cfg request w h :
  is_registered (request_name request) = false ->
  dispatch cfg request w h
  = (h, inl (new_McpError MethodNotFound
               ("Unknown tool: " ++ request_name request))).
Proof.
  unfold is_registered, registered_tools, dispatch. cbn [existsb].
  intros H.
  repeat (apply orb_false_elim in H; destruct H as [E H]; rewrite E; clear E).
  reflexivity.
Qed.

(** C1.  A call whose name is none of the six registered tools makes the
    switch throw a method-not-found error, and that error is thrown inside
    the [try]: the catch block replaces it by an internal error whose
    message quotes it.  No interaction with the outside takes place. *)
Theorem unknown_tool_surfaces_as_internal_error cfg request w h :
  is_registered (request_name request) = false ->
  dispatch cfg request w h
  = (h, inl (McpError MethodNotFound
               ("MCP error -32601: Unknown tool: " ++ request_name request)))
  /\ call_tool cfg request w h
     = (h, inl (McpError InternalError
                  ("MCP error -32603: MCP error -32601: Unknown tool: "
                     ++ request_name request))).
Proof.
  intros H. pose proof (dispatch_unknown cfg request w h H) as D.
  split.
  - exact D.
  - unfold call_tool, try_catch. rewrite D. reflexivity.
Qed.

Lemma frobnicate_surfaces_as_internal_error :
  dispatch default_config (call "frobnicate" (JObj [])) (world_answering None) []
  = ([], inl (McpError MethodNotFound "MCP error -32601: Unknown tool: frobnicate"))
  /\ call_tool default_config (call "frobnicate" (JObj [])) (world_answering None) []
     = ([], inl (McpError InternalError
                   "MCP error -32603: MCP error -32601: Unknown tool: frobnicate")).
Proof.
  apply (unknown_tool_surfaces_as_internal_error
           default_config (call "frobnicate" (JObj [])) (world_answering None) []).
  reflexivity.
Defined.

(** ** Rejected arguments *)

Lemma dispatch_rejected cfg name args w h :
  validator_of name args = Some (inr false) ->
  dispatch cfg (call name args) w h
  = (h, inl (new_McpError InvalidParams "Invalid parameters")).
Proof.
  unfold validator_of, dispatch, call. cbn [request_name].
  destruct (String.eqb_spec name "generate_image") as [-> | _].
  { unfold generate_image, bind, lift. cbn [request_arguments].
    destruct (isGenerateImageArgs args) as [e | [ok v]]; cbn; intros H.
    - discriminate.
    - injection H as ->. reflexivity. }
  destruct (String.eqb_spec name "get_sd_models") as [-> | _].
  { cbn. discriminate. }
  destruct (String.eqb_spec name "set_sd_model") as [-> | _].
  { cbn. unfold set_sd_model. cbn [request_arguments].
    intros H. injection H as ->. reflexivity. }
  destruct (String.eqb_spec name "get_sd_upscalers") as [-> | _].
  { cbn. discriminate. }
  destruct (String.eqb_spec name "upscale_images") as [-> | _].
  { cbn. unfold upscale_images, bind, lift. cbn [request_arguments].
    intros H. injection H as ->. reflexivity. }
  destruct (String.eqb_spec name "hires_fix_image") as [-> | _].
  { unfold hires_fix_image, bind, lift. cbn [request_arguments].
    intros H. injection H as ->. reflexivity. }
  discriminate.
Qed.

(** C2.  When a tool's validator answers false, the switch throws an
    invalid-parameters error with the history untouched: no request was
    sent and no file or directory touched.  The throw is inside the [try],
    so the caller receives an internal error that quotes it. *)
Theorem rejected_arguments_surface_as_internal_error cfg name args w h :
  validator_of name args = Some (inr false) ->
  dispatch cfg (call name args) w h
  = (h, inl (McpError InvalidParams "MCP error -32602: Invalid parameters"))
  /\ call_tool cfg (call name args) w h
     = (h, inl (McpError InternalError
                  "MCP error -32603: MCP error -32602: Invalid parameters")).
Proof.
  intros H. pose proof (dispatch_rejected cfg name args w h H) as D.
  split.
  - exact D.
  - unfold call_tool, try_catch. rewrite D. reflexivity.
Qed.

Lemma steps_zero_surfaces_as_internal_error :
  dispatch default_config
    (call "generate_image" (JObj [("prompt", JStr "a cat"); ("steps", JInt 0)]))
    (world_answering None) []
  = ([], inl (McpError InvalidParams "MCP error -32602: Invalid parameters"))
  /\ call_tool default_config
       (call "generate_image" (JObj [("prompt", JStr "a cat"); ("steps", JInt 0)]))
       (world_answering None) []
     = ([], inl (McpError InternalError
                   "MCP error -32603: MCP error -32602: Invalid parameters")).
Proof.
  apply (rejected_arguments_surface_as_internal_error default_config
           "generate_image" (JObj [("prompt", JStr "a cat"); ("steps", JInt 0)])
           (world_answering None) []).
  reflexivity.
Defined.

(** ** Objects *)

Lemma lookup_update_other k k' x ps :
  k' <> k -> lookup k' (update k x ps) = lookup k' ps.
Proof.
  intros N. induction ps as [| [k0 v] ps IH]; cbn.
  - destruct (String.eqb_spec k' k); [contradiction | reflexivity].
  - destruct (String.eqb_spec k k0) as [-> | N0]; cbn.
    + destruct (String.eqb_spec k' k0); [contradiction | reflexivity].
    + destruct (String.eqb_spec k' k0); [reflexivity | exact IH].
Qed.

Lemma get_set_other v k k' x : k' <> k -> get (set v k x) k' = get v k'.
Proof.
  intros N. destruct v; cbn; try reflexivity.
  rewrite lookup_update_other by exact N. reflexivity.
Qed.

Lemma is_string_inv v : is_string v = true -> exists s, v = JStr s.
Proof. destruct v; cbn; try discriminate. eauto. Qed.

(** ** What the validators leave in place *)

Lemma and_then_accepts {S} (step : Result (bool * S)) k st' :
  and_then step k = inr (true, st') ->
  exists st, step = inr (true, st) /\ k st = inr (true, st').
Proof.
  unfold and_then, rbind. destruct step as [e | [[|] st]]; intros H.
  - discriminate.
  - eauto.
  - discriminate.
Qed.

Lemma coerce_in_range_keeps k lo hi v v' :
  coerce_in_range k lo hi v = inr (true, v') ->
  forall k', k' <> k -> get v' k' = get v k'.
Proof.
  unfold coerce_in_range, rbind.
  destruct (is_undefined (get v k)); cbn.
  - intros H. injection H as <-. reflexivity.
  - destruct (ToNumber (get v k)) as [e | n]; [discriminate |].
    destruct (isNaN n || num_lt n (of_Z lo) || num_gt n (of_Z hi));
      [discriminate |].
    intros H k' N. injection H as <-. apply get_set_other. exact N.
Qed.

Lemma isGenerateImageArgs_prompt args args' :
  isGenerateImageArgs args = inr (true, args') ->
  is_object args = true /\ is_string (get args "prompt") = true.
Proof.
  unfold isGenerateImageArgs.
  destruct (is_object args); cbn; [| discriminate].
  destruct (is_string (get args "prompt")); cbn; [| discriminate].
  auto.
Qed.

Lemma isGenerateImageArgs_keeps args args' :
  isGenerateImageArgs args = inr (true, args') ->
  forall k, k <> "steps" -> k <> "batch_size" -> get args' k = get args k.
Proof.
  unfold isGenerateImageArgs.
  destruct (is_object args); cbn; [| discriminate].
  destruct (is_string (get args "prompt")); cbn; [| discriminate].
  destruct (negb (is_undefined (get args "negative_prompt"))
            && negb (is_string (get args "negative_prompt"))); [discriminate |].
  intros H k N1 N2.
  apply and_then_accepts in H. destruct H as (v1 & H1 & H).
  apply and_then_accepts in H. destruct H as (v2 & H2 & H).
  injection H as <-.
  rewrite (coerce_in_range_keeps _ _ _ _ _ H2 k N2).
  apply (coerce_in_range_keeps _ _ _ _ _ H1 k N1).
Qed.

(** ** Defaults in the payloads *)



(** Accepted upscale_images arguments passed each of the optional
    checks. *)
Lemma isUpscaleImagesArgs_checks args :
  isUpscaleImagesArgs args = inr true ->
  check_at_least "upscaling_resize" 1 args = inr (true, tt)
  /\ check_at_least "upscaling_resize_w" 1 args = inr (true, tt)
  /\ check_at_least "upscaling_resize_h" 1 args = inr (true, tt)
  /\ optional_string "upscaler_1" args = inr (true, tt)
  /\ optional_string "upscaler_2" args = inr (true, tt)
  /\ optional_string "output_path" args = inr (true, tt).
Proof.
  unfold isUpscaleImagesArgs.
  destruct (negb (is_object args)); [discriminate |].
  destruct (negb (Array_isArray (get args "images"))
            || negb (all_strings (get args "images"))); [discriminate |].
  destruct (negb (is_undefined (get args "resize_mode")) && _); [discriminate |].
  unfold rbind.
  destruct (and_then (check_at_least "upscaling_resize" 1 args) _)
    as [e | [ok []]] eqn:H; [discriminate |].
  cbn. intros E. injection E as ->.
  apply and_then_accepts in H. destruct H as ([] & H1 & H).
  apply and_then_accepts in H. destruct H as ([] & H2 & H).
  apply and_then_accepts in H. destruct H as ([] & H3 & H).
  apply and_then_accepts in H. destruct H as ([] & H4 & H).
  apply and_then_accepts in H. destruct H as ([] & H5 & H).
  apply and_then_accepts in H. destruct H as ([] & H6 & H).
  auto 10.
Qed.





(** The same operator defaults [denoising_strength] in hires_fix_image,
    whose validator accepts 0: the request is posted with 0.7. *)
Example denoising_strength_zero_run :
  isHiresFixImageArgs
    (JObj [("image_path", JStr "a.png"); ("denoising_strength", JInt 0)])
  = inr true
  /\ map (fun body => get body "denoising_strength")
       (posted "/sdapi/v1/img2img"
          (fst (call_tool default_config
                  (call "hires_fix_image"
                     (JObj [("image_path", JStr "a.png");
                            ("denoising_strength", JInt 0)]))
                  (world_answering None) [])))
     = [JNum (literal 7 (-1))].
Proof. vm_compute. repeat split. Qed.

(** ** What acceptance guarantees *)

(** C4, as the code has it.  Arguments accepted by the generate_image
    validator have a prompt that is a string, and validation leaves it as it
    is; nothing is required of its length. *)
Theorem accepted_generate_args_have_a_string_prompt args args' :
  isGenerateImageArgs args = inr (true, args') ->
  exists s, get args "prompt" = JStr s /\ get args' "prompt" = JStr s.
Proof.
  intros V.
  destruct (isGenerateImageArgs_prompt _ _ V) as [_ P].
  apply is_string_inv in P. destruct P as [s P].
  exists s. split; [exact P |].
  rewrite (isGenerateImageArgs_keeps _ _ V "prompt") by discriminate.
  exact P.
Qed.

Lemma accepted_generate_args_have_a_string_prompt_at_empty :
  exists s, get (JObj [("prompt", JStr "")]) "prompt" = JStr s
            /\ get (JObj [("prompt", JStr "")]) "prompt" = JStr s.
Proof.
  apply (accepted_generate_args_have_a_string_prompt
           (JObj [("prompt", JStr "")]) (JObj [("prompt", JStr "")])).
  reflexivity.
Defined.

(** C4 as stated fails: the empty prompt is accepted. *)
Lemma empty_prompt_is_accepted :
  isGenerateImageArgs (JObj [("prompt", JStr "")])
  = inr (true, JObj [("prompt", JStr "")])
  /\ get (JObj [("prompt", JStr "")]) "prompt" = JStr "".
Proof. split; reflexivity. Qed.

Lemma all_strings_inv v :
  Array_isArray v = true -> all_strings v = true ->
  exists paths, v = JArr (map JStr paths).
Proof.
  destruct v as [| | | | | l |]; cbn; try discriminate.
  intros _. induction l as [| x l IH]; cbn; intros H.
  - exists []. reflexivity.
  - apply andb_prop in H. destruct H as [X L].
    apply is_string_inv in X. destruct X as [s ->].
    destruct (IH L) as [paths E]. injection E as ->.
    exists (s :: paths). reflexivity.
Qed.

Lemma isUpscaleImagesArgs_images args :
  isUpscaleImagesArgs args = inr true ->
  exists paths, get args "images" = JArr (map JStr paths).
Proof.
  unfold isUpscaleImagesArgs.
  destruct (is_object args); cbn; [| discriminate].
  destruct (Array_isArray (get args "images")) eqn:A; cbn; [| discriminate].
  destruct (all_strings (get args "images")) eqn:S; cbn; [| discriminate].
  intros _. apply all_strings_inv; assumption.
Qed.

(** C5, as the code has it.  Arguments accepted by the upscale_images
    validator have an [images] array whose elements are all strings;
    nothing is required of the length of the array or of its strings. *)
Theorem accepted_upscale_args_have_string_images args :
  isUpscaleImagesArgs args = inr true ->
  exists paths, get args "images" = JArr (map JStr paths).
Proof. exact (isUpscaleImagesArgs_images args). Qed.

Lemma accepted_upscale_args_have_string_images_at_two :
  exists paths,
    get (JObj [("images", JArr [JStr "a.png"; JStr "b.png"])]) "images"
    = JArr (map JStr paths).
Proof.
  apply (accepted_upscale_args_have_string_images
           (JObj [("images", JArr [JStr "a.png"; JStr "b.png"])])).
  reflexivity.
Defined.

(** C5 as stated fails: an empty array is accepted, and so is an array
    holding an empty string. *)
Lemma empty_images_are_accepted :
  isUpscaleImagesArgs (JObj [("images", JArr [])]) = inr true
  /\ isUpscaleImagesArgs (JObj [("images", JArr [JStr ""])]) = inr true.
Proof. split; reflexivity. Qed.

(** ** Range checks *)

Lemma value_of_Z z : (value z 0 == inject_Z z)%Q.
Proof. unfold value. cbn [Qpower]. apply Qmult_1_r. Qed.

Lemma num_lt_of_Z_r m e z :
  num_lt (Fin m e) (of_Z z) = true <-> (value m e < inject_Z z)%Q.
Proof.
  unfold num_lt, of_Z, num_compare. rewrite value_of_Z, Qlt_alt.
  destruct (value m e ?= inject_Z z)%Q; split; congruence.
Qed.

Lemma num_lt_of_Z_l m e z :
  num_lt (of_Z z) (Fin m e) = true <-> (inject_Z z < value m e)%Q.
Proof.
  unfold num_lt, of_Z, num_compare. rewrite value_of_Z, Qlt_alt.
  destruct (inject_Z z ?= value m e)%Q; split; congruence.
Qed.

(** The test [isNaN(n) || n < lo || n > hi] fails exactly on the numbers of
    the closed interval. *)
Lemma range_test_false_iff lo hi n :
  isNaN n || num_lt n (of_Z lo) || num_gt n (of_Z hi) = false
  <-> in_closed_interval lo hi n.
Proof.
  destruct n as [| [|] | m e]; cbn [isNaN in_closed_interval orb].
  - split; [discriminate | contradiction].
  - split; [discriminate | contradiction].
  - split; [discriminate | contradiction].
  - unfold num_gt. split.
    + intros H. apply orb_false_elim in H. destruct H as [L G]. split.
      * apply Qnot_lt_le. intros C. apply num_lt_of_Z_r in C. congruence.
      * apply Qnot_lt_le. intros C. apply num_lt_of_Z_l in C. congruence.
    + intros [L G]. apply orb_false_intro.
      * destruct (num_lt (Fin m e) (of_Z lo)) eqn:E; [| reflexivity].
        apply num_lt_of_Z_r in E. exfalso. exact (Qlt_not_le _ _ E L).
      * destruct (num_lt (of_Z hi) (Fin m e)) eqn:E; [| reflexivity].
        apply num_lt_of_Z_l in E. exfalso. exact (Qlt_not_le _ _ E G).
Qed.

Lemma range_test_true_iff lo hi n :
  isNaN n || num_lt n (of_Z lo) || num_gt n (of_Z hi) = true
  <-> ~ in_closed_interval lo hi n.
Proof.
  rewrite <- range_test_false_iff.
  destruct (isNaN n || num_lt n (of_Z lo) || num_gt n (of_Z hi));
    split; congruence.
Qed.

Lemma is_undefined_false v : v <> JUndefined -> is_undefined v = false.
Proof. destruct v; cbn; congruence. Qed.

Lemma coerces_into_supplied args k lo hi :
  coerces_into args k lo hi -> get args k <> JUndefined.
Proof.
  intros (n & C & I) U. rewrite U in C. cbn in C.
  injection C as <-. exact I.
Qed.

Lemma coerce_in_range_accepts k lo hi v :
  absent v k \/ coerces_into v k lo hi ->
  exists v', coerce_in_range k lo hi v = inr (true, v').
Proof.
  unfold coerce_in_range. intros [A | C].
  - rewrite A. cbn. eauto.
  - rewrite (is_undefined_false _ (coerces_into_supplied _ _ _ _ C)). cbn.
    destruct C as (n & -> & I). cbn.
    apply range_test_false_iff in I. rewrite I. eauto.
Qed.

Lemma coerce_in_range_rejects k lo hi v :
  coerces_outside v k lo hi -> coerce_in_range k lo hi v = inr (false, v).
Proof.
  unfold coerce_in_range. intros (S & n & -> & O).
  rewrite (is_undefined_false _ S). cbn.
  apply range_test_true_iff in O. rewrite O. reflexivity.
Qed.

Lemma coerce_in_range_answers k lo hi v :
  coerces v k -> exists ok v', coerce_in_range k lo hi v = inr (ok, v').
Proof.
  unfold coerce_in_range. intros [A | (n & C)].
  - rewrite A. cbn. eauto.
  - destruct (is_undefined (get v k)); cbn; [eauto |].
    rewrite C. cbn.
    destruct (isNaN n || num_lt n (of_Z lo) || num_gt n (of_Z hi)); eauto.
Qed.

Lemma prompts_pass args :
  well_typed_prompts args ->
  isGenerateImageArgs args
  = and_then (coerce_in_range "steps" 1 150 args) (fun v =>
    and_then (coerce_in_range "batch_size" 1 4 v) (fun v => inr (true, v))).
Proof.
  intros (O & P & N). unfold isGenerateImageArgs. rewrite O, P. cbn.
  destruct N as [N | N].
  - rewrite N. reflexivity.
  - rewrite N. rewrite andb_false_r. reflexivity.
Qed.

(** Whatever the prompts are, a failed range check is a rejection. *)
Lemma rejected_after_prompts args v :
  and_then (coerce_in_range "steps" 1 150 args) (fun v =>
    and_then (coerce_in_range "batch_size" 1 4 v) (fun v => inr (true, v)))
  = inr (false, v) ->
  exists v', isGenerateImageArgs args = inr (false, v').
Proof.
  intros H. unfold isGenerateImageArgs.
  destruct (negb (is_object args)); [eauto |].
  destruct (negb (is_string (get args "prompt"))); [eauto |].
  destruct (negb (is_undefined (get args "negative_prompt"))
            && negb (is_string (get args "negative_prompt"))); [eauto |].
  rewrite H. eauto.
Qed.

(** C7, as amended.  For an arguments object whose [prompt] is a string
    and whose [negative_prompt] is absent or a string: validation succeeds
    when [steps] is absent or coerces into [1,150] and [batch_size] is
    absent or coerces into [1,4].  For any arguments: validation rejects
    when the supplied [steps] coerces to NaN or outside [1,150], and, when
    [Number(steps)] yields a number at all, when the supplied [batch_size]
    coerces to NaN or outside [1,4]. *)
Theorem generate_image_range_checks args :
  (well_typed_prompts args ->
   absent args "steps" \/ coerces_into args "steps" 1 150 ->
   absent args "batch_size" \/ coerces_into args "batch_size" 1 4 ->
   exists args', isGenerateImageArgs args = inr (true, args'))
  /\ (coerces_outside args "steps" 1 150 ->
      exists v, isGenerateImageArgs args = inr (false, v))
  /\ (coerces args "steps" ->
      coerces_outside args "batch_size" 1 4 ->
      exists v, isGenerateImageArgs args = inr (false, v)).
Proof.
  split; [| split].
  - intros W S B. rewrite (prompts_pass _ W).
    destruct (coerce_in_range_accepts "steps" 1 150 args S) as [v1 E1].
    rewrite E1. cbn.
    assert (K : get v1 "batch_size" = get args "batch_size")
      by (apply (coerce_in_range_keeps _ _ _ _ _ E1); discriminate).
    assert (B1 : absent v1 "batch_size" \/ coerces_into v1 "batch_size" 1 4)
      by (unfold absent, coerces_into in *; rewrite K; exact B).
    destruct (coerce_in_range_accepts "batch_size" 1 4 v1 B1) as [v2 E2].
    rewrite E2. cbn. eauto.
  - intros S. apply (rejected_after_prompts args args).
    rewrite (coerce_in_range_rejects _ _ _ _ S). reflexivity.
  - intros S B.
    destruct (coerce_in_range_answers "steps" 1 150 args S) as (ok & v1 & E1).
    destruct ok.
    + apply (rejected_after_prompts args v1). rewrite E1. cbn.
      assert (K : get v1 "batch_size" = get args "batch_size")
        by (apply (coerce_in_range_keeps _ _ _ _ _ E1); discriminate).
      assert (B1 : coerces_outside v1 "batch_size" 1 4)
        by (unfold coerces_outside in *; rewrite K; exact B).
      rewrite (coerce_in_range_rejects _ _ _ _ B1). reflexivity.
    + apply (rejected_after_prompts args v1). rewrite E1. reflexivity.
Qed.

Lemma generate_image_range_checks_at_the_bounds :
  (exists args', isGenerateImageArgs args_in_range = inr (true, args'))
  /\ (exists v, isGenerateImageArgs args_steps_0 = inr (false, v))
  /\ (exists v, isGenerateImageArgs args_steps_151 = inr (false, v))
  /\ (exists v, isGenerateImageArgs args_batch_5 = inr (false, v)).
Proof.
  split; [| split; [| split]].
  - apply (proj1 (generate_image_range_checks args_in_range)).
    + repeat split. left. reflexivity.
    + right. exists (Fin 150 0). split; [reflexivity |].
      cbn. unfold Qle. cbn. lia.
    + right. exists (Fin 1 0). split; [reflexivity |].
      cbn. unfold Qle. cbn. lia.
  - apply (proj1 (proj2 (generate_image_range_checks args_steps_0))).
    split; [discriminate |].
    exists (Fin 0 0). split; [reflexivity |].
    cbn. unfold Qle. cbn. lia.
  - apply (proj1 (proj2 (generate_image_range_checks args_steps_151))).
    split; [discriminate |].
    exists (Fin 151 0). split; [reflexivity |].
    cbn. unfold Qle. cbn. lia.
  - apply (proj2 (proj2 (generate_image_range_checks args_batch_5))).
    + right. exists (Fin 1 0). reflexivity.
    + split; [discriminate |].
      exists (Fin 5 0). split; [reflexivity |].
      cbn. unfold Qle. cbn. lia.
Defined.

(** C7, as it was stated, fails at two inputs.  With [steps] in range
    but no [prompt], validation rejects; with [batch_size] out of range
    and a [steps] that [Number] cannot convert, validation does not
    reject: it throws. *)
Lemma in_range_without_a_prompt_is_rejected :
  (coerces_into args_without_prompt "steps" 1 150
   /\ absent args_without_prompt "batch_size"
   /\ isGenerateImageArgs args_without_prompt = inr (false, args_without_prompt))
  /\ (coerces_outside args_steps_unconvertible "batch_size" 1 4
      /\ isGenerateImageArgs args_steps_unconvertible
         = inl (TypeError not_primitive)).
Proof.
  split; split.
  - exists (Fin 20 0). split; [reflexivity |]. cbn. unfold Qle. cbn. lia.
  - split; reflexivity.
  - split; [discriminate |]. exists (Fin 5 0). split; [reflexivity |].
    cbn. unfold Qle. cbn. lia.
  - reflexivity.
Qed.

(** The coercion is that of the language: a numeric string is rounded to
    binary64 before it is compared, and white space around it is dropped,
    also outside ASCII.  So these [steps] are accepted, as 150, 1 and 20,
    and the first one beyond the rounding is not. *)
Example steps_are_rounded_before_the_test :
  map (fun text =>
         match isGenerateImageArgs
                 (JObj [("prompt", JStr "a cat"); ("steps", JStr text)]) with
         | inr (true, args') => get args' "steps"
         | _ => JUndefined
         end)
    ["150.00000000000000001"; "0.99999999999999999";
     no_break_space ++ "20"; "150.00000000000003"]
  = [JInt 150; JInt 1; JInt 20; JUndefined].
Proof. vm_compute. reflexivity. Qed.

(** ** What a computation adds to the history *)

Section Emits.
Context (Q : Event -> Prop).

Lemma emits_ret {A} (a : A) : emits Q (ret a).
Proof. intros w h. exists []. cbn. rewrite app_nil_r. auto. Qed.

Lemma emits_throw {A} e : emits Q (@throw A e).
Proof. intros w h. exists []. cbn. rewrite app_nil_r. auto. Qed.

Lemma emits_lift {A} (r : Result A) : emits Q (lift r).
Proof. intros w h. exists []. cbn. rewrite app_nil_r. auto. Qed.

Lemma emits_pure_of_world {A} (f : World -> A) : emits Q (pure_of_world f).
Proof. intros w h. exists []. cbn. rewrite app_nil_r. auto. Qed.

Lemma emits_io {A} ev (answer : World -> History -> Result A) :
  Q ev -> emits Q (io ev answer).
Proof. intros H w h. exists [ev]. cbn. auto. Qed.

Lemma emits_bind {A B} (m : M A) (k : A -> M B) :
  emits Q m -> (forall a, emits Q (k a)) -> emits Q (bind m k).
Proof.
  intros Hm Hk w h. unfold bind.
  destruct (Hm w h) as (l1 & E1 & F1).
  destruct (m w h) as [h1 [e | a]]; cbn in E1; subst h1.
  - exists l1. auto.
  - destruct (Hk a w (h ++ l1)%list) as (l2 & E2 & F2).
    exists (l1 ++ l2)%list. rewrite E2, app_assoc. split; [reflexivity |].
    apply Forall_app. auto.
Qed.

(** After a pure step, the continuation knows what the step returned. *)
Lemma emits_bind_lift {A B} (r : Result A) (k : A -> M B) :
  (forall a, r = inr a -> emits Q (k a)) -> emits Q (bind (lift r) k).
Proof.
  intros Hk w h. unfold bind, lift. destruct r as [e | a].
  - exists []. cbn. rewrite app_nil_r. auto.
  - exact (Hk a eq_refl w h).
Qed.

Lemma emits_try_catch {A} (m : M A) (handler : Exn -> M A) :
  emits Q m -> (forall e, emits Q (handler e)) -> emits Q (try_catch m handler).
Proof.
  intros Hm Hh w h. unfold try_catch.
  destruct (Hm w h) as (l1 & E1 & F1).
  destruct (m w h) as [h1 [e | a]]; cbn in E1; subst h1.
  - destruct (Hh e w (h ++ l1)%list) as (l2 & E2 & F2).
    exists (l1 ++ l2)%list. rewrite E2, app_assoc. split; [reflexivity |].
    apply Forall_app. auto.
  - exists l1. auto.
Qed.

Lemma emits_settle {A} (m : M A) : emits Q m -> emits Q (settle m).
Proof.
  intros Hm w h. unfold settle.
  destruct (Hm w h) as (l1 & E1 & F1).
  destruct (m w h) as [h1 r]. exists l1. auto.
Qed.

Lemma emits_start_all {A} (ms : list (M A)) :
  Forall (emits Q) ms -> emits Q (start_all ms).
Proof.
  induction 1 as [| m ms Hm _ IH]; cbn.
  - apply emits_ret.
  - apply emits_bind; [apply emits_settle; exact Hm | intros r].
    apply emits_bind; [exact IH | intros rs]. apply emits_ret.
Qed.

Lemma emits_all_settled {A} (rs : list (Result A)) : emits Q (all_settled rs).
Proof.
  unfold all_settled. destruct (rejections rs); [apply emits_lift |].
  intros w h. exists []. rewrite app_nil_r. auto.
Qed.

Lemma emits_Promise_all {A} (ms : list (M A)) :
  Forall (emits Q) ms -> emits Q (Promise_all ms).
Proof.
  intros H. unfold Promise_all.
  apply emits_bind; [apply emits_start_all; exact H | intros rs].
  apply emits_all_settled.
Qed.

Lemma emits_translate_error {A} e : emits Q (@translate_error A e).
Proof.
  unfold translate_error.
  destruct e as [m | m | c m | [data |] request m | v]; cbn;
    try apply emits_throw.
  apply emits_bind; [apply emits_lift | intros d; apply emits_throw].
Qed.

End Emits.

Ltac emits_steps :=
  repeat first
    [ apply emits_ret
    | apply emits_throw
    | apply emits_lift
    | apply emits_pure_of_world
    | apply emits_translate_error
    | apply emits_io; cbn; first [exact I | discriminate | intros; discriminate | idtac]
    | apply emits_bind; [| intros ?]
    | apply emits_try_catch; [| intros ?] ].

Lemma emits_readFile Q p :
  (forall s, Q (FsReadFile s)) -> emits Q (readFile p).
Proof. intros H. destruct p; cbn; emits_steps; apply H. Qed.

Lemma emits_path_basename Q x : emits Q (path_basename x).
Proof. destruct x; cbn; emits_steps. Qed.

Lemma emits_ensureDirectoryExists Q dirPath :
  Q (FsAccess dirPath) -> Q (FsMkdir dirPath) ->
  emits Q (ensureDirectoryExists dirPath).
Proof.
  intros A K. unfold ensureDirectoryExists, access, mkdir.
  apply emits_try_catch; [| intros e]; apply emits_io; assumption.
Qed.

Lemma emits_upscale_loop Q outputDir inputs images :
  (forall p data, Q (FsWriteFile p data)) ->
  forall i results, emits Q (upscale_loop outputDir inputs i images results).
Proof.
  intros W. induction images as [| imageData rest IH]; intros i results; cbn.
  - apply emits_ret.
  - apply emits_bind; [apply emits_path_basename | intros base].
    unfold Buffer_from_base64, writeFile. emits_steps.
    + apply W.
    + apply IH.
Qed.

(** ** resize_mode *)

Lemma upscale_images_emits cfg args :
  emits (posts_the_upscale_payload cfg args)
    (call_tool cfg (call "upscale_images" args)).
Proof.
  unfold call_tool. apply emits_try_catch; [| intros e; emits_steps].
  unfold dispatch, call. cbn. unfold upscale_images. cbn [request_arguments].
  apply emits_bind_lift. intros ok V. destruct ok; cbn [negb].
  2: { apply emits_throw. }
  apply emits_bind; [apply emits_lift | intros outputDir].
  apply emits_bind; [apply emits_ensureDirectoryExists; exact I | intros _].
  apply emits_bind.
  { apply emits_Promise_all. apply Forall_forall. intros m Hm.
    apply in_map_iff in Hm. destruct Hm as (x & <- & _).
    unfold encode_image, toString_base64.
    apply emits_bind; [apply emits_readFile; intros; exact I | intros data].
    emits_steps. apply emits_path_basename. }
  intros encodedImages.
  apply emits_bind_lift. intros resize_mode R.
  apply emits_bind.
  { unfold post_extra_batch_images. apply emits_io. cbn. intros _. eauto. }
  intros response. destruct (no_images response); [apply emits_throw |].
  apply emits_bind; [| intros results; apply emits_ret].
  apply emits_upscale_loop. intros; exact I.
Qed.

Lemma accepted_resize_mode args :
  isUpscaleImagesArgs args = inr true ->
  get args "resize_mode" = JStr "1"
  \/ get args "resize_mode" = JStr "0"
  \/ absent args "resize_mode".
Proof.
  unfold isUpscaleImagesArgs, absent.
  destruct (negb (is_object args)); [discriminate |].
  destruct (negb (Array_isArray (get args "images"))
            || negb (all_strings (get args "images"))); [discriminate |].
  destruct (get args "resize_mode") as [| | b | n | s | l | ps]; cbn;
    try discriminate; auto.
  destruct (String.eqb_spec s "0") as [-> | _]; [auto |].
  destruct (String.eqb_spec s "1") as [-> | _]; [auto |].
  cbn. discriminate.
Qed.

Lemma other_resize_mode_rejected args :
  get args "resize_mode" <> JUndefined ->
  get args "resize_mode" <> JStr "0" ->
  get args "resize_mode" <> JStr "1" ->
  isUpscaleImagesArgs args = inr false.
Proof.
  intros U Z O. unfold isUpscaleImagesArgs.
  destruct (negb (is_object args)); [reflexivity |].
  destruct (negb (Array_isArray (get args "images"))
            || negb (all_strings (get args "images"))); [reflexivity |].
  destruct (get args "resize_mode") as [| | b | n | s | l | ps]; cbn;
    try reflexivity; try congruence.
  destruct (String.eqb_spec s "0") as [-> | _]; [congruence |].
  destruct (String.eqb_spec s "1") as [-> | _]; [congruence |].
  reflexivity.
Qed.

(** ** The materialisation loop of upscale_images *)

Lemma lift_returns {A} (r : Result A) w h h1 a :
  lift r w h = (h1, inr a) -> h1 = h /\ r = inr a.
Proof. unfold lift. intros H. injection H as <- ->. auto. Qed.

Lemma nth_inputs done remaining :
  nth (List.length done) (map JStr (done ++ remaining)) JUndefined
  = match remaining with p :: _ => JStr p | [] => JUndefined end.
Proof.
  rewrite map_app, app_nth2; rewrite length_map; [| lia].
  rewrite Nat.sub_diag. destruct remaining; reflexivity.
Qed.

Lemma next_input (done : list string) p rem' :
  (done ++ p :: rem' = (done ++ [p]) ++ rem')%list
  /\ S (List.length done) = List.length (done ++ [p])%list.
Proof.
  split.
  - rewrite <- app_assoc. reflexivity.
  - rewrite length_app. cbn. lia.
Qed.

(** When the loop returns, the response had no more images than there were
    inputs left, and each image was written under the name of the input at
    the same index, in order. *)
Lemma upscale_loop_returns outputDir images :
  forall done remaining results w h h' out,
    upscale_loop outputDir (map JStr (done ++ remaining)) (List.length done)
      images results w h = (h', inr out) ->
    (List.length images <= List.length remaining)%nat
    /\ out = (results
              ++ map (artifact outputDir)
                   (firstn (List.length images) remaining))%list.
Proof.
  induction images as [| imageData rest IH];
    intros done remaining results w h h' out H.
  - cbn in H. injection H as _ <-. split; [cbn; lia |].
    cbn. rewrite app_nil_r. reflexivity.
  - cbn [upscale_loop] in H. rewrite nth_inputs in H.
    destruct remaining as [| p rem'].
    + cbn in H. discriminate.
    + apply bind_returns in H. destruct H as (base & h1 & B & H).
      cbn in B. injection B as <- <-.
      apply bind_returns in H. destruct H as (data & h2 & _ & H).
      apply bind_returns in H. destruct H as (u & h3 & _ & H).
      destruct (next_input done p rem') as [E1 E2].
      rewrite E1, E2 in H. apply IH in H. destruct H as [L ->].
      split; [cbn; lia |].
      cbn [List.length firstn map]. rewrite <- app_assoc. reflexivity.
Qed.

(** When the response has more images than there are inputs left and the
    files can be written, the loop reaches an index past the end of the
    input array and [path.basename(undefined)] throws. *)
Lemma upscale_loop_overrun outputDir images :
  forall done remaining results w h,
    (List.length remaining < List.length images)%nat ->
    (forall hist p data, fs_writeFile w hist p data = inr tt) ->
    snd (upscale_loop outputDir (map JStr (done ++ remaining))
           (List.length done) images results w h)
    = inl (invalid_path_argument "undefined").
Proof.
  induction images as [| imageData rest IH];
    intros done remaining results w h L W.
  - cbn in L. lia.
  - cbn [upscale_loop]. rewrite nth_inputs.
    destruct remaining as [| p rem'].
    + reflexivity.
    + cbn [path_basename]. unfold bind at 1. cbn [ret].
      unfold bind at 1. unfold Buffer_from_base64 at 1. cbn [pure_of_world].
      unfold bind at 1. unfold writeFile at 1. cbn [io]. rewrite W.
      destruct (next_input done p rem') as [E1 E2].
      rewrite E1, E2. apply IH; [cbn in L; lia | exact W].
Qed.

(** A successful upscale_images call: the service answered some request
    with a non-empty list of at most as many images as inputs, and the
    result lists one artifact per image. *)
Lemma upscale_images_returns cfg args paths w h h' r :
  get args "images" = JArr (map JStr paths) ->
  call_tool cfg (call "upscale_images" args) w h = (h', inr r) ->
  exists outputDir hist payload images,
    resolve_output_dir cfg args = inr outputDir
    /\ sd_extra_batch_images w hist payload = inr (Some images)
    /\ (0 < List.length images <= List.length paths)%nat
    /\ r = text_result
             (JSON_stringify
                (JArr (map (artifact outputDir)
                         (firstn (List.length images) paths)))).
Proof.
  intros G H. apply call_tool_returns in H.
  change (dispatch cfg (call "upscale_images" args))
    with (upscale_images cfg (call "upscale_images" args)) in H.
  unfold upscale_images in H. cbn [request_arguments call] in H.
  apply bind_returns in H. destruct H as (ok & h1 & V & H).
  apply lift_returns in V. destruct V as [-> V].
  destruct ok; [| discriminate]. cbn [negb] in H.
  apply bind_returns in H. destruct H as (outputDir & h1 & D & H).
  apply lift_returns in D. destruct D as [-> D].
  apply bind_returns in H. destruct H as (u & h2 & _ & H).
  apply bind_returns in H. destruct H as (encodedImages & h3 & _ & H).
  apply bind_returns in H. destruct H as (resize_mode & h4 & R & H).
  apply lift_returns in R. destruct R as [-> _].
  apply bind_returns in H. destruct H as (response & h5 & P & H).
  unfold post_extra_batch_images, io in P. injection P as _ P.
  destruct response as [[| image images] |]; cbn [no_images] in H;
    try discriminate.
  apply bind_returns in H. destruct H as (results & h6 & L & H).
  cbn in H. injection H as _ <-.
  rewrite G in L. cbn [elements images_of] in L.
  apply (upscale_loop_returns outputDir (image :: images) [] paths) in L.
  destruct L as [L ->].
  exists outputDir, h3, (upscale_payload cfg args resize_mode encodedImages),
    (image :: images).
  repeat split; try assumption. cbn. lia.
Qed.

(** *** A call that succeeds *)

Lemma sequence_of_values {A} (l : list A) : sequence (map inr l) = inr l.
Proof.
  induction l as [| a l IH]; cbn; [reflexivity |]. rewrite IH. reflexivity.
Qed.

Lemma all_settled_values {A} (l : list A) w h :
  all_settled (map inr l) w h = (h, inr l).
Proof.
  unfold all_settled.
  assert (R : rejections (map (@inr Exn A) l) = []).
  { induction l as [| a l IH]; [reflexivity | exact IH]. }
  rewrite R. unfold lift. rewrite sequence_of_values. reflexivity.
Qed.

Lemma resolve_output_dir_accepted cfg args :
  isUpscaleImagesArgs args = inr true ->
  exists outputDir, resolve_output_dir cfg args = inr outputDir.
Proof.
  intros V.
  destruct (isUpscaleImagesArgs_checks args V) as (_ & _ & _ & _ & _ & O).
  unfold optional_string in O. unfold resolve_output_dir.
  destruct (get args "output_path"); cbn in *; try discriminate; eauto.
  destruct (negb (String.eqb s "")); cbn; eauto.
Qed.

Lemma resizeModeNum_accepted cfg args :
  isUpscaleImagesArgs args = inr true ->
  exists resize_mode, resizeModeNum cfg args = inr resize_mode.
Proof.
  intros V. unfold resizeModeNum.
  destruct (accepted_resize_mode args V) as [G | [G | G]]; rewrite G; cbn; eauto.
Qed.

Lemma encode_image_run w h p data :
  fs_readFile w h p = inr data ->
  encode_image (JStr p) w h
  = ((h ++ [FsReadFile p])%list,
     inr (JObj [("data", JStr (base64_encode w data));
                ("name", JStr (Path.basename p))])).
Proof.
  intros D.
  unfold encode_image, bind, readFile, io, toString_base64, pure_of_world,
    path_basename, ret.
  rewrite D. reflexivity.
Qed.

(** With readable files, every input is read and encoded. *)
Lemma encode_all_succeeds w paths :
  (forall hist p, exists data, fs_readFile w hist p = inr data) ->
  forall h, exists h' encodedImages,
    Promise_all (map encode_image (map JStr paths)) w h = (h', inr encodedImages).
Proof.
  intros R.
  assert (S : forall h, exists h' encodedImages,
             start_all (map encode_image (map JStr paths)) w h
             = (h', inr (map inr encodedImages))).
  { induction paths as [| p paths IH]; intros h.
    - exists h, []. reflexivity.
    - destruct (R h p) as [data D].
      pose proof (encode_image_run w h p data D) as X.
      destruct (IH (h ++ [FsReadFile p])%list) as (h' & rest & E).
      exists h'.
      exists (JObj [("data", JStr (base64_encode w data));
                    ("name", JStr (Path.basename p))] :: rest).
      cbn [map start_all].
      rewrite (bind_run (settle (encode_image (JStr p))) _ w h
                 (h ++ [FsReadFile p])%list
                 (inr (JObj [("data", JStr (base64_encode w data));
                             ("name", JStr (Path.basename p))])))
        by (unfold settle; rewrite X; reflexivity).
      rewrite (bind_run _ _ _ _ _ _ E). reflexivity. }
  intros h. destruct (S h) as (h' & encodedImages & E).
  exists h', encodedImages. unfold Promise_all.
  rewrite (bind_run _ _ _ _ _ _ E). apply all_settled_values.
Qed.

Lemma encode_image_settles w h p :
  exists r,
    settle (encode_image (JStr p)) w h = ((h ++ [FsReadFile p])%list, inr r)
    /\ ((exists e, fs_readFile w h p = inl e) -> exists e, r = inl e).
Proof.
  unfold settle, encode_image, bind, readFile, io, toString_base64,
    pure_of_world, path_basename, ret.
  destruct (fs_readFile w h p) as [e | data]; eexists; (split; [reflexivity |]).
  - intros _. eauto.
  - intros [e E]. discriminate.
Qed.

(** Every read is issued, in the order of the inputs, whatever the outcome
    of the others; a read that fails leaves a rejection in the list. *)
Lemma start_all_reads w paths :
  forall h, exists rs,
    start_all (map encode_image (map JStr paths)) w h
    = ((h ++ map FsReadFile paths)%list, inr rs)
    /\ forall p,
         In p paths ->
         (forall hist, exists e, fs_readFile w hist p = inl e) ->
         rejections rs <> [].
Proof.
  induction paths as [| p0 paths IH]; intros h.
  - exists []. rewrite app_nil_r. split; [reflexivity |]. intros p [].
  - destruct (encode_image_settles w h p0) as (r & R & F).
    destruct (IH (h ++ [FsReadFile p0])%list) as (rs & E & G).
    exists (r :: rs). split.
    + cbn [map start_all].
      rewrite (bind_run _ _ _ _ _ _ R), (bind_run _ _ _ _ _ _ E).
      cbn. rewrite <- app_assoc. reflexivity.
    + intros p [<- | I] N; cbn [rejections flat_map].
      * destruct (F (N h)) as [e ->]. discriminate.
      * intros C. apply app_eq_nil in C. destruct C as [_ C].
        exact (G p I N C).
Qed.

(** The reads are all issued; when one of them fails, the whole is
    rejected, with whichever rejection came first. *)
Lemma Promise_all_reads w paths h :
  exists r,
    Promise_all (map encode_image (map JStr paths)) w h
    = ((h ++ map FsReadFile paths)%list, r)
    /\ forall p,
         In p paths ->
         (forall hist, exists e, fs_readFile w hist p = inl e) ->
         exists e, r = inl e.
Proof.
  destruct (start_all_reads w paths h) as (rs & E & F).
  unfold Promise_all. rewrite (bind_run _ _ _ _ _ _ E).
  unfold all_settled.
  destruct (rejections rs) as [| e es] eqn:R.
  - eexists. split; [reflexivity |]. intros p I N. destruct (F p I N). reflexivity.
  - eexists. split; [reflexivity |]. intros p I N. eauto.
Qed.

(** With writable files and no more images than inputs left, the loop
    returns one artifact per image. *)
Lemma upscale_loop_succeeds outputDir w images :
  (forall hist p data, fs_writeFile w hist p data = inr tt) ->
  forall done remaining results h,
    (List.length images <= List.length remaining)%nat ->
    exists h',
      upscale_loop outputDir (map JStr (done ++ remaining)) (List.length done)
        images results w h
      = (h', inr (results
                  ++ map (artifact outputDir)
                       (firstn (List.length images) remaining))%list).
Proof.
  intros W. induction images as [| imageData rest IH];
    intros done remaining results h L.
  - exists h. cbn. rewrite app_nil_r. reflexivity.
  - destruct remaining as [| p rem']; [cbn in L; lia |].
    cbn [upscale_loop]. rewrite nth_inputs. cbn [path_basename].
    unfold bind at 1. cbn [ret].
    unfold bind at 1. unfold Buffer_from_base64 at 1. cbn [pure_of_world].
    unfold bind at 1. unfold writeFile at 1. cbn [io]. rewrite W.
    destruct (next_input done p rem') as [E1 E2]. rewrite E1, E2.
    destruct (IH (done ++ [p])%list rem'
                (results ++ [JObj [("path",
                   JStr (Path.join outputDir ("upscaled_" ++ Path.basename p)))]])%list
                (h ++ [FsWriteFile
                         (Path.join outputDir ("upscaled_" ++ Path.basename p))
                         (base64_decode w imageData)])%list) as [h' E].
    { cbn in L. lia. }
    exists h'. rewrite E. cbn [List.length firstn map].
    rewrite <- app_assoc. reflexivity.
Qed.

(** A call with accepted arguments does succeed when the directory exists,
    the files can be read and written, and the service returns between one
    image and as many as there are inputs. *)
Lemma upscale_images_succeeds cfg args paths images w h :
  isUpscaleImagesArgs args = inr true ->
  get args "images" = JArr (map JStr paths) ->
  (forall hist p, fs_access w hist p = inr tt) ->
  (forall hist p, exists data, fs_readFile w hist p = inr data) ->
  (forall hist p data, fs_writeFile w hist p data = inr tt) ->
  (forall hist payload, sd_extra_batch_images w hist payload = inr (Some images)) ->
  (0 < List.length images <= List.length paths)%nat ->
  exists outputDir h',
    resolve_output_dir cfg args = inr outputDir
    /\ call_tool cfg (call "upscale_images" args) w h
       = (h', inr (text_result
                     (JSON_stringify
                        (JArr (map (artifact outputDir)
                                 (firstn (List.length images) paths)))))).
Proof.
  intros V G A R W X L.
  destruct (resolve_output_dir_accepted cfg args V) as [outputDir D].
  destruct (resizeModeNum_accepted cfg args V) as [resize_mode M].
  destruct (encode_all_succeeds w paths R (h ++ [FsAccess outputDir])%list)
    as (h1 & encodedImages & E).
  destruct (upscale_loop_succeeds outputDir w images W [] paths []
              (h1 ++ [HttpPost "/sdapi/v1/extra-batch-images"
                        (upscale_payload cfg args resize_mode encodedImages)
                        None])%list (proj2 L)) as [h' U].
  exists outputDir, h'. split; [exact D |].
  unfold call_tool, try_catch.
  change (dispatch cfg (call "upscale_images" args))
    with (upscale_images cfg (call "upscale_images" args)).
  unfold upscale_images. cbn [request_arguments call].
  unfold bind at 1. unfold lift at 1. rewrite V. cbn [negb].
  unfold bind at 1. unfold lift at 1. rewrite D.
  unfold bind at 1. unfold ensureDirectoryExists, try_catch, access, io.
  rewrite A.
  rewrite G. cbn [elements].
  rewrite (bind_run _ _ _ _ _ _ E).
  unfold bind at 1. unfold lift at 1. rewrite M.
  unfold bind at 1. unfold post_extra_batch_images, io. rewrite X.
  destruct images as [| image images]; [cbn in L; lia |].
  cbn [no_images images_of].
  cbn [List.length app] in U. rewrite (bind_run _ _ _ _ _ _ U).
  reflexivity.
Qed.

(** C9.  A successful upscale_images call on the input paths [paths],
    answered by a service that returns as many images as there are inputs,
    returns the JSON text of the list whose i-th element has the path
    [path.join(outputDir, 'upscaled_' + path.basename(paths[i]))]: one
    artifact per input, in input order. *)
Theorem upscaled_artifacts_follow_the_inputs cfg args paths w h h' r :
  get args "images" = JArr (map JStr paths) ->
  (forall hist payload images,
      sd_extra_batch_images w hist payload = inr (Some images) ->
      List.length images = List.length paths) ->
  call_tool cfg (call "upscale_images" args) w h = (h', inr r) ->
  exists outputDir,
    resolve_output_dir cfg args = inr outputDir
    /\ r = text_result
             (JSON_stringify (JArr (map (artifact outputDir) paths))).
Proof.
  intros G S H.
  destruct (upscale_images_returns cfg args paths w h h' r G H)
    as (outputDir & hist & payload & images & D & P & _ & ->).
  exists outputDir. split; [exact D |].
  rewrite (S _ _ _ P), firstn_all. reflexivity.
Qed.

Lemma two_upscaled_artifacts_follow_the_inputs :
  exists outputDir,
    resolve_output_dir default_config two_inputs = inr outputDir
    /\ two_artifacts
       = text_result
           (JSON_stringify
              (JArr (map (artifact outputDir) ["a.png"; "/tmp/in/b.png"]))).
Proof.
  eapply (upscaled_artifacts_follow_the_inputs default_config two_inputs
            ["a.png"; "/tmp/in/b.png"]
            (world_answering (Some ["AAAA"; "BBBB"])) []).
  - reflexivity.
  - intros hist payload images H. cbn in H. injection H as <-. reflexivity.
  - vm_compute. reflexivity.
Defined.

(** C10.  The loop runs over the images of the response and reads the input
    array at the same index.  A call that succeeds was answered with at most
    as many images as inputs, and its artifacts are named after the inputs
    at the indices of the images.  When the service returns more images than
    inputs, the call fails; in the loop, with writable files, the failure is
    the TypeError of [path.basename(undefined)] at the first index past the
    inputs. *)
Theorem upscale_loop_is_indexed_by_the_response cfg args paths w h :
  get args "images" = JArr (map JStr paths) ->
  (forall h' r,
      call_tool cfg (call "upscale_images" args) w h = (h', inr r) ->
      exists outputDir hist payload images,
        resolve_output_dir cfg args = inr outputDir
        /\ sd_extra_batch_images w hist payload = inr (Some images)
        /\ (0 < List.length images <= List.length paths)%nat
        /\ r = text_result
                 (JSON_stringify
                    (JArr (map (artifact outputDir)
                             (firstn (List.length images) paths)))))
  /\ ((forall hist payload images,
          sd_extra_batch_images w hist payload = inr (Some images) ->
          (List.length paths < List.length images)%nat) ->
      exists e, snd (call_tool cfg (call "upscale_images" args) w h) = inl e)
  /\ (forall outputDir images h0,
         (List.length paths < List.length images)%nat ->
         (forall hist p data, fs_writeFile w hist p data = inr tt) ->
         nth (List.length paths) (map JStr paths) JUndefined = JUndefined
         /\ snd (upscale_loop outputDir (map JStr paths) 0 images [] w h0)
            = inl (invalid_path_argument "undefined")).
Proof.
  intros G. split; [| split].
  - intros h' r H. exact (upscale_images_returns cfg args paths w h h' r G H).
  - intros S.
    destruct (call_tool cfg (call "upscale_images" args) w h) as [h' [e | r]] eqn:H.
    + exists e. reflexivity.
    + destruct (upscale_images_returns cfg args paths w h h' r G H)
        as (outputDir & hist & payload & images & _ & P & L & _).
      specialize (S _ _ _ P). lia.
  - intros outputDir images h0 L W. split.
    + apply nth_overflow. rewrite length_map. lia.
    + exact (upscale_loop_overrun outputDir images [] paths [] w h0 L W).
Qed.

Lemma two_images_for_one_input_fail :
  exists e,
    snd (call_tool default_config (call "upscale_images" one_input)
           (world_answering (Some ["AAAA"; "BBBB"])) [])
    = inl e.
Proof.
  apply (proj1 (proj2 (upscale_loop_is_indexed_by_the_response default_config
                         one_input ["a.png"]
                         (world_answering (Some ["AAAA"; "BBBB"])) []
                         eq_refl))).
  intros hist payload images H. cbn in H. injection H as <-. cbn. lia.
Defined.

(** That run in full: the first image is written, the second one
    finds no input, and the caller gets an internal error. *)
Example two_images_for_one_input_run :
  let run := call_tool default_config (call "upscale_images" one_input)
               (world_answering (Some ["AAAA"; "BBBB"])) [] in
  filter (fun ev => match ev with FsWriteFile _ _ => true | _ => false end)
    (fst run)
  = [FsWriteFile "output/upscaled_a.png" "bytes:AAAA"]
  /\ snd run
     = inl (new_McpError InternalError
              (message_or_unknown (invalid_path_argument "undefined"))).
Proof. vm_compute. split; reflexivity. Qed.

(** ** resize_mode, on its way out *)

(** With accepted arguments, an accessible output directory and readable
    inputs, the upscaling request is sent, right after the reads. *)
Lemma upscale_images_posts cfg args paths outputDir w h :
  isUpscaleImagesArgs args = inr true ->
  get args "images" = JArr (map JStr paths) ->
  resolve_output_dir cfg args = inr outputDir ->
  fs_access w h outputDir = inr tt ->
  (forall hist p, exists data, fs_readFile w hist p = inr data) ->
  exists encodedImages resize_mode l,
    resizeModeNum cfg args = inr resize_mode
    /\ fst (call_tool cfg (call "upscale_images" args) w h)
       = (h ++ FsAccess outputDir :: map FsReadFile paths
            ++ HttpPost extra_batch_images_url
                 (upscale_payload cfg args resize_mode encodedImages) None
            :: l)%list.
Proof.
  intros V Im D Ac Rd.
  destruct (resizeModeNum_accepted cfg args V) as [resize_mode R].
  destruct (Promise_all_reads w paths (h ++ [FsAccess outputDir])%list)
    as (r & E & _).
  destruct (encode_all_succeeds w paths Rd (h ++ [FsAccess outputDir])%list)
    as (h' & encodedImages & E').
  rewrite E in E'. injection E' as _ ->.
  exists encodedImages, resize_mode.
  assert (Rest : forall response,
             emits (fun _ => True)
               (if no_images response then throw (Error "No images upscaled")
                else
                  results <- upscale_loop outputDir (map JStr paths) 0
                               (images_of response) [] ;;
                  ret (text_result (JSON_stringify (JArr results))))).
  { intros response. destruct (no_images response); [apply emits_throw |].
    apply emits_bind; [| intros results; apply emits_ret].
    apply emits_upscale_loop. intros; exact I. }
  assert (Run : exists l result,
             dispatch cfg (call "upscale_images" args) w h
             = ((h ++ FsAccess outputDir :: map FsReadFile paths
                   ++ HttpPost extra_batch_images_url
                        (upscale_payload cfg args resize_mode encodedImages) None
                   :: l)%list, result)).
  { change (dispatch cfg (call "upscale_images" args))
      with (upscale_images cfg (call "upscale_images" args)).
    unfold upscale_images. cbn [request_arguments call].
    rewrite (bind_run _ _ w h h true) by (unfold lift; rewrite V; reflexivity).
    cbn [negb].
    rewrite (bind_run _ _ w h h outputDir) by (unfold lift; rewrite D; reflexivity).
    rewrite (bind_run _ _ w h (h ++ [FsAccess outputDir])%list tt)
      by (unfold ensureDirectoryExists, try_catch, access, io; rewrite Ac;
          reflexivity).
    rewrite Im. cbn [elements].
    rewrite (bind_run _ _ w _ _ _ E).
    rewrite (bind_run _ _ w _ _ resize_mode) by (unfold lift; rewrite R; reflexivity).
    unfold bind at 1. unfold post_extra_batch_images at 1. unfold io.
    match goal with
    | |- context [sd_extra_batch_images w ?hist ?payload] =>
        destruct (sd_extra_batch_images w hist payload) as [e | response]
    end.
    - eexists [], _. rewrite <- !app_assoc. reflexivity.
    - match goal with
      | |- context [?k w ?hist] =>
          destruct (Rest response w hist) as (l & G & _);
          destruct (k w hist) as [h2 result]
      end.
      cbn [fst] in G. subst h2.
      exists l, result. rewrite <- !app_assoc. reflexivity. }
  destruct Run as (l & result & Run). exists l.
  split; [exact R |].
  unfold call_tool, try_catch. rewrite Run.
  destruct result as [e | r]; [| reflexivity].
  match goal with
  | |- context [translate_error e w ?hist] =>
      destruct (translate_error_throws (A := ToolResult) e w hist) as [e' T]
  end.
  rewrite T. reflexivity.
Qed.

(** C8.  Every request an upscale_images call posts to the upscaling
    endpoint carries resize_mode 1 when the input has the string "1", 0 when
    it has "0", and the configured default when the input has none; a call
    with any other resize_mode is rejected by the validator and posts
    nothing.  And the request is posted: with accepted arguments, an
    accessible output directory and readable inputs, the call sends it
    right after reading the inputs, with that resize_mode in its payload. *)
Theorem resize_mode_reaches_the_payload cfg args paths outputDir w h :
  (exists l,
      fst (call_tool cfg (call "upscale_images" args) w h) = (h ++ l)%list
      /\ forall body timeout,
           In (HttpPost extra_batch_images_url body timeout) l ->
           (get args "resize_mode" = JStr "1" /\ get body "resize_mode" = JInt 1)
           \/ (get args "resize_mode" = JStr "0" /\ get body "resize_mode" = JInt 0)
           \/ (absent args "resize_mode"
               /\ get body "resize_mode" = JNum (SD_RESIZE_MODE cfg)))
  /\ (get args "resize_mode" <> JUndefined ->
      get args "resize_mode" <> JStr "0" ->
      get args "resize_mode" <> JStr "1" ->
      isUpscaleImagesArgs args = inr false
      /\ fst (call_tool cfg (call "upscale_images" args) w h) = h)
  /\ (isUpscaleImagesArgs args = inr true ->
      get args "images" = JArr (map JStr paths) ->
      resolve_output_dir cfg args = inr outputDir ->
      fs_access w h outputDir = inr tt ->
      (forall hist p, exists data, fs_readFile w hist p = inr data) ->
      exists encodedImages resize_mode l,
        fst (call_tool cfg (call "upscale_images" args) w h)
        = (h ++ FsAccess outputDir :: map FsReadFile paths
             ++ HttpPost extra_batch_images_url
                  (upscale_payload cfg args resize_mode encodedImages) None
             :: l)%list
        /\ ((get args "resize_mode" = JStr "1" /\ resize_mode = JInt 1)
            \/ (get args "resize_mode" = JStr "0" /\ resize_mode = JInt 0)
            \/ (absent args "resize_mode"
                /\ resize_mode = JNum (SD_RESIZE_MODE cfg)))).
Proof.
  split; [| split].
  - destruct (upscale_images_emits cfg args w h) as (l & E & F).
    exists l. split; [exact E |].
    intros body timeout I.
    rewrite Forall_forall in F. specialize (F _ I eq_refl).
    destruct F as (V & resize_mode & encodedImages & R & ->).
    change (get (upscale_payload cfg args resize_mode encodedImages) "resize_mode")
      with resize_mode.
    unfold resizeModeNum in R.
    destruct (accepted_resize_mode args V) as [G | [G | G]];
      rewrite G in R; cbn in R; injection R as <-; auto.
  - intros U Z O.
    pose proof (other_resize_mode_rejected args U Z O) as V.
    split; [exact V |].
    unfold call_tool, try_catch.
    rewrite (dispatch_rejected cfg "upscale_images" args w h)
      by (cbn; rewrite V; reflexivity).
    reflexivity.
  - intros V Im D Ac Rd.
    destruct (upscale_images_posts cfg args paths outputDir w h V Im D Ac Rd)
      as (encodedImages & resize_mode & l & R & E).
    exists encodedImages, resize_mode, l. split; [exact E |].
    unfold resizeModeNum in R.
    destruct (accepted_resize_mode args V) as [G | [G | G]];
      rewrite G in R; cbn in R; injection R as <-; auto.
Qed.

Lemma resize_mode_one_reaches_the_payload :
  exists encodedImages resize_mode l,
    fst (call_tool default_config
           (call "upscale_images"
              (JObj [("images", JArr [JStr "a.png"]); ("resize_mode", JStr "1")]))
           (world_answering (Some ["AAAA"])) [])
    = ([] ++ FsAccess "./output" :: map FsReadFile ["a.png"]
          ++ HttpPost extra_batch_images_url
               (upscale_payload default_config
                  (JObj [("images", JArr [JStr "a.png"]); ("resize_mode", JStr "1")])
                  resize_mode encodedImages) None
          :: l)%list
    /\ ((get (JObj [("images", JArr [JStr "a.png"]); ("resize_mode", JStr "1")])
           "resize_mode" = JStr "1" /\ resize_mode = JInt 1)
        \/ (get (JObj [("images", JArr [JStr "a.png"]); ("resize_mode", JStr "1")])
              "resize_mode" = JStr "0" /\ resize_mode = JInt 0)
        \/ (absent (JObj [("images", JArr [JStr "a.png"]); ("resize_mode", JStr "1")])
              "resize_mode"
            /\ resize_mode = JNum (SD_RESIZE_MODE default_config))).
Proof.
  apply (proj2 (proj2 (resize_mode_reaches_the_payload default_config
                         (JObj [("images", JArr [JStr "a.png"]);
                                ("resize_mode", JStr "1")])
                         ["a.png"] "./output"
                         (world_answering (Some ["AAAA"])) []))).
  - reflexivity.
  - reflexivity.
  - reflexivity.
  - reflexivity.
  - intros hist p. eexists. reflexivity.
Defined.

(** A run of the above: the string "1" arrives as the number 1. *)
Example resize_mode_one_is_posted :
  map (fun body => get body "resize_mode")
    (posted extra_batch_images_url
       (fst (call_tool default_config
               (call "upscale_images"
                  (JObj [("images", JArr [JStr "a.png"]); ("resize_mode", JStr "1")]))
               (world_answering (Some ["AAAA"])) [])))
  = [JInt 1].
Proof. vm_compute. reflexivity. Qed.

(** ** The detached img2img request of hires_fix_image *)









(** The detached request with its empty rejection handler: the request is
    recorded, and the computation goes on with nothing else, whether the
    request succeeds, fails or times out. *)
Lemma detached_img2img payload timeout w h :
  spawn (catch_ (post_img2img payload timeout) (fun _ => ret tt)) w h
  = ((h ++ [HttpPost "/sdapi/v1/img2img" payload (Some timeout)])%list, inr tt).
Proof.
  unfold spawn, catch_, post_img2img, started, ret.
  destruct (sd_img2img w h payload) as [[e | []] |]; reflexivity.
Qed.







(** A run of the above: the img2img request times out, or is still
    pending, and the call returns its message all the same. *)
Example hires_fix_returns_despite_the_timeout :
  let request := call "hires_fix_image"
                   (JObj [("image_path", JStr "a.png"); ("hr_scale", JInt 2)]) in
  let run := call_tool default_config request (world_answering None) [] in
  let pending := with_img2img (world_answering None) (fun _ _ => None) in
  sd_img2img (world_answering None) [] (JObj [])
  = Some (inl (AxiosError None true "timeout of 1000ms exceeded"))
  /\ snd run
     = inr (text_result
              (JStr "Hires.fix request sent to Stable Diffusion (2x upscale from 512x768 to 1024x1536). The image will be saved to the SD output directory when processing completes. This will take a while on CPU."))
  /\ map (fun body => (get body "width", get body "height"))
       (posted img2img_url (fst run))
     = [(JInt 1024, JInt 1536)]
  /\ call_tool default_config request pending [] = run.
Proof. vm_compute. repeat split. Qed.

(* ===================================================================== *)
(** * Further properties of the handler *)
(* ===================================================================== *)

(** ** Failures as the caller sees them *)

(** String conversion throws nothing but the TypeError of an object that
    cannot be converted. *)
Lemma ToString_throws : forall v e, ToString v = inl e -> e = TypeError not_primitive.
Proof.
  fix IH 1. intros v e. destruct v as [| | b | n | s | l | ps]; cbn;
    try discriminate.
  - assert (L : forall e0,
               sequence
                 (map (fun x => match x with
                                | JUndefined | JNull => inr ""
                                | _ => ToString x
                                end) l) = inl e0 ->
               e0 = TypeError not_primitive).
    { induction l as [| x l IHl]; intros e0; [discriminate |].
      pose proof (IH x) as IHx.
      cbn [map sequence].
      remember (match x with JUndefined | JNull => inr "" | _ => ToString x end)
        as fx eqn:X.
      assert (FX : forall e1, fx = inl e1 -> ToString x = inl e1)
        by (subst fx; destruct x; intros e1 E; try discriminate E; exact E).
      clear X. unfold rbind at 1. destruct fx as [e1 | s1].
      - intros H. injection H as <-. apply IHx, FX. reflexivity.
      - unfold rbind.
        destruct (sequence _) as [e2 | t] eqn:S; [| discriminate].
        intros H. injection H as <-. apply IHl. reflexivity. }
    unfold rbind. destruct (sequence _) as [e1 | parts] eqn:S; [| discriminate].
    intros H. injection H as <-. apply L. reflexivity.
  - destruct (lookup "toString" ps); [| discriminate].
    intros H. injection H as <-. reflexivity.
Qed.

Lemma translate_error_outcome {A} (error : Exn) w h e :
  snd (@translate_error A error w h) = inl e ->
  (exists message, e = McpError InternalError message)
  \/ e = TypeError not_primitive.
Proof.
  destruct error as [m | m | c m | [data |] request m | v]; cbn;
    try (intros H; injection H as <-; left; eexists; reflexivity).
  unfold bind, lift, throw.
  destruct (ToString (or_else (response_error_field data) (JStr m))) as [e1 | d] eqn:T;
    cbn; intros H; injection H as <-.
  - right. exact (ToString_throws _ _ T).
  - left. eexists. reflexivity.
Qed.

(** X1.  Whatever the tool, the arguments and the world, a call that fails
    fails with an McpError of code InternalError; the one exception is the
    TypeError thrown by the catch block itself, when it formats the [error]
    field of a response body that is an object with a [toString] property.
    No failure reaches the caller with another code. *)
Theorem every_failure_is_an_internal_error cfg request w h e :
  snd (call_tool cfg request w h) = inl e ->
  (exists message, e = McpError InternalError message)
  \/ e = TypeError not_primitive.
Proof.
  unfold call_tool, try_catch.
  destruct (dispatch cfg request w h) as [h1 [e1 | r]].
  - apply translate_error_outcome.
  - cbn. discriminate.
Qed.

Lemma an_unknown_tool_is_an_internal_error :
  (exists message,
      McpError InternalError
        "MCP error -32603: MCP error -32601: Unknown tool: frobnicate"
      = McpError InternalError message)
  \/ McpError InternalError
       "MCP error -32603: MCP error -32601: Unknown tool: frobnicate"
     = TypeError not_primitive.
Proof.
  apply (every_failure_is_an_internal_error default_config
           (call "frobnicate" (JObj [])) (world_answering None) []).
  reflexivity.
Defined.

(** X2.  A failed HTTP call is reported by what axios knows of it.  With a
    response: "API error: " followed by the [error] field of the body when
    that is a non-empty string, and by the message of the error when the
    body has no truthy [error].  Without a response: "No response: " when
    the request was sent, "Request error: " otherwise, followed by the
    message. *)
Theorem axios_failures_are_classified cfg request w h h1 message :
  (forall data sent detail,
      dispatch cfg request w h = (h1, inl (AxiosError (Some data) sent message)) ->
      detail <> "" ->
      response_error_field data = JStr detail ->
      call_tool cfg request w h
      = (h1, inl (McpError InternalError
                    ("MCP error -32603: API error: " ++ detail))))
  /\ (forall data sent,
      dispatch cfg request w h = (h1, inl (AxiosError (Some data) sent message)) ->
      ToBoolean (response_error_field data) = false ->
      call_tool cfg request w h
      = (h1, inl (McpError InternalError
                    ("MCP error -32603: API error: " ++ message))))
  /\ (dispatch cfg request w h = (h1, inl (AxiosError None true message)) ->
      call_tool cfg request w h
      = (h1, inl (McpError InternalError
                    ("MCP error -32603: No response: " ++ message))))
  /\ (dispatch cfg request w h = (h1, inl (AxiosError None false message)) ->
      call_tool cfg request w h
      = (h1, inl (McpError InternalError
                    ("MCP error -32603: Request error: " ++ message)))).
Proof.
  unfold call_tool, try_catch.
  split; [| split; [| split]].
  - intros data sent detail D N F. rewrite D. cbn.
    unfold bind, lift, or_else. rewrite F. cbn.
    destruct (String.eqb_spec detail ""); [contradiction |]. reflexivity.
  - intros data sent D F. rewrite D. cbn.
    unfold bind, lift, or_else. rewrite F. reflexivity.
  - intros D. rewrite D. reflexivity.
  - intros D. rewrite D. reflexivity.
Qed.

Lemma a_timeout_is_reported_as_no_response :
  call_tool default_config (call "get_sd_models" JUndefined)
    (world_failing (AxiosError None true "timeout of 300000ms exceeded")) []
  = ([HttpGet "/sdapi/v1/sd-models"],
     inl (McpError InternalError
            "MCP error -32603: No response: timeout of 300000ms exceeded")).
Proof.
  apply (proj1 (proj2 (proj2
           (axios_failures_are_classified default_config
              (call "get_sd_models" JUndefined)
              (world_failing (AxiosError None true "timeout of 300000ms exceeded"))
              [] [HttpGet "/sdapi/v1/sd-models"]
              "timeout of 300000ms exceeded")))).
  reflexivity.
Defined.

(** ** Traces in a given world *)

Lemma emits_anywhere {A} w Q (m : M A) : emits Q m -> emits_in w Q m.
Proof. intros H h. apply H. Qed.

Lemma emits_in_bind {A B} w Q (m : M A) (k : A -> M B) :
  emits_in w Q m ->
  (forall a h h1, m w h = (h1, inr a) -> emits_in w Q (k a)) ->
  emits_in w Q (bind m k).
Proof.
  intros Hm Hk h. unfold bind.
  destruct (Hm h) as (l1 & E1 & F1).
  destruct (m w h) as [h1 [e | a]] eqn:R; cbn in E1; subst h1.
  - exists l1. auto.
  - destruct (Hk a h _ R (h ++ l1)%list) as (l2 & E2 & F2).
    exists (l1 ++ l2)%list. rewrite E2, app_assoc. split; [reflexivity |].
    apply Forall_app. auto.
Qed.

Lemma emits_in_call_tool w Q cfg request :
  emits_in w Q (dispatch cfg request) -> emits_in w Q (call_tool cfg request).
Proof.
  intros H h. unfold call_tool, try_catch.
  destruct (H h) as (l & E & F).
  destruct (dispatch cfg request w h) as [h1 [e | r]]; cbn in E; subst h1.
  - destruct (translate_error_throws (A := ToolResult) e w (h ++ l)%list) as [e' T].
    rewrite T. exists l. auto.
  - exists l. auto.
Qed.

Lemma io_answer {A} ev (answer : World -> History -> Result A) w h h1 a :
  io ev answer w h = (h1, inr a) -> answer w h = inr a.
Proof. unfold io. intros H. injection H as _ H. exact H. Qed.

Lemma history_grows {A} (m : M A) w h h' r :
  emits (fun _ => True) m -> m w h = (h', r) -> exists l, h' = (h ++ l)%list.
Proof.
  intros E R. destruct (E w h) as (l & F & _). rewrite R in F. eauto.
Qed.

(** ** generate_image *)

Lemma emits_generate_loop Q outputDir images :
  (forall body, Q (HttpPost "/sdapi/v1/png-info" body None)) ->
  Q RandomUUID ->
  (forall input description p, Q (SharpToFile input description p)) ->
  forall results, emits Q (generate_loop outputDir images results).
Proof.
  intros P U T. induction images as [| imageData rest IH]; intros results; cbn.
  - apply emits_ret.
  - unfold post_png_info, randomUUID, Buffer_from_base64, toFile.
    apply emits_bind; [apply emits_io; apply P | intros info].
    apply emits_bind; [apply emits_io; exact U | intros uuid].
    apply emits_bind; [apply emits_pure_of_world | intros imageBuffer].
    apply emits_bind; [apply emits_io; apply T | intros _].
    apply IH.
Qed.

Lemma generate_loop_returns outputDir images :
  forall results w h h' out,
    generate_loop outputDir images results w h = (h', inr out) ->
    exists items,
      out = (results ++ items)%list
      /\ Forall2 (written_artifact w outputDir h') images items.
Proof.
  induction images as [| imageData rest IH]; intros results w h h' out H.
  - cbn in H. injection H as _ <-. exists []. rewrite app_nil_r. auto.
  - cbn [generate_loop] in H.
    apply bind_returns in H. destruct H as (info & h1 & P & H).
    unfold post_png_info, io in P. injection P as <- P.
    apply bind_returns in H. destruct H as (uuid & h2 & U & H).
    unfold randomUUID, io in U. injection U as <- <-.
    apply bind_returns in H. destruct H as (imageBuffer & h3 & B & H).
    cbn in B. injection B as <- <-.
    apply bind_returns in H. destruct H as (u & h4 & T & H).
    unfold toFile, io in T. injection T as <- _.
    destruct (history_grows _ _ _ _ _
                (emits_generate_loop (fun _ => True) outputDir rest
                   (fun _ => I) I (fun _ _ _ => I) _) H) as [l G].
    apply IH in H. destruct H as (items & -> & F).
    eexists (_ :: items). split.
    + rewrite <- app_assoc. reflexivity.
    + constructor; [| exact F].
      exists h, l, info. cbn zeta. split; [| split].
      * rewrite G, <- !app_assoc. reflexivity.
      * exact P.
      * reflexivity.
Qed.

(** What a generate_image handler that returns has done. *)
Lemma generate_image_returns cfg args w h h' r :
  generate_image cfg (call "generate_image" args) w h = (h', inr r) ->
  exists args' outputDir hist images items,
    isGenerateImageArgs args = inr (true, args')
    /\ resolve_output_dir cfg args' = inr outputDir
    /\ sd_txt2img w hist (txt2img_payload args') = inr (Some images)
    /\ images <> []
    /\ Forall2 (written_artifact w outputDir h') images items
    /\ r = text_result (JSON_stringify (JArr items)).
Proof.
  intros H.
  unfold generate_image in H. cbn [request_arguments call] in H.
  apply bind_returns in H. destruct H as ([ok args'] & h1 & V & H).
  apply lift_returns in V. destruct V as [-> V].
  destruct ok; [| discriminate]. cbn [negb] in H.
  apply bind_returns in H. destruct H as (outputDir & h1 & D & H).
  apply lift_returns in D. destruct D as [-> D].
  apply bind_returns in H. destruct H as (u & h2 & _ & H).
  apply bind_returns in H. destruct H as (response & h3 & P & H).
  apply io_answer in P.
  destruct response as [[| image images] |]; cbn [no_images] in H;
    try discriminate.
  apply bind_returns in H. destruct H as (results & h4 & L & H).
  cbn in H. injection H as <- <-.
  apply generate_loop_returns in L. destruct L as (items & -> & F).
  exists args', outputDir, h2, (image :: images), items.
  repeat split; try assumption. discriminate.
Qed.

(** X3.  A generate_image call that returns was accepted by the validator
    and answered by the service with at least one image, and its result is
    the JSON text of one artifact per image, in order: each the path
    [sd_<uuid>.png] in the output directory of a file sharp wrote from that
    image (the part after a [data:] prefix, decoded), with the png-info
    text both embedded as its description and returned as [parameters]. *)
Theorem generate_image_returns_written_files cfg args w h h' r :
  call_tool cfg (call "generate_image" args) w h = (h', inr r) ->
  exists args' outputDir hist images items,
    isGenerateImageArgs args = inr (true, args')
    /\ resolve_output_dir cfg args' = inr outputDir
    /\ sd_txt2img w hist (txt2img_payload args') = inr (Some images)
    /\ images <> []
    /\ Forall2 (written_artifact w outputDir h') images items
    /\ r = text_result (JSON_stringify (JArr items)).
Proof.
  intros H. apply call_tool_returns in H.
  exact (generate_image_returns cfg args w h h' r H).
Qed.

Lemma one_image_gives_one_written_file :
  exists args' outputDir hist images items,
    isGenerateImageArgs (JObj [("prompt", JStr "a cat")]) = inr (true, args')
    /\ resolve_output_dir default_config args' = inr outputDir
    /\ sd_txt2img (world_answering (Some ["data:image/png;base64,AAAA"])) hist
         (txt2img_payload args') = inr (Some images)
    /\ images <> []
    /\ Forall2 (written_artifact
                  (world_answering (Some ["data:image/png;base64,AAAA"]))
                  outputDir (fst one_image_run)) images items
    /\ one_image_result = text_result (JSON_stringify (JArr items)).
Proof.
  apply (generate_image_returns_written_files default_config
           (JObj [("prompt", JStr "a cat")])
           (world_answering (Some ["data:image/png;base64,AAAA"])) []
           (fst one_image_run) one_image_result).
  vm_compute. reflexivity.
Defined.

(** ** Responses without images *)

Lemma emits_in_ensureDirectoryExists w Q dirPath :
  Q (FsAccess dirPath) -> Q (FsMkdir dirPath) ->
  emits_in w Q (ensureDirectoryExists dirPath).
Proof. intros A K. apply emits_anywhere, emits_ensureDirectoryExists; assumption. Qed.

Lemma generate_image_writes_nothing cfg args w :
  (forall hist payload images,
      sd_txt2img w hist payload = inr images -> no_images images = true) ->
  emits_in w writes_nothing (call_tool cfg (call "generate_image" args)).
Proof.
  intros N. apply emits_in_call_tool.
  change (dispatch cfg (call "generate_image" args))
    with (generate_image cfg (call "generate_image" args)).
  unfold generate_image. cbn [request_arguments call].
  apply emits_in_bind; [apply emits_anywhere, emits_lift |].
  intros [ok args'] h h1 _. destruct ok; cbn [negb].
  2: { apply emits_anywhere, emits_throw. }
  apply emits_in_bind; [apply emits_anywhere, emits_lift | intros outputDir h2 h3 _].
  apply emits_in_bind; [apply emits_in_ensureDirectoryExists; exact I |].
  intros _ h4 h5 _.
  apply emits_in_bind.
  { apply emits_anywhere. unfold post_txt2img. apply emits_io. exact I. }
  intros response h6 h7 P. apply io_answer in P.
  rewrite (N _ _ _ P). apply emits_anywhere, emits_throw.
Qed.

(** X4.  When the service answers txt2img requests without images (none,
    or an empty list), a generate_image call fails and no file is written;
    with accepted arguments and an existing output directory the history is
    the directory check and the request, and the caller is told
    "No images generated". *)
Theorem generate_image_without_images cfg args w h :
  (forall hist payload images,
      sd_txt2img w hist payload = inr images -> no_images images = true) ->
  (exists e l,
      call_tool cfg (call "generate_image" args) w h = ((h ++ l)%list, inl e)
      /\ Forall writes_nothing l)
  /\ (forall args' outputDir images,
         isGenerateImageArgs args = inr (true, args') ->
         resolve_output_dir cfg args' = inr outputDir ->
         fs_access w h outputDir = inr tt ->
         sd_txt2img w (h ++ [FsAccess outputDir])%list (txt2img_payload args')
         = inr images ->
         call_tool cfg (call "generate_image" args) w h
         = ((h ++ [FsAccess outputDir;
                   HttpPost "/sdapi/v1/txt2img" (txt2img_payload args') None])%list,
            inl (McpError InternalError "MCP error -32603: No images generated"))).
Proof.
  intros N. split.
  - destruct (generate_image_writes_nothing cfg args w N h) as (l & E & F).
    destruct (call_tool cfg (call "generate_image" args) w h) as [h' [e | r]] eqn:R.
    + exists e, l. cbn in E. subst h'. auto.
    + apply call_tool_returns in R.
      destruct (generate_image_returns cfg args w h h' r R)
        as (args' & outputDir & hist & images & items & _ & _ & P & NE & _).
      apply N in P. destruct images; [contradiction | discriminate].
  - intros args' outputDir images V D A P.
    pose proof (N _ _ _ P) as E.
    unfold call_tool, try_catch.
    change (dispatch cfg (call "generate_image" args))
      with (generate_image cfg (call "generate_image" args)).
    unfold generate_image. cbn [request_arguments call].
    unfold bind at 1. unfold lift at 1. rewrite V. cbn [negb].
    unfold bind at 1. unfold lift at 1. rewrite D.
    unfold bind at 1. unfold ensureDirectoryExists, try_catch, access, io.
    rewrite A.
    unfold bind at 1. unfold post_txt2img, io. rewrite P, E.
    cbn. rewrite <- app_assoc. reflexivity.
Qed.

Lemma generate_image_without_images_at_none :
  exists e l,
    call_tool default_config (call "generate_image" (JObj [("prompt", JStr "a cat")]))
      (world_answering None) []
    = (([] ++ l)%list, inl e)
    /\ Forall writes_nothing l.
Proof.
  apply (generate_image_without_images default_config
           (JObj [("prompt", JStr "a cat")]) (world_answering None) []).
  intros hist payload images H. cbn in H. injection H as <-. reflexivity.
Defined.

Lemma upscale_images_writes_nothing cfg args w :
  (forall hist payload images,
      sd_extra_batch_images w hist payload = inr images -> no_images images = true) ->
  emits_in w writes_nothing (call_tool cfg (call "upscale_images" args)).
Proof.
  intros N. apply emits_in_call_tool.
  change (dispatch cfg (call "upscale_images" args))
    with (upscale_images cfg (call "upscale_images" args)).
  unfold upscale_images. cbn [request_arguments call].
  apply emits_in_bind; [apply emits_anywhere, emits_lift |].
  intros ok h h1 _. destruct ok; cbn [negb].
  2: { apply emits_anywhere, emits_throw. }
  apply emits_in_bind; [apply emits_anywhere, emits_lift | intros outputDir h2 h3 _].
  apply emits_in_bind; [apply emits_in_ensureDirectoryExists; exact I |].
  intros _ h4 h5 _.
  apply emits_in_bind.
  { apply emits_anywhere, emits_Promise_all. apply Forall_forall. intros m Hm.
    apply in_map_iff in Hm. destruct Hm as (x & <- & _).
    unfold encode_image, toString_base64.
    apply emits_bind; [apply emits_readFile; intros; exact I | intros data].
    emits_steps. apply emits_path_basename. }
  intros encodedImages h6 h7 _.
  apply emits_in_bind; [apply emits_anywhere, emits_lift | intros resize_mode h8 h9 _].
  apply emits_in_bind.
  { apply emits_anywhere. unfold post_extra_batch_images. apply emits_io. exact I. }
  intros response h10 h11 P. apply io_answer in P.
  rewrite (N _ _ _ P). apply emits_anywhere, emits_throw.
Qed.

(** X5.  When the service answers upscaling requests without images, an
    upscale_images call fails and no file is written; with accepted
    arguments, an existing output directory and readable inputs, the caller
    is told "No images upscaled". *)
Theorem upscale_images_without_images cfg args w h :
  (forall hist payload images,
      sd_extra_batch_images w hist payload = inr images -> no_images images = true) ->
  (exists e l,
      call_tool cfg (call "upscale_images" args) w h = ((h ++ l)%list, inl e)
      /\ Forall writes_nothing l)
  /\ (isUpscaleImagesArgs args = inr true ->
      (forall hist p, fs_access w hist p = inr tt) ->
      (forall hist p, exists data, fs_readFile w hist p = inr data) ->
      (forall hist payload, exists images,
          sd_extra_batch_images w hist payload = inr images) ->
      snd (call_tool cfg (call "upscale_images" args) w h)
      = inl (McpError InternalError "MCP error -32603: No images upscaled")).
Proof.
  intros N. split.
  - destruct (upscale_images_writes_nothing cfg args w N h) as (l & E & F).
    destruct (call_tool cfg (call "upscale_images" args) w h) as [h' [e | r]] eqn:R.
    + exists e, l. cbn in E. subst h'. auto.
    + assert (V : isUpscaleImagesArgs args = inr true).
      { apply call_tool_returns in R.
        change (dispatch cfg (call "upscale_images" args))
          with (upscale_images cfg (call "upscale_images" args)) in R.
        unfold upscale_images in R. cbn [request_arguments call] in R.
        apply bind_returns in R. destruct R as (ok & h1 & V & R).
        apply lift_returns in V. destruct V as [-> V].
        destruct ok; [exact V | discriminate]. }
      destruct (isUpscaleImagesArgs_images args V) as [paths G].
      destruct (upscale_images_returns cfg args paths w h h' r G R)
        as (outputDir & hist & payload & images & _ & P & L & _).
      apply N in P. destruct images; [cbn in L; lia | discriminate].
  - intros V A R X.
    destruct (isUpscaleImagesArgs_images args V) as [paths G].
    destruct (resolve_output_dir_accepted cfg args V) as [outputDir D].
    destruct (resizeModeNum_accepted cfg args V) as [resize_mode M].
    destruct (encode_all_succeeds w paths R (h ++ [FsAccess outputDir])%list)
      as (h1 & encodedImages & E).
    destruct (X h1 (upscale_payload cfg args resize_mode encodedImages))
      as [images P].
    pose proof (N _ _ _ P) as Z.
    unfold call_tool, try_catch.
    change (dispatch cfg (call "upscale_images" args))
      with (upscale_images cfg (call "upscale_images" args)).
    unfold upscale_images. cbn [request_arguments call].
    unfold bind at 1. unfold lift at 1. rewrite V. cbn [negb].
    unfold bind at 1. unfold lift at 1. rewrite D.
    unfold bind at 1. unfold ensureDirectoryExists, try_catch, access, io.
    rewrite A. rewrite G. cbn [elements].
    rewrite (bind_run _ _ _ _ _ _ E).
    unfold bind at 1. unfold lift at 1. rewrite M.
    unfold bind at 1. unfold post_extra_batch_images, io. rewrite P, Z.
    reflexivity.
Qed.

Lemma upscale_images_without_images_at_none :
  exists e l,
    call_tool default_config (call "upscale_images" one_input)
      (world_answering None) []
    = (([] ++ l)%list, inl e)
    /\ Forall writes_nothing l.
Proof.
  apply (upscale_images_without_images default_config one_input
           (world_answering None) []).
  intros hist payload images H. cbn in H. injection H as <-. reflexivity.
Defined.

(** ** hires_fix_image without its source image *)

Lemma call_tool_throws cfg request w h h1 e :
  dispatch cfg request w h = (h1, inl e) ->
  exists e', call_tool cfg request w h = (h1, inl e').
Proof.
  intros D. unfold call_tool, try_catch. rewrite D.
  apply translate_error_throws.
Qed.

(** X6.  When the source image cannot be read, or sharp cannot give its
    metadata, a hires_fix_image call fails without sending any request:
    neither the png-info lookup nor the img2img request is dispatched. *)
Theorem hires_fix_without_the_image_sends_nothing cfg args w h :
  (forall hist p, exists e, fs_readFile w hist p = inl e)
  \/ (forall hist input, exists e, sharp_metadata w hist input = inl e) ->
  exists e l,
    call_tool cfg (call "hires_fix_image" args) w h = ((h ++ l)%list, inl e)
    /\ Forall sends_nothing l.
Proof.
  intros F.
  assert (D : exists e l,
             dispatch cfg (call "hires_fix_image" args) w h = ((h ++ l)%list, inl e)
             /\ Forall sends_nothing l).
  { change (dispatch cfg (call "hires_fix_image" args))
      with (hires_fix_image (call "hires_fix_image" args)).
    unfold hires_fix_image. cbn [request_arguments call].
    unfold bind at 1. unfold lift at 1.
    destruct (isHiresFixImageArgs args) as [e | ok].
    { exists e, []. rewrite app_nil_r. auto. }
    destruct ok; cbn [negb].
    2: { eexists _, []. rewrite app_nil_r. split; [reflexivity | constructor]. }
    unfold bind at 1.
    destruct (get args "image_path") as [| | b | n | p | l | ps];
      try (eexists _, []; rewrite app_nil_r; split; [reflexivity | constructor]).
    unfold readFile, io.
    destruct (fs_readFile w h p) as [e | imageData] eqn:R.
    { exists e, [FsReadFile p]. split; [reflexivity |]. repeat constructor. }
    destruct F as [F | F].
    { destruct (F h p) as [e E]. congruence. }
    unfold bind at 1. unfold toString_base64 at 1. cbn [pure_of_world].
    unfold bind at 1. unfold metadata_of at 1. unfold io.
    destruct (F (h ++ [FsReadFile p])%list imageData) as [e E]. rewrite E.
    exists e, [FsReadFile p; SharpMetadata imageData]. split.
    - rewrite <- app_assoc. reflexivity.
    - repeat constructor. }
  destruct D as (e & l & D & S).
  destruct (call_tool_throws _ _ _ _ _ _ D) as [e' C].
  exists e', l. auto.
Qed.

Lemma hires_fix_without_the_image_at_example :
  exists e l,
    call_tool default_config
      (call "hires_fix_image" (JObj [("image_path", JStr "missing.png")]))
      world_without_files []
    = (([] ++ l)%list, inl e)
    /\ Forall sends_nothing l.
Proof.
  apply hires_fix_without_the_image_sends_nothing.
  left. intros hist p. eexists. reflexivity.
Defined.

(** ** Strings the handler takes apart *)

Lemma after_comma_none s : contains "," s = false -> after_comma s = None.
Proof.
  induction s as [| a r IH]; cbn; [reflexivity |].
  destruct (Ascii.eqb a ","); cbn; [discriminate | exact IH].
Qed.

Lemma after_comma_first prefix r :
  contains "," prefix = false -> after_comma (prefix ++ String "," r) = Some r.
Proof.
  induction prefix as [| a p IH]; cbn; [reflexivity |].
  destruct (Ascii.eqb a ","); cbn; [discriminate | exact IH].
Qed.

Lemma before_comma_all s : contains "," s = false -> before_comma s = s.
Proof.
  induction s as [| a r IH]; cbn; [reflexivity |].
  destruct (Ascii.eqb a ","); cbn; [discriminate |].
  intros H. rewrite (IH H). reflexivity.
Qed.

Lemma before_comma_first payload r :
  contains "," payload = false -> before_comma (payload ++ String "," r) = payload.
Proof.
  induction payload as [| a p IH]; cbn; [reflexivity |].
  destruct (Ascii.eqb a ","); cbn; [discriminate |].
  intros H. rewrite (IH H). reflexivity.
Qed.

(** X7.  What generate_image decodes of a returned image: the image itself
    when it has no comma; the part after the comma when it is a data URI
    [<prefix>,<payload>]; and, when more commas follow, only the part
    between the first and the second. *)
Theorem strip_data_uri_keeps_the_payload :
  (forall imageData,
      contains "," imageData = false -> strip_data_uri imageData = imageData)
  /\ (forall prefix payload,
      contains "," prefix = false -> contains "," payload = false ->
      strip_data_uri (prefix ++ "," ++ payload) = payload)
  /\ (forall prefix payload rest,
      contains "," prefix = false -> contains "," payload = false ->
      strip_data_uri (prefix ++ "," ++ payload ++ "," ++ rest) = payload).
Proof.
  unfold strip_data_uri. split; [| split].
  - intros imageData N. rewrite (after_comma_none _ N). reflexivity.
  - intros prefix payload P Q.
    change ("," ++ payload) with (String "," payload).
    rewrite (after_comma_first _ _ P). apply before_comma_all, Q.
  - intros prefix payload rest P Q.
    change ("," ++ payload ++ "," ++ rest)
      with (String "," (payload ++ String "," rest)).
    rewrite (after_comma_first _ _ P). apply before_comma_first, Q.
Qed.

Lemma take_of_append a b : string_take (String.length a) (a ++ b) = a.
Proof.
  unfold string_take. induction a as [| c a IH]; cbn.
  - destruct b; reflexivity.
  - rewrite IH. reflexivity.
Qed.

Lemma lazy_group_some rest :
  forall n k,
    lazy_group n rest = Some k ->
    exists a b,
      rest = a ++ b /\ k = (n + String.length a)%nat /\ at_marker b = true
      /\ forall a' b',
           rest = a' ++ b' -> (String.length a' < String.length a)%nat ->
           at_marker b' = false.
Proof.
  induction rest as [| c rest IH]; intros n k H.
  - cbn [lazy_group] in H. destruct (at_marker "") eqn:M; [| discriminate].
    injection H as <-. exists "", "". cbn. repeat split; auto.
    intros a' b' _ L. lia.
  - cbn [lazy_group] in H. destruct (at_marker (String c rest)) eqn:M.
    + injection H as <-. exists "", (String c rest). cbn. repeat split; auto.
      intros a' b' _ L. lia.
    + apply IH in H. destruct H as (a & b & -> & -> & B & Min).
      exists (String c a), b. cbn. repeat split; auto.
      intros a' b' E L. destruct a' as [| c' a'].
      * cbn in E. subst b'. exact M.
      * cbn in E. injection E as _ E. apply (Min a' b' E). cbn in L. lia.
Qed.

Lemma lazy_group_none rest :
  forall n, lazy_group n rest = None ->
            forall a b, rest = a ++ b -> at_marker b = false.
Proof.
  induction rest as [| c rest IH]; intros n H a b E.
  - cbn [lazy_group] in H. destruct (at_marker "") eqn:M; [discriminate |].
    destruct a; [| discriminate]. cbn in E. subst b. exact M.
  - cbn [lazy_group] in H. destruct (at_marker (String c rest)) eqn:M;
      [discriminate |].
    destruct a as [| c' a].
    + cbn in E. subst b. exact M.
    + cbn in E. injection E as _ E. exact (IH _ H a b E).
Qed.

(** X8.  The prompt recovered from the png-info text is its shortest
    non-empty beginning that is followed by a line break and
    "Negative prompt:", or by "Steps:"; there is none exactly when no such
    marker follows a non-empty beginning (a marker at the very start of the
    text does not count). *)
Theorem match_prompt_is_the_shortest_beginning infoText :
  (forall group,
      match_prompt infoText = Some group ->
      group <> ""
      /\ exists rest,
           infoText = group ++ rest /\ at_marker rest = true
           /\ forall g r,
                infoText = g ++ r -> g <> "" ->
                (String.length g < String.length group)%nat ->
                at_marker r = false)
  /\ (match_prompt infoText = None ->
      forall g r, infoText = g ++ r -> g <> "" -> at_marker r = false).
Proof.
  unfold match_prompt. destruct infoText as [| c rest].
  - split; [discriminate |]. intros _ g r E N.
    destruct g; [contradiction | discriminate].
  - destruct (lazy_group 1 rest) as [k |] eqn:L.
    + split; [| discriminate]. intros group H. injection H as <-.
      apply lazy_group_some in L. destruct L as (a & b & -> & -> & B & Min).
      change (String c (a ++ b)) with (String c a ++ b).
      change (1 + String.length a)%nat with (String.length (String c a)).
      rewrite take_of_append. split; [discriminate |].
      exists b. repeat split; auto.
      intros g r E N Lt. destruct g as [| c' g]; [contradiction |].
      cbn in E. injection E as _ E. apply (Min g r E). cbn in Lt. lia.
    + split; [discriminate |]. intros _ g r E N.
      destruct g as [| c' g]; [contradiction |].
      cbn in E. injection E as _ E. exact (lazy_group_none _ _ L g r E).
Qed.

(** ** The validators, characterised *)

Lemma and_then_unit_iff (step : Result (bool * unit)) k :
  and_then step k = inr (true, tt)
  <-> step = inr (true, tt) /\ k tt = inr (true, tt).
Proof.
  unfold and_then, rbind. destruct step as [e | [[|] []]]; split.
  - discriminate.
  - intros [H _]. discriminate.
  - auto.
  - intros [_ H]. exact H.
  - discriminate.
  - intros [H _]. discriminate.
Qed.

Lemma verdict_iff (r : Result (bool * unit)) :
  rbind r (fun x => inr (fst x)) = inr true <-> r = inr (true, tt).
Proof.
  unfold rbind. destruct r as [e | [[|] []]]; cbn; split; congruence.
Qed.

Lemma supplied_or_absent v : is_undefined v = true <-> v = JUndefined.
Proof. destruct v; cbn; split; congruence. Qed.

Lemma check_in_range_iff k lo hi v :
  check_in_range k lo hi v = inr (true, tt)
  <-> absent v k \/ coerces_into v k lo hi.
Proof.
  unfold check_in_range, absent, coerces_into, rbind.
  destruct (is_undefined (get v k)) eqn:U; cbn.
  - apply supplied_or_absent in U. split; auto.
  - assert (N : get v k <> JUndefined)
      by (intros C; apply supplied_or_absent in C; congruence).
    destruct (ToNumber (get v k)) as [e | n].
    + split; [discriminate |]. intros [A | (n & C & _)]; [contradiction | discriminate].
    + destruct (isNaN n || num_lt n (of_Z lo) || num_gt n (of_Z hi)) eqn:T.
      * apply range_test_true_iff in T. split; [discriminate |].
        intros [A | (n' & C & I)]; [contradiction |].
        injection C as <-. contradiction.
      * apply range_test_false_iff in T. split; [| reflexivity].
        intros _. right. eauto.
Qed.

Lemma at_least_test lo n :
  isNaN n || num_lt n (of_Z lo) = false <-> at_least lo n.
Proof.
  destruct n as [| [|] | m e]; cbn [isNaN at_least orb].
  - split; [discriminate | contradiction].
  - split; [discriminate | discriminate].
  - split; reflexivity.
  - split.
    + intros L. apply Qnot_lt_le. intros C. apply num_lt_of_Z_r in C. congruence.
    + intros L. destruct (num_lt (Fin m e) (of_Z lo)) eqn:E; [| reflexivity].
      apply num_lt_of_Z_r in E. exfalso. exact (Qlt_not_le _ _ E L).
Qed.

Lemma check_at_least_iff k lo v :
  check_at_least k lo v = inr (true, tt)
  <-> absent v k \/ coerces_at_least v k lo.
Proof.
  unfold check_at_least, absent, coerces_at_least, rbind.
  destruct (is_undefined (get v k)) eqn:U; cbn.
  - apply supplied_or_absent in U. split; auto.
  - assert (N : get v k <> JUndefined)
      by (intros C; apply supplied_or_absent in C; congruence).
    destruct (ToNumber (get v k)) as [e | n].
    + split; [discriminate |]. intros [A | (n & C & _)]; [contradiction | discriminate].
    + destruct (isNaN n || num_lt n (of_Z lo)) eqn:T.
      * split; [discriminate |].
        intros [A | (n' & C & I)]; [contradiction |].
        injection C as <-. apply at_least_test in I. congruence.
      * apply at_least_test in T. split; [| reflexivity].
        intros _. right. eauto.
Qed.

Lemma optional_string_iff k v :
  optional_string k v = inr (true, tt) <-> optional_string_field v k.
Proof.
  unfold optional_string, optional_string_field, absent.
  destruct (get v k); cbn; split; try congruence; auto;
    intros [A | A]; discriminate.
Qed.

Lemma isHiresFixImageArgs_accepts_only args :
  isHiresFixImageArgs args = inr true ->
  is_string (get args "image_path") = true
  /\ (absent args "hr_scale" \/ coerces_into args "hr_scale" 1 4)
  /\ (absent args "denoising_strength"
      \/ coerces_into args "denoising_strength" 0 1)
  /\ (absent args "steps" \/ coerces_into args "steps" 1 150).
Proof.
  unfold isHiresFixImageArgs.
  destruct (is_object args); cbn [negb]; [| discriminate].
  destruct (is_string (get args "image_path")); cbn [negb]; [| discriminate].
  rewrite verdict_iff, !and_then_unit_iff, !check_in_range_iff.
  tauto.
Qed.

(** X9.  The hires_fix_image validator accepts exactly the objects whose
    [image_path] is a string and in which [hr_scale] is absent or coerces
    into [1,4], [hr_upscaler] is absent or a string, [denoising_strength] is
    absent or coerces into [0,1], and [steps] is absent or coerces into
    [1,150]. *)
Theorem isHiresFixImageArgs_accepts_exactly args :
  isHiresFixImageArgs args = inr true
  <-> is_object args = true
      /\ is_string (get args "image_path") = true
      /\ (absent args "hr_scale" \/ coerces_into args "hr_scale" 1 4)
      /\ optional_string_field args "hr_upscaler"
      /\ (absent args "denoising_strength"
          \/ coerces_into args "denoising_strength" 0 1)
      /\ (absent args "steps" \/ coerces_into args "steps" 1 150).
Proof.
  unfold isHiresFixImageArgs.
  destruct (is_object args); cbn [negb].
  2: { split; [discriminate | intros [H _]; discriminate]. }
  destruct (is_string (get args "image_path")); cbn [negb].
  2: { split; [discriminate | intros (_ & H & _); discriminate]. }
  rewrite verdict_iff.
  rewrite !and_then_unit_iff.
  rewrite !check_in_range_iff, optional_string_iff.
  tauto.
Qed.

Lemma all_strings_of_paths paths : all_strings (JArr (map JStr paths)) = true.
Proof. cbn. induction paths as [| p paths IH]; cbn; auto. Qed.

Lemma resize_mode_test v :
  negb (is_undefined v)
  && (negb (is_string v)
      || negb match v with
              | JStr s => existsb (String.eqb s) ["0"; "1"]
              | _ => false
              end) = false
  <-> v = JUndefined \/ v = JStr "0" \/ v = JStr "1".
Proof.
  destruct v as [| | b | n | s | l | ps]; cbn; split; try congruence; auto;
    try (intros [H | [H | H]]; discriminate).
  - destruct (String.eqb_spec s "0") as [-> | N0]; [auto |].
    destruct (String.eqb_spec s "1") as [-> | N1]; [auto |].
    cbn. discriminate.
  - intros [H | [H | H]]; try discriminate; injection H as ->; reflexivity.
Qed.

(** X10.  The upscale_images validator accepts exactly the objects whose
    [images] is an array of strings (of any length) and in which
    [resize_mode] is absent or one of the strings "0" and "1", each of
    [upscaling_resize], [upscaling_resize_w], [upscaling_resize_h] is absent
    or coerces to a number not below 1 (+Infinity included: there is no
    upper bound), and each of [upscaler_1], [upscaler_2], [output_path] is
    absent or a string. *)
Theorem isUpscaleImagesArgs_accepts_exactly args :
  isUpscaleImagesArgs args = inr true
  <-> is_object args = true
      /\ (exists paths, get args "images" = JArr (map JStr paths))
      /\ (absent args "resize_mode"
          \/ get args "resize_mode" = JStr "0"
          \/ get args "resize_mode" = JStr "1")
      /\ (absent args "upscaling_resize" \/ coerces_at_least args "upscaling_resize" 1)
      /\ (absent args "upscaling_resize_w" \/ coerces_at_least args "upscaling_resize_w" 1)
      /\ (absent args "upscaling_resize_h" \/ coerces_at_least args "upscaling_resize_h" 1)
      /\ optional_string_field args "upscaler_1"
      /\ optional_string_field args "upscaler_2"
      /\ optional_string_field args "output_path".
Proof.
  unfold isUpscaleImagesArgs.
  destruct (is_object args); cbn [negb].
  2: { split; [discriminate | intros [H _]; discriminate]. }
  destruct (Array_isArray (get args "images")) eqn:A; cbn [negb orb].
  2: { split; [discriminate |]. intros (_ & [paths G] & _).
       rewrite G in A. discriminate. }
  destruct (all_strings (get args "images")) eqn:S; cbn [negb].
  2: { split; [discriminate |]. intros (_ & [paths G] & _).
       rewrite G, all_strings_of_paths in S. discriminate. }
  pose proof (all_strings_inv _ A S) as P.
  pose proof (resize_mode_test (get args "resize_mode")) as R.
  destruct (negb (is_undefined (get args "resize_mode")) && _).
  - split; [discriminate |]. intros (_ & _ & M & _).
    apply R in M. discriminate.
  - rewrite verdict_iff.
    rewrite !and_then_unit_iff.
    rewrite !check_at_least_iff, !optional_string_iff.
    unfold absent at 1. 
    assert (M : get args "resize_mode" = JUndefined
                \/ get args "resize_mode" = JStr "0"
                \/ get args "resize_mode" = JStr "1") by (apply R; reflexivity).
    tauto.
Qed.

(** The bounds are tested on the binary64 value: what rounds onto a
    bound is accepted. *)
Example bounds_are_tested_after_rounding :
  isHiresFixImageArgs
    (JObj [("image_path", JStr "a.png");
           ("hr_scale", JStr "4.0000000000000000001");
           ("denoising_strength", JStr "-1e-400")]) = inr true
  /\ isHiresFixImageArgs
       (JObj [("image_path", JStr "a.png"); ("hr_scale", JStr "4.000000000000001")])
     = inr false
  /\ isUpscaleImagesArgs
       (JObj [("images", JArr []); ("upscaling_resize", JStr "0.99999999999999999")])
     = inr true.
Proof. vm_compute. repeat split. Qed.

(** ** What the generate_image validator looks at, and what it hands on *)

(** Two objects that agree on [k] get the same answer from the range check
    of [k], and go on agreeing on the other properties they agreed on. *)
Lemma coerce_in_range_agree k lo hi v v' :
  get v k = get v' k ->
  match coerce_in_range k lo hi v, coerce_in_range k lo hi v' with
  | inl e, inl e' => e = e'
  | inr (ok, v1), inr (ok', v1') =>
      ok = ok'
      /\ forall k', k' <> k -> get v k' = get v' k' -> get v1 k' = get v1' k'
  | _, _ => False
  end.
Proof.
  intros E. unfold coerce_in_range, rbind. rewrite <- E.
  destruct (is_undefined (get v k)); cbn; [auto |].
  destruct (ToNumber (get v k)) as [e | n]; [reflexivity |].
  destruct (isNaN n || num_lt n (of_Z lo) || num_gt n (of_Z hi)); [auto |].
  split; [reflexivity |]. intros k' N A.
  rewrite !get_set_other by exact N. exact A.
Qed.

(** The validator's answer depends on the four fields it reads only. *)
Lemma isGenerateImageArgs_agree v v' :
  is_object v = is_object v' ->
  (forall k, In k generate_checked_fields -> get v k = get v' k) ->
  validator_of "generate_image" v = validator_of "generate_image" v'.
Proof.
  intros O G. cbn [validator_of String.eqb Ascii.eqb Bool.eqb].
  f_equal. unfold isGenerateImageArgs. rewrite <- O.
  destruct (negb (is_object v)); [reflexivity |].
  rewrite <- (G "prompt") by (cbn; auto).
  destruct (negb (is_string (get v "prompt"))); [reflexivity |].
  rewrite <- (G "negative_prompt") by (cbn; auto).
  destruct (negb (is_undefined (get v "negative_prompt"))
            && negb (is_string (get v "negative_prompt"))); [reflexivity |].
  pose proof (coerce_in_range_agree "steps" 1 150 v v'
                (G "steps" ltac:(cbn; auto))) as S.
  unfold and_then at 1 3. unfold rbind at 2 4.
  destruct (coerce_in_range "steps" 1 150 v) as [e | [ok v1]],
           (coerce_in_range "steps" 1 150 v') as [e' | [ok' v1']];
    try contradiction.
  - subst e'. reflexivity.
  - destruct S as [<- K]. destruct ok; [| reflexivity].
    assert (B : get v1 "batch_size" = get v1' "batch_size")
      by (apply K; [discriminate | apply G; cbn; auto]).
    pose proof (coerce_in_range_agree "batch_size" 1 4 v1 v1' B) as T.
    unfold and_then, rbind.
    destruct (coerce_in_range "batch_size" 1 4 v1) as [e | [ok v2]],
             (coerce_in_range "batch_size" 1 4 v1') as [e' | [ok' v2']];
      try contradiction.
    + subst e'. reflexivity.
    + destruct T as [<- _]. destruct ok; reflexivity.
Qed.

(** X11.  The generate_image validator looks at [prompt],
    [negative_prompt], [steps] and [batch_size] only: giving any other
    property of the arguments any value whatsoever changes neither its
    answer nor, when it accepts, the other properties it hands on.  So
    [width], [height], [cfg_scale], [seed] and the rest are never checked
    against the bounds or types of the tool's schema. *)
Theorem generate_validator_ignores_other_fields properties k x :
  ~ In k generate_checked_fields ->
  validator_of "generate_image" (set (JObj properties) k x)
  = validator_of "generate_image" (JObj properties)
  /\ forall args',
       isGenerateImageArgs (set (JObj properties) k x) = inr (true, args') ->
       get args' k = x.
Proof.
  intros N. split.
  - apply isGenerateImageArgs_agree; [reflexivity |].
    intros k' I. apply get_set_other. intros ->. contradiction.
  - intros args' V.
    rewrite (isGenerateImageArgs_keeps _ _ V k).
    + cbn. clear V. induction properties as [| [k0 v0] ps IH]; cbn.
      * rewrite String.eqb_refl. reflexivity.
      * destruct (String.eqb_spec k k0) as [-> | D]; cbn.
        -- rewrite String.eqb_refl. reflexivity.
        -- destruct (String.eqb_spec k k0); [contradiction | exact IH].
    + intros ->. apply N. cbn. auto.
    + intros ->. apply N. cbn. auto.
Qed.

Lemma a_width_outside_the_schema_is_accepted :
  validator_of "generate_image" (set args_steps_as_string "width" (JInt (-5)))
  = validator_of "generate_image" args_steps_as_string
  /\ forall args',
       isGenerateImageArgs (set args_steps_as_string "width" (JInt (-5)))
       = inr (true, args') ->
       get args' "width" = JInt (-5).
Proof.
  apply (generate_validator_ignores_other_fields
           [("prompt", JStr "a cat"); ("steps", JStr "30")] "width" (JInt (-5))).
  cbn. intuition discriminate.
Defined.

Lemma in_interval_is_truthy lo hi n :
  0 < lo -> in_closed_interval lo hi n -> ToBoolean (JNum n) = true.
Proof.
  intros P I. destruct n as [| neg | m e]; cbn in *; try contradiction.
  destruct (Z.eqb_spec m 0) as [-> | N]; [| reflexivity].
  exfalso. destruct I as [L _]. unfold value in L.
  rewrite Qmult_0_l in L. unfold Qle in L. cbn in L. lia.
Qed.

Lemma coerce_in_range_leaves_a_number k lo hi properties v' :
  coerce_in_range k lo hi (JObj properties) = inr (true, v') ->
  (exists properties', v' = JObj properties')
  /\ (get v' k = JUndefined
      \/ exists n, get v' k = JNum n /\ in_closed_interval lo hi n).
Proof.
  unfold coerce_in_range, rbind.
  destruct (is_undefined (get (JObj properties) k)) eqn:U; cbn [negb].
  - intros H. injection H as <-. split; [eauto |].
    left. apply supplied_or_absent. exact U.
  - destruct (ToNumber (get (JObj properties) k)) as [e | n]; [discriminate |].
    destruct (isNaN n || num_lt n (of_Z lo) || num_gt n (of_Z hi)) eqn:T;
      [discriminate |].
    intros H. injection H as <-. split; [cbn; eauto |].
    right. exists n. split.
    + cbn. clear. induction properties as [| [k0 v0] ps IH]; cbn.
      * rewrite String.eqb_refl. reflexivity.
      * destruct (String.eqb_spec k k0) as [-> | D]; cbn.
        -- rewrite String.eqb_refl. reflexivity.
        -- destruct (String.eqb_spec k k0); [contradiction | exact IH].
    + apply range_test_false_iff. exact T.
Qed.

(** X12.  Whatever form the caller gave them (number, numeric string,
    boolean, one-element array), and also when they are absent, the
    [steps] and [n_iter] that generate_image posts are numbers: [steps] a
    number of [1,150], [n_iter] a number of [1,4]. *)
Theorem generate_payload_counts_are_numbers_in_range args args' :
  isGenerateImageArgs args = inr (true, args') ->
  (exists n, get (txt2img_payload args') "steps" = JNum n
             /\ in_closed_interval 1 150 n)
  /\ (exists n, get (txt2img_payload args') "n_iter" = JNum n
                /\ in_closed_interval 1 4 n).
Proof.
  intros V.
  destruct (isGenerateImageArgs_prompt _ _ V) as [_ P].
  assert (O : exists properties, args = JObj properties).
  { destruct args; cbn in P; try discriminate. eauto. }
  destruct O as [properties ->].
  unfold isGenerateImageArgs in V.
  destruct (negb (is_object (JObj properties))); [discriminate |].
  destruct (negb (is_string (get (JObj properties) "prompt"))); [discriminate |].
  destruct (negb (is_undefined (get (JObj properties) "negative_prompt")) && _);
    [discriminate |].
  apply and_then_accepts in V. destruct V as (v1 & S & V).
  apply and_then_accepts in V. destruct V as (v2 & B & V).
  injection V as <-.
  destruct (coerce_in_range_leaves_a_number _ _ _ _ _ S) as [[ps1 ->] S1].
  destruct (coerce_in_range_leaves_a_number _ _ _ _ _ B) as [_ B1].
  assert (K : get v2 "steps" = get (JObj ps1) "steps")
    by (apply (coerce_in_range_keeps _ _ _ _ _ B); discriminate).
  change (get (txt2img_payload v2) "steps")
    with (or_else (get v2 "steps") (JInt 20)).
  change (get (txt2img_payload v2) "n_iter")
    with (or_else (get v2 "batch_size") (JInt 1)).
  rewrite K. unfold or_else. split.
  - destruct S1 as [-> | (n & -> & I)].
    + exists (Fin 20 0). split; [reflexivity |]. cbn. unfold Qle. cbn. lia.
    + rewrite (in_interval_is_truthy 1 150 n) by (lia || exact I). eauto.
  - destruct B1 as [-> | (n & -> & I)].
    + exists (Fin 1 0). split; [reflexivity |]. cbn. unfold Qle. cbn. lia.
    + rewrite (in_interval_is_truthy 1 4 n) by (lia || exact I). eauto.
Qed.

Lemma generate_payload_counts_at_a_string :
  (exists n, get (txt2img_payload
                    (JObj [("prompt", JStr "a cat"); ("steps", JNum (Fin 30 0))]))
               "steps" = JNum n
             /\ in_closed_interval 1 150 n)
  /\ (exists n, get (txt2img_payload
                       (JObj [("prompt", JStr "a cat"); ("steps", JNum (Fin 30 0))]))
                  "n_iter" = JNum n
                /\ in_closed_interval 1 4 n).
Proof.
  apply (generate_payload_counts_are_numbers_in_range args_steps_as_string).
  reflexivity.
Defined.

(** ** The output directory *)

Lemma normalize_is_not_empty p : Path.normalize p <> "".
Proof.
  unfold Path.normalize.
  destruct (is_nil (list_ascii_of_string p)); [discriminate |].
  set (body := JS.join "/" _).
  destruct (String.eqb_spec body "") as [E | N].
  - destruct (Path.starts_with_slash _); [discriminate |].
    destruct (Path.starts_with_slash _); discriminate.
  - destruct (Path.starts_with_slash (rev _)),
             (Path.starts_with_slash (list_ascii_of_string p));
      try discriminate; destruct body; try contradiction; discriminate.
Qed.

(** X13.  Whatever the environment and the arguments, the output directory
    that generate_image and upscale_images resolve is never the empty
    path: it has a first character. *)
Theorem the_output_directory_is_never_empty env args outputDir :
  resolve_output_dir (config_of_env env) args = inr outputDir ->
  exists c rest, outputDir = String c rest.
Proof.
  intros H. assert (N : outputDir <> "").
  { revert H. unfold resolve_output_dir.
    destruct (ToBoolean (get args "output_path")).
    - unfold rbind.
      destruct (method_trim (get args "output_path")); [discriminate |].
      intros H. injection H as <-. apply normalize_is_not_empty.
    - intros H. injection H as <-. cbn. unfold env_or.
      destruct (env "SD_OUTPUT_DIR") as [d |]; [| discriminate].
      destruct (String.eqb_spec d ""); [discriminate | assumption]. }
  destruct outputDir as [| c rest]; [contradiction | eauto].
Qed.

Lemma a_blank_output_path_is_the_current_directory :
  resolve_output_dir (config_of_env (fun _ => None))
    (JObj [("output_path", JStr "   ")]) = inr "."
  /\ exists c rest, "." = String c rest.
Proof.
  split; [reflexivity |].
  apply (the_output_directory_is_never_empty (fun _ => None)
           (JObj [("output_path", JStr "   ")]) ".").
  reflexivity.
Defined.

(** ** The files the upscaling loop writes *)

Lemma write_answer_first w outputDir h pair pairs :
  write_answer w outputDir h (pair :: pairs) 0
  = Some (fs_writeFile w h
            (Path.join outputDir ("upscaled_" ++ Path.basename (fst pair)))
            (base64_decode w (snd pair))).
Proof. unfold write_answer. destruct pair. cbn. rewrite app_nil_r. reflexivity. Qed.

Lemma write_answer_next w outputDir h pair pairs i :
  write_answer w outputDir h (pair :: pairs) (S i)
  = write_answer w outputDir (h ++ [upscaled_write w outputDir pair])%list pairs i.
Proof.
  unfold write_answer. cbn [nth_error firstn map].
  destruct (nth_error pairs i) as [[q d] |]; [| reflexivity].
  rewrite <- app_assoc. reflexivity.
Qed.

Lemma upscale_loop_trace outputDir w images :
  forall done remaining results h h' r,
    upscale_loop outputDir (map JStr (done ++ remaining)) (List.length done)
      images results w h = (h', r) ->
    exists n,
      h' = (h ++ map (upscaled_write w outputDir)
                   (firstn n (combine remaining images)))%list
      /\ (n <= List.length (combine remaining images))%nat
      /\ (forall i, (S i < n)%nat ->
             write_answer w outputDir h (combine remaining images) i
             = Some (inr tt))
      /\ loop_end w outputDir h remaining images n r.
Proof.
  induction images as [| imageData rest IH]; intros done remaining results h h' r H.
  - cbn in H. injection H as <- <-. exists O.
    destruct remaining; cbn; rewrite app_nil_r;
      (split; [reflexivity |]); (split; [lia |]); (split; [intros i L; lia |]);
      (split; [reflexivity |]); (split; [lia |]); intros i L; lia.
  - cbn [upscale_loop] in H. rewrite nth_inputs in H.
    destruct remaining as [| p rem'].
    + cbn in H. injection H as <- <-. exists O. cbn. rewrite app_nil_r.
      split; [reflexivity |]. split; [lia |]. split; [intros i L; lia |].
      right. split; [reflexivity |]. split; [lia |].
      split; [intros i L; lia | reflexivity].
    + cbn [path_basename] in H. unfold bind at 1 in H. cbn [ret] in H.
      unfold bind at 1 in H. unfold Buffer_from_base64 at 1 in H.
      cbn [pure_of_world] in H.
      unfold bind at 1 in H. unfold writeFile at 1 in H. cbn [io] in H.
      cbn [combine].
      pose proof (write_answer_first w outputDir h (p, imageData)
                    (combine rem' rest)) as F.
      cbn [fst snd] in F.
      destruct (fs_writeFile w h _ _) as [e | []].
      * injection H as <- <-. exists 1%nat. cbn [firstn map List.length].
        split; [reflexivity |]. split; [lia |]. split; [intros i L; lia |].
        left. exists O. split; [reflexivity | exact F].
      * destruct (next_input done p rem') as [E1 E2]. rewrite E1, E2 in H.
        apply IH in H. destruct H as (n & -> & L & B & E).
        exists (S n). cbn [firstn map List.length].
        split; [rewrite <- app_assoc; reflexivity |].
        split; [lia |].
        assert (K : forall i,
                   (i < S n)%nat ->
                   (forall j, (j < n)%nat ->
                      write_answer w outputDir
                        (h ++ [FsWriteFile
                                 (Path.join outputDir
                                    ("upscaled_" ++ Path.basename p))
                                 (base64_decode w imageData)])%list
                        (combine rem' rest) j = Some (inr tt)) ->
                   write_answer w outputDir h
                     ((p, imageData) :: combine rem' rest) i = Some (inr tt)).
        { intros [| j] Li A; [exact F |].
          rewrite write_answer_next. apply A. lia. }
        split.
        { intros [| j] Li; [exact F |].
          rewrite write_answer_next. apply B. lia. }
        destruct r as [e | out]; cbn [loop_end combine] in *.
        -- destruct E as [(i & -> & A) | (-> & Lt & A & ->)].
           ++ left. exists (S i). split; [reflexivity |].
              rewrite write_answer_next. exact A.
           ++ right. cbn [List.length]. split; [reflexivity |].
              split; [lia |]. split; [| reflexivity].
              intros i Li. apply K; [lia | exact A].
        -- destruct E as (-> & Le & A). cbn [List.length].
           split; [reflexivity |]. split; [lia |].
           intros i Li. apply K; [lia | exact A].
Qed.

(** X14.  The writes the upscaling loop issues are those of a beginning of
    the list of returned images, in order, the i-th under the name of the
    i-th input, and each but the last has succeeded.  The loop ends in one
    of three ways: it returns, having written every image, and then
    there were no more images than inputs; or it fails with the error of
    the write it issued last, the first to fail; or, all writes having
    succeeded, it fails at the first image without an input, with the
    TypeError of [path.basename(undefined)].  What it wrote before a
    failure stays written. *)
Theorem upscale_loop_writes_a_prefix outputDir w paths images h :
  exists n,
    fst (upscale_loop outputDir (map JStr paths) 0 images [] w h)
    = (h ++ map (upscaled_write w outputDir)
              (firstn n (combine paths images)))%list
    /\ (n <= List.length (combine paths images))%nat
    /\ (forall i, (S i < n)%nat ->
           write_answer w outputDir h (combine paths images) i = Some (inr tt))
    /\ loop_end w outputDir h paths images n
         (snd (upscale_loop outputDir (map JStr paths) 0 images [] w h)).
Proof.
  destruct (upscale_loop outputDir (map JStr paths) 0 images [] w h)
    as [h' r] eqn:R.
  exact (upscale_loop_trace outputDir w images [] paths [] h h' r R).
Qed.

(** A run of the above: of three images for three inputs, the second
    write fails; the loop has issued two writes and fails with that
    error. *)
Example the_loop_stops_at_the_failing_write :
  let full := with_failing_write (world_answering None) "output/upscaled_b.png" in
  upscale_loop "output" (map JStr ["a.png"; "b.png"; "c.png"]) 0
    ["AAAA"; "BBBB"; "CCCC"] [] full []
  = ([FsWriteFile "output/upscaled_a.png" "bytes:AAAA";
      FsWriteFile "output/upscaled_b.png" "bytes:BBBB"],
     inl (Error "ENOSPC: no space left on device")).
Proof. vm_compute. reflexivity. Qed.

(** ** The catalogue against the switch and the validators *)

(** X15.  The catalogue and the switch agree: a call of a tool that
    ListTools announces is handed to that tool's handler, and a call of
    any other name makes the switch throw the method-not-found error. *)
Theorem announced_tools_are_the_dispatched_ones cfg request :
  (In (request_name request) tool_names ->
   (request_name request = "generate_image"
    /\ dispatch cfg request = generate_image cfg request)
   \/ (request_name request = "get_sd_models"
       /\ dispatch cfg request = get_sd_models)
   \/ (request_name request = "set_sd_model"
       /\ dispatch cfg request = set_sd_model request)
   \/ (request_name request = "get_sd_upscalers"
       /\ dispatch cfg request = get_sd_upscalers)
   \/ (request_name request = "upscale_images"
       /\ dispatch cfg request = upscale_images cfg request)
   \/ (request_name request = "hires_fix_image"
       /\ dispatch cfg request = hires_fix_image request))
  /\ (~ In (request_name request) tool_names ->
      dispatch cfg request
      = throw (new_McpError MethodNotFound
                 ("Unknown tool: " ++ request_name request))).
Proof.
  unfold dispatch. split.
  - intros I. cbn in I.
    destruct I as [<- | [<- | [<- | [<- | [<- | [<- | []]]]]]]; cbn; tauto.
  - intros N. cbn in N.
    repeat match goal with
           | |- context [String.eqb ?a ?b] =>
               destruct (String.eqb_spec a b) as [E | _];
               [exfalso; apply N; rewrite E; tauto |]
           end.
    reflexivity.
Qed.

Lemma isGenerateImageArgs_accepts_only args args' :
  isGenerateImageArgs args = inr (true, args') ->
  (absent args "steps" \/ coerces_into args "steps" 1 150)
  /\ (absent args "batch_size" \/ coerces_into args "batch_size" 1 4).
Proof.
  intros V. pose proof V as V0. unfold isGenerateImageArgs in V.
  destruct (negb (is_object args)); [discriminate |].
  destruct (negb (is_string (get args "prompt"))); [discriminate |].
  destruct (negb (is_undefined (get args "negative_prompt")) && _); [discriminate |].
  apply and_then_accepts in V. destruct V as (v1 & S & V).
  apply and_then_accepts in V. destruct V as (v2 & B & V).
  assert (K : get v1 "batch_size" = get args "batch_size")
    by (apply (coerce_in_range_keeps _ _ _ _ _ S); discriminate).
  assert (R : forall k lo hi v v',
             coerce_in_range k lo hi v = inr (true, v') ->
             absent v k \/ coerces_into v k lo hi).
  { clear. intros k lo hi v v'. unfold coerce_in_range, absent, coerces_into, rbind.
    destruct (is_undefined (get v k)) eqn:U; cbn [negb].
    - intros _. left. apply supplied_or_absent. exact U.
    - destruct (ToNumber (get v k)) as [e | n]; [discriminate |].
      destruct (isNaN n || num_lt n (of_Z lo) || num_gt n (of_Z hi)) eqn:T;
        [discriminate |].
      intros _. right. exists n. split; [reflexivity |].
      apply range_test_false_iff. exact T. }
  split.
  - exact (R _ _ _ _ _ S).
  - pose proof (R _ _ _ _ _ B) as B'.
    unfold absent, coerces_into in *. rewrite K in B'. exact B'.
Qed.

Lemma name_is_descriptor name n description properties required :
  name_is name (tool_descriptor n description properties required)
  = String.eqb n name.
Proof. reflexivity. Qed.

(** X16.  Every property that a tool's announced schema lists as required
    is, in arguments the tool's validator accepts, present and of the type
    the schema declares ([prompt], [model_name] and [image_path] strings,
    [images] an array); the tools without a validator require nothing. *)
Theorem required_properties_are_enforced name args k :
  In (JStr k) (required_of name) ->
  exists verdict,
    validator_of name args = Some verdict
    /\ (verdict = inr true ->
        get (schema_of name k) "type" = JStr (json_type (get args k))).
Proof.
  unfold required_of, schema_of, input_schema, tools. cbn [find].
  rewrite !name_is_descriptor.
  destruct (String.eqb_spec "generate_image" name) as [<- | N1].
  { cbn. intros [E | []]. injection E as <-.
    eexists. split; [reflexivity |].
    destruct (isGenerateImageArgs args) as [e | [ok args']] eqn:V; cbn;
      [discriminate |].
    intros H. injection H as ->.
    destruct (isGenerateImageArgs_prompt _ _ V) as [_ P].
    apply is_string_inv in P. destruct P as [s P].
    rewrite P. reflexivity. }
  destruct (String.eqb_spec "get_sd_models" name) as [<- | N2].
  { cbn. intros []. }
  destruct (String.eqb_spec "set_sd_model" name) as [<- | N3].
  { cbn. intros [E | []]. injection E as <-.
    eexists. split; [reflexivity |]. intros H. injection H as H.
    unfold isSetModelArgs in H. destruct (negb (is_object args)); [discriminate |].
    apply is_string_inv in H. destruct H as [s H].
    rewrite H. reflexivity. }
  destruct (String.eqb_spec "get_sd_upscalers" name) as [<- | N4].
  { cbn. intros []. }
  destruct (String.eqb_spec "upscale_images" name) as [<- | N5].
  { cbn. intros [E | []]. injection E as <-.
    eexists. split; [reflexivity |]. intros V.
    destruct (isUpscaleImagesArgs_images args V) as [paths G].
    rewrite G. reflexivity. }
  destruct (String.eqb_spec "hires_fix_image" name) as [<- | N6].
  { cbn. intros [E | []]. injection E as <-.
    eexists. split; [reflexivity |]. intros V.
    apply isHiresFixImageArgs_accepts_only in V. destruct V as (P & _).
    apply is_string_inv in P. destruct P as [s P].
    rewrite P. reflexivity. }
  cbn. intros [].
Qed.

Lemma the_prompt_of_accepted_arguments_is_a_string :
  exists verdict,
    validator_of "generate_image" (JObj [("prompt", JStr "a cat")]) = Some verdict
    /\ (verdict = inr true ->
        get (schema_of "generate_image" "prompt") "type"
        = JStr (json_type (get (JObj [("prompt", JStr "a cat")]) "prompt"))).
Proof.
  apply (required_properties_are_enforced "generate_image"
           (JObj [("prompt", JStr "a cat")]) "prompt").
  cbn. auto.
Defined.

Ltac by_field field :=
  cbn [get lookup schema_property app];
  repeat match goal with
         | |- context [String.eqb field ?lit] =>
             destruct (String.eqb_spec field lit) as [-> | ?];
             [cbn; intros Hmin Hmax Hun V;
              try discriminate Hmin; try discriminate Hmax;
              try (exfalso; apply Hun; cbn; tauto) |]
         end;
  try (cbn; discriminate).

(** X17.  Where a tool's announced schema gives a numeric property both a
    minimum and a maximum, the tool's validator enforces them: in accepted
    arguments the property is absent or coerces to a number between the
    two.  This leaves out [width], [height], [cfg_scale] and
    [distilled_cfg_scale] of generate_image, the four properties with
    announced bounds that the validator does not look at. *)
Theorem announced_bounds_are_enforced name field lo hi args :
  get (schema_of name field) "minimum" = JInt lo ->
  get (schema_of name field) "maximum" = JInt hi ->
  ~ In field unenforced_bounds ->
  validator_of name args = Some (inr true) ->
  absent args field \/ coerces_into args field lo hi.
Proof.
  unfold schema_of, input_schema, tools. cbn [find].
  rewrite !name_is_descriptor.
  destruct (String.eqb_spec "generate_image" name) as [<- | N1].
  { cbn [get lookup tool_descriptor String.eqb Ascii.eqb Bool.eqb].
    by_field field.
    - injection Hmin as <-. injection Hmax as <-. cbn in V.
      destruct (isGenerateImageArgs args) as [e | [ok args']] eqn:G;
        [discriminate |].
      cbn in V. injection V as ->.
      exact (proj1 (isGenerateImageArgs_accepts_only _ _ G)).
    - injection Hmin as <-. injection Hmax as <-. cbn in V.
      destruct (isGenerateImageArgs args) as [e | [ok args']] eqn:G;
        [discriminate |].
      cbn in V. injection V as ->.
      exact (proj2 (isGenerateImageArgs_accepts_only _ _ G)). }
  destruct (String.eqb_spec "get_sd_models" name) as [<- | N2].
  { cbn. discriminate. }
  destruct (String.eqb_spec "set_sd_model" name) as [<- | N3].
  { cbn [get lookup tool_descriptor String.eqb Ascii.eqb Bool.eqb].
    by_field field. }
  destruct (String.eqb_spec "get_sd_upscalers" name) as [<- | N4].
  { cbn. discriminate. }
  destruct (String.eqb_spec "upscale_images" name) as [<- | N5].
  { cbn [get lookup tool_descriptor String.eqb Ascii.eqb Bool.eqb].
    by_field field. }
  destruct (String.eqb_spec "hires_fix_image" name) as [<- | N6].
  { cbn [get lookup tool_descriptor String.eqb Ascii.eqb Bool.eqb].
    by_field field.
    all: injection Hmin as <-; injection Hmax as <-; cbn in V;
      injection V as V; apply isHiresFixImageArgs_accepts_only in V; tauto. }
  cbn. discriminate.
Qed.

Lemma the_announced_bounds_of_hr_scale_are_enforced :
  absent (JObj [("image_path", JStr "a.png"); ("hr_scale", JStr "1.5")]) "hr_scale"
  \/ coerces_into (JObj [("image_path", JStr "a.png"); ("hr_scale", JStr "1.5")])
       "hr_scale" 1 4.
Proof.
  apply (announced_bounds_are_enforced "hires_fix_image" "hr_scale" 1 4).
  - reflexivity.
  - reflexivity.
  - cbn. intuition discriminate.
  - reflexivity.
Defined.

(** ** The prompt recovered by hires_fix_image *)

(** X18.  Recovering the prompt never fails the call: whatever the
    png-info lookup does, [recover_prompt] returns after exactly that one
    request.  It returns the empty prompt when the lookup fails or its text
    has no marker, and otherwise the trimmed beginning of the text that
    [match_prompt] finds. *)
Theorem recover_prompt_always_returns base64Image w h :
  exists prompt,
    recover_prompt base64Image w h
    = ((h ++ [HttpPost "/sdapi/v1/png-info"
                (JObj [("image", JStr base64Image)]) None])%list,
       inr prompt)
    /\ ((exists e, sd_png_info w h (JObj [("image", JStr base64Image)]) = inl e) ->
        prompt = "")
    /\ (forall info,
           sd_png_info w h (JObj [("image", JStr base64Image)]) = inr info ->
           prompt = match match_prompt info with
                    | Some group => trim group
                    | None => ""
                    end).
Proof.
  unfold recover_prompt, try_catch, bind, post_png_info, io, lift, ret, or_else.
  destruct (sd_png_info w h (JObj [("image", JStr base64Image)])) as [e | info].
  - exists "". split; [reflexivity |]. split; [reflexivity | discriminate].
  - cbn [ToBoolean]. destruct (String.eqb_spec info "") as [-> | N]; cbn.
    + exists "". split; [reflexivity |]. split.
      * intros [e E]. discriminate.
      * intros info E. injection E as <-. reflexivity.
    + eexists. split; [reflexivity |]. split.
      * intros [e E]. discriminate.
      * intros info' E. injection E as <-. reflexivity.
Qed.

(** ** The model and upscaler tools *)

(** X19.  set_sd_model with an object whose [model_name] is a string (the
    empty string included) posts exactly one request, the option
    [sd_model_checkpoint] set to that string, and when the service accepts
    it returns "Model set to: " followed by the name; with any other
    arguments nothing is posted. *)
Theorem set_sd_model_posts_the_name cfg args w h :
  (forall model_name,
      is_object args = true ->
      get args "model_name" = JStr model_name ->
      sd_options w h (JObj [("sd_model_checkpoint", JStr model_name)]) = inr tt ->
      call_tool cfg (call "set_sd_model" args) w h
      = ((h ++ [HttpPost "/sdapi/v1/options"
                  (JObj [("sd_model_checkpoint", JStr model_name)]) None])%list,
         inr (text_result (JStr ("Model set to: " ++ model_name)))))
  /\ (isSetModelArgs args = false ->
      fst (call_tool cfg (call "set_sd_model" args) w h) = h).
Proof.
  split.
  - intros model_name O G S.
    unfold call_tool, try_catch.
    change (dispatch cfg (call "set_sd_model" args))
      with (set_sd_model (call "set_sd_model" args)).
    unfold set_sd_model, isSetModelArgs. cbn [request_arguments call].
    rewrite O, G. cbn [negb is_string typeof String.eqb Ascii.eqb Bool.eqb].
    unfold bind, post_options, io, lift, ret. rewrite S. reflexivity.
  - intros V. unfold call_tool, try_catch.
    rewrite (dispatch_rejected cfg "set_sd_model" args w h)
      by (cbn; rewrite V; reflexivity).
    reflexivity.
Qed.

Lemma serialize_strings (l : list string) :
  JSON_stringify (JArr (map JStr l))
  = JStr ("[" ++ JS.join "," (map JSON_quote l) ++ "]").
Proof.
  unfold JSON_stringify. cbn. rewrite map_map. reflexivity.
Qed.

(** X20.  get_sd_models and get_sd_upscalers look at no argument: whatever
    is passed, each sends its one GET request, and when the service answers
    returns the JSON array of the quoted titles (resp. names), in the order
    of the answer; an empty answer gives the empty array. *)
Theorem listings_return_the_names_in_order cfg args w h :
  (forall models,
      sd_models w h = inr models ->
      call_tool cfg (call "get_sd_models" args) w h
      = ((h ++ [HttpGet "/sdapi/v1/sd-models"])%list,
         inr (text_result
                (JStr ("[" ++ JS.join "," (map JSON_quote (map title models))
                           ++ "]")))))
  /\ (forall upscalers,
      sd_upscalers w h = inr upscalers ->
      call_tool cfg (call "get_sd_upscalers" args) w h
      = ((h ++ [HttpGet "/sdapi/v1/upscalers"])%list,
         inr (text_result
                (JStr ("[" ++ JS.join "," (map JSON_quote (map name upscalers))
                           ++ "]"))))).
Proof.
  split.
  - intros models S. unfold call_tool, try_catch.
    change (dispatch cfg (call "get_sd_models" args)) with get_sd_models.
    unfold get_sd_models, bind, get_sd_models_list, io, ret. rewrite S.
    rewrite <- serialize_strings, map_map. reflexivity.
  - intros upscalers S. unfold call_tool, try_catch.
    change (dispatch cfg (call "get_sd_upscalers" args)) with get_sd_upscalers.
    unfold get_sd_upscalers, bind, get_upscalers_list, io, ret. rewrite S.
    rewrite <- serialize_strings, map_map. reflexivity.
Qed.

(** ** The HTTP client *)

(** X21.  The client sends credentials exactly when both SD_AUTH_USER and
    SD_AUTH_PASS are set to non-empty values, and then those two values; a
    single one of them, or an empty one, is ignored. *)
Theorem credentials_need_both_variables env username password :
  auth (axiosConfig (config_of_env env)) = Some (username, password)
  <-> env "SD_AUTH_USER" = Some username /\ username <> ""
      /\ env "SD_AUTH_PASS" = Some password /\ password <> "".
Proof.
  cbn. unfold truthy_variable.
  destruct (env "SD_AUTH_USER") as [u |], (env "SD_AUTH_PASS") as [p |];
    try destruct (String.eqb_spec u ""); try destruct (String.eqb_spec p "");
    split; try discriminate;
    try (intros (A & B & C & D); congruence).
  intros H. injection H as <- <-. auto.
Qed.

(** ** Where the upscaled files go *)

Lemma chars_app a b :
  list_ascii_of_string (a ++ b)
  = (list_ascii_of_string a ++ list_ascii_of_string b)%list.
Proof. induction a as [| c a IH]; cbn; [reflexivity | rewrite IH; reflexivity]. Qed.

Lemma string_app_assoc (a b c : string) : (a ++ b) ++ c = a ++ (b ++ c).
Proof. induction a as [| x a IH]; cbn; [reflexivity | rewrite IH; reflexivity]. Qed.

Lemma string_of_chars_app a b :
  string_of_list_ascii (a ++ b)%list
  = string_of_list_ascii a ++ string_of_list_ascii b.
Proof. induction a as [| c a IH]; cbn; [reflexivity | rewrite IH; reflexivity]. Qed.

Lemma no_slash_chars s :
  contains "/" s = false ->
  forallb (fun c => negb (Path.is_slash c)) (list_ascii_of_string s) = true.
Proof.
  induction s as [| c s IH]; cbn; [reflexivity |].
  unfold Path.is_slash. destruct (Ascii.eqb c "/"); cbn; [discriminate | exact IH].
Qed.

Lemma split_slash_app cur a b :
  Path.split_slash cur (a ++ "/"%char :: b)
  = (Path.split_slash cur a ++ Path.split_slash [] b)%list.
Proof.
  revert cur. induction a as [| c a IH]; intros cur; cbn; [reflexivity |].
  destruct (Path.is_slash c); cbn; rewrite IH; reflexivity.
Qed.

Lemma split_slash_plain cur b :
  forallb (fun c => negb (Path.is_slash c)) b = true ->
  Path.split_slash cur b = [string_of_list_ascii (rev cur ++ b)].
Proof.
  revert cur. induction b as [| c b IH]; intros cur H; cbn.
  - rewrite app_nil_r. reflexivity.
  - cbn in H. apply andb_prop in H. destruct H as [C B].
    destruct (Path.is_slash c); [discriminate |].
    rewrite (IH _ B). cbn. rewrite <- app_assoc. reflexivity.
Qed.

Lemma resolve_snoc allow seg segs :
  plain_segment seg ->
  forall stack,
    Path.resolve allow stack (segs ++ [seg])
    = (Path.resolve allow stack segs ++ [seg])%list.
Proof.
  intros (N0 & N1 & N2 & _).
  induction segs as [| x segs IH]; intros stack.
  - cbn. destruct (String.eqb_spec seg ""); [contradiction |].
    destruct (String.eqb_spec seg "."); [contradiction |].
    destruct (String.eqb_spec seg ".."); [contradiction |].
    reflexivity.
  - cbn [Path.resolve app].
    destruct (String.eqb x "" || String.eqb x "."); [apply IH |].
    destruct (String.eqb x "..").
    + destruct stack as [| top below]; [apply IH |].
      destruct (String.eqb top ".."); apply IH.
    + apply IH.
Qed.

Lemma join_snoc l seg :
  JS.join "/" (l ++ [seg])
  = match l with [] => "" | _ => JS.join "/" l ++ "/" end ++ seg.
Proof.
  induction l as [| x l IH]; [reflexivity |].
  destruct l as [| y l].
  - cbn. rewrite string_app_assoc. reflexivity.
  - change (JS.join "/" ((x :: y :: l) ++ [seg]))
      with (x ++ "/" ++ JS.join "/" ((y :: l) ++ [seg])).
    rewrite IH.
    change (JS.join "/" (x :: y :: l)) with (x ++ "/" ++ JS.join "/" (y :: l)).
    rewrite !string_app_assoc. reflexivity.
Qed.

Lemma ends_without_slash a seg :
  plain_segment seg ->
  Path.starts_with_slash (rev (a ++ list_ascii_of_string seg)) = false.
Proof.
  intros (N0 & _ & _ & S). apply no_slash_chars in S.
  rewrite rev_app_distr.
  destruct (list_ascii_of_string seg) as [| c cs] eqn:E.
  - destruct seg; [contradiction | discriminate].
  - assert (L : forallb (fun c => negb (Path.is_slash c)) (rev (c :: cs)) = true).
    { rewrite forallb_forall in *. intros x I. apply S, in_rev. exact I. }
    destruct (rev (c :: cs)) as [| z zs] eqn:R.
    + apply (f_equal (@List.length _)) in R. rewrite length_rev in R. discriminate.
    + cbn in *. apply andb_prop in L. destruct L as [L _].
      destruct (Path.is_slash z); [discriminate | reflexivity].
Qed.

(** Normalising [a] followed by a plain last segment keeps that segment
    as the end of the result; what precedes it depends on [a] only. *)
Lemma normalize_before_a_plain_segment a :
  exists directory,
    (directory = "" \/ exists d, directory = d ++ "/")
    /\ forall seg, plain_segment seg ->
                   Path.normalize (a ++ "/" ++ seg) = directory ++ seg.
Proof.
  set (isAbsolute := Path.starts_with_slash (list_ascii_of_string a ++ ["/"%char])).
  set (kept := Path.resolve (negb isAbsolute) []
                 (Path.split_slash [] (list_ascii_of_string a))).
  exists ((if isAbsolute then "/" else "")
          ++ match kept with [] => "" | _ => JS.join "/" kept ++ "/" end).
  split.
  - destruct kept as [| x kept'].
    + destruct isAbsolute; [right; exists ""; reflexivity | left; reflexivity].
    + right. exists ((if isAbsolute then "/" else "") ++ JS.join "/" (x :: kept')).
      rewrite string_app_assoc. reflexivity.
  - intros seg P. pose proof P as (N0 & N1 & N2 & S).
    unfold Path.normalize.
    change (a ++ "/" ++ seg) with (a ++ String "/" seg).
    rewrite chars_app. cbn [list_ascii_of_string].
    assert (NE : is_nil (list_ascii_of_string a ++ "/"%char :: list_ascii_of_string seg)
                 = false) by (destruct (list_ascii_of_string a); reflexivity).
    rewrite NE.
    assert (A : Path.starts_with_slash
                  (list_ascii_of_string a ++ "/"%char :: list_ascii_of_string seg)
                = isAbsolute)
      by (subst isAbsolute; destruct (list_ascii_of_string a); reflexivity).
    rewrite A.
    change (list_ascii_of_string a ++ "/"%char :: list_ascii_of_string seg)%list
      with (list_ascii_of_string a ++ ["/"%char] ++ list_ascii_of_string seg)%list.
    rewrite app_assoc, (ends_without_slash _ seg P), <- app_assoc.
    cbn [app]. rewrite split_slash_app.
    rewrite (split_slash_plain [] _ (no_slash_chars _ S)). cbn [rev app].
    rewrite string_of_list_ascii_of_string.
    rewrite (resolve_snoc _ seg _ P). fold kept. rewrite join_snoc.
    set (before := match kept with [] => "" | _ => JS.join "/" kept ++ "/" end).
    destruct (String.eqb_spec (before ++ seg) "") as [E | _].
    + destruct before; [cbn in E; contradiction | discriminate].
    + destruct isAbsolute; cbn; rewrite ?string_app_assoc; reflexivity.
Qed.

Lemma normalize_plain seg : plain_segment seg -> Path.normalize seg = seg.
Proof.
  intros P. pose proof P as (N0 & N1 & N2 & S).
  pose proof (ends_without_slash [] seg P) as T. cbn [app] in T.
  pose proof (no_slash_chars _ S) as C.
  unfold Path.normalize. rewrite T.
  rewrite (split_slash_plain [] _ C). cbn [rev app].
  rewrite string_of_list_ascii_of_string.
  destruct (list_ascii_of_string seg) as [| c cs] eqn:E.
  - destruct seg; [contradiction | discriminate].
  - cbn [is_nil Path.starts_with_slash]. cbn in C.
    apply andb_prop in C. destruct C as [C _].
    destruct (Path.is_slash c); [discriminate |]. cbn [negb].
    pose proof (resolve_snoc true seg [] P []) as R. cbn [app] in R.
    rewrite R. cbn.
    destruct (String.eqb_spec seg ""); [contradiction | reflexivity].
Qed.

Lemma take_segment_has_no_slash cs :
  forallb (fun c => negb (Path.is_slash c)) (Path.take_segment cs) = true.
Proof.
  induction cs as [| c cs IH]; cbn; [reflexivity |].
  destruct (Path.is_slash c) eqn:E; cbn; [reflexivity |].
  rewrite E, IH. reflexivity.
Qed.

Lemma contains_of_chars cs :
  forallb (fun c => negb (Path.is_slash c)) cs = true ->
  contains "/" (string_of_list_ascii cs) = false.
Proof.
  induction cs as [| c cs IH]; cbn; [reflexivity |].
  unfold Path.is_slash. destruct (Ascii.eqb c "/"); cbn; [discriminate | exact IH].
Qed.

Lemma basename_has_no_slash p : contains "/" (Path.basename p) = false.
Proof.
  unfold Path.basename. apply contains_of_chars.
  rewrite forallb_forall. intros x I. apply in_rev in I.
  pose proof (take_segment_has_no_slash
                (Path.drop_slashes (rev (list_ascii_of_string p)))) as T.
  rewrite forallb_forall in T. exact (T x I).
Qed.

Lemma upscaled_name_is_plain p : plain_segment ("upscaled_" ++ Path.basename p).
Proof.
  repeat split; try discriminate.
  cbn. apply basename_has_no_slash.
Qed.

(** X22.  The name of an input image cannot steer where its upscaled copy
    is written: for a given output directory all files are written to one
    and the same directory prefix, followed by [upscaled_<basename>], and
    that name contains no slash, whatever the input path ([..] segments
    included). *)
Theorem upscaled_files_stay_in_the_output_directory outputDir :
  exists directory,
    (directory = "" \/ exists d, directory = d ++ "/")
    /\ forall p,
         Path.join outputDir ("upscaled_" ++ Path.basename p)
         = directory ++ "upscaled_" ++ Path.basename p
         /\ contains "/" ("upscaled_" ++ Path.basename p) = false.
Proof.
  destruct (String.eqb_spec outputDir "") as [-> | N].
  - exists "". split; [left; reflexivity |]. intros p.
    split; [| apply upscaled_name_is_plain].
    unfold Path.join. cbn [filter String.eqb negb is_nil JS.join].
    apply (normalize_plain _ (upscaled_name_is_plain p)).
  - destruct (normalize_before_a_plain_segment outputDir) as (directory & D & J).
    exists directory. split; [exact D |]. intros p.
    split; [| apply upscaled_name_is_plain].
    unfold Path.join. cbn [filter].
    destruct (String.eqb_spec outputDir ""); [contradiction |].
    cbn [negb String.eqb Ascii.eqb Bool.eqb is_nil JS.join].
    apply (J _ (upscaled_name_is_plain p)).
Qed.

(** ** The target size of hires_fix_image *)

Lemma value_of_negative_exponent m p :
  exists q, 10 ^ Z.pos p = Z.pos q /\ (value m (Z.neg p) == m # q)%Q.
Proof.
  assert (K : 0 < 10 ^ Z.pos p) by (apply Z.pow_pos_nonneg; lia).
  destruct (10 ^ Z.pos p) as [| q | q] eqn:E; try lia.
  exists q. split; [reflexivity |].
  unfold value.
  change ((10 # 1) ^ Z.neg p)%Q with (/ ((inject_Z 10) ^ Z.pos p))%Q.
  rewrite <- Zpower_Qpower by lia. rewrite E.
  unfold Qeq, Qmult, Qinv, inject_Z. cbn. lia.
Qed.

Lemma value_of_nonnegative_exponent m e :
  0 <= e -> (value m e == inject_Z (m * 10 ^ e))%Q.
Proof.
  intros P. unfold value. rewrite inject_Z_mult, Zpower_Qpower by exact P.
  reflexivity.
Qed.

Lemma value_scaled a m e : (value (a * m) e == inject_Z a * value m e)%Q.
Proof. unfold value. rewrite inject_Z_mult. ring. Qed.

(** A decimal as a ratio of whole numbers, and its place between two
    whole bounds. *)
Lemma interval_as_ratio A B m e :
  in_closed_interval A B (Fin m e) ->
  let n := if 0 <=? e then m * 10 ^ e else m in
  let d := if 0 <=? e then 1 else 10 ^ (- e) in
  0 < d /\ A * d <= n <= B * d.
Proof.
  cbn [in_closed_interval]. intros [L U].
  destruct e as [| p | p]; cbn [Z.leb Z.compare Z.opp].
  - rewrite value_of_nonnegative_exponent in L, U by lia.
    rewrite <- Zle_Qle in L, U. lia.
  - rewrite value_of_nonnegative_exponent in L, U by lia.
    rewrite <- Zle_Qle in L, U. lia.
  - destruct (value_of_negative_exponent m p) as (q & E & V).
    rewrite V in L, U. rewrite E. unfold Qle in L, U. cbn in L, U. lia.
Qed.

Lemma div_nearest_even_within A B a b :
  0 < b -> A * b <= a <= B * b -> A <= div_nearest_even a b <= B.
Proof.
  intros P [L U]. unfold div_nearest_even.
  pose proof (Z.div_mod a b ltac:(lia)) as D.
  pose proof (Z.mod_pos_bound a b P) as R.
  assert (K : A <= a / b <= B).
  { split; [apply Z.div_le_lower_bound; lia |].
    apply Z.lt_succ_r, Z.div_lt_upper_bound; nia. }
  assert (S : 0 < a mod b -> a / b < B) by nia.
  destruct (2 * (a mod b) ?= b) eqn:C.
  - apply Z.compare_eq in C. destruct (Z.even (a / b)); lia.
  - lia.
  - apply Z.compare_gt_iff in C. lia.
Qed.

Lemma log2_ratio_small n d :
  0 < n -> 0 < d -> n < d * 2 ^ 53 -> log2_ratio n d <= 52.
Proof.
  intros Pn Pd S. unfold log2_ratio.
  destruct (Z.log2_spec n Pn) as [Ln Un].
  destruct (Z.log2_spec d Pd) as [Ld Ud].
  pose proof (Z.log2_nonneg n) as Nn. pose proof (Z.log2_nonneg d) as Nd.
  assert (G : Z.log2 n - Z.log2 d <= 53).
  { destruct (Z_le_gt_dec (Z.log2 n - Z.log2 d) 53) as [|C]; [assumption |].
    exfalso.
    assert (T : 2 ^ (Z.succ (Z.log2 d) + 53) <= 2 ^ Z.log2 n)
      by (apply Z.pow_le_mono_r; lia).
    rewrite Z.pow_add_r in T by lia. nia. }
  destruct (Z.eq_dec (Z.log2 n - Z.log2 d) 53) as [E | N].
  - rewrite E. cbn [Z.leb Z.compare].
    destruct (n <? d * 2 ^ 53) eqn:C; [lia |].
    apply Z.ltb_ge in C. lia.
  - destruct (if 0 <=? Z.log2 n - Z.log2 d
              then n <? d * 2 ^ (Z.log2 n - Z.log2 d)
              else n * 2 ^ (- (Z.log2 n - Z.log2 d)) <? d); lia.
Qed.

Lemma round_ratio_within A B n d :
  0 < A -> B < 2 ^ 53 -> 0 < d -> A * d <= n <= B * d ->
  exists sig k,
    round_ratio n d = Some (sig, - k)
    /\ 0 <= k /\ A * 2 ^ k <= sig <= B * 2 ^ k.
Proof.
  intros PA SB Pd [L U]. unfold round_ratio.
  assert (F : log2_ratio n d <= 52) by (apply log2_ratio_small; nia).
  set (ex := Z.max (log2_ratio n d - 52) (-1074)).
  assert (X : -1074 <= ex <= 0) by lia.
  assert (T : 0 < 2 ^ (- ex)) by (apply Z.pow_pos_nonneg; lia).
  destruct (ex <? 0) eqn:C.
  - exists (div_nearest_even (n * 2 ^ (- ex)) d), (- ex).
    replace (971 <? ex) with false by (symmetry; apply Z.ltb_ge; lia).
    replace (ex =? 971) with false by (symmetry; apply Z.eqb_neq; lia).
    cbn [orb andb]. rewrite Z.opp_involutive.
    split; [reflexivity |]. split; [lia |].
    apply div_nearest_even_within; [exact Pd | nia].
  - apply Z.ltb_ge in C. assert (E : ex = 0) by lia. rewrite E in *.
    exists (div_nearest_even n (d * 2 ^ 0)), 0.
    cbn [Z.ltb Z.eqb Z.compare orb andb Z.opp].
    split; [reflexivity |]. split; [lia |].
    change (2 ^ 0) with 1. rewrite !Z.mul_1_r.
    apply div_nearest_even_within; [exact Pd | lia].
Qed.

Lemma strip_zeros_value fuel :
  forall m e, (value (fst (strip_zeros fuel m e)) (snd (strip_zeros fuel m e))
               == value m e)%Q.
Proof.
  induction fuel as [| fuel IH]; intros m e; cbn [strip_zeros fst snd].
  - reflexivity.
  - destruct ((m =? 0) || negb (m mod 10 =? 0)) eqn:C; cbn [fst snd].
    + reflexivity.
    + apply orb_false_iff in C. destruct C as [_ C].
      apply negb_false_iff, Z.eqb_eq in C.
      rewrite IH. unfold value.
      rewrite Qpower_plus by discriminate.
      pose proof (Z.div_mod m 10 ltac:(lia)) as D. rewrite C, Z.add_0_r in D.
      rewrite D at 2. rewrite inject_Z_mult.
      change ((10 # 1) ^ 1)%Q with (inject_Z 10). ring.
Qed.

Lemma canonical_value m e :
  exists m' e', canonical m e = Fin m' e' /\ (value m' e' == value m e)%Q.
Proof.
  unfold canonical.
  pose proof (strip_zeros_value (Z.to_nat (Z.log2 (Z.abs m))) m e) as V.
  destruct (strip_zeros (Z.to_nat (Z.log2 (Z.abs m))) m e) as [m' e'].
  cbn [fst snd] in V.
  destruct ((m' =? 0) || (0 <=? e')) eqn:C.
  - eexists _, _. split; [reflexivity |]. rewrite <- V.
    apply orb_true_iff in C. destruct C as [C | C].
    + apply Z.eqb_eq in C. subst m'. unfold value. cbn. ring.
    + apply Z.leb_le in C. rewrite value_of_Z.
      symmetry. apply value_of_nonnegative_exponent. exact C.
  - eexists _, _. split; [reflexivity | exact V].
Qed.

Lemma dyadic_within A B sig k :
  0 <= k -> A * 2 ^ k <= sig <= B * 2 ^ k ->
  in_closed_interval A B (dyadic sig (- k)).
Proof.
  intros P [L U]. unfold dyadic.
  destruct k as [| p | p]; try lia; cbn [Z.opp Z.leb Z.compare].
  - cbn [in_closed_interval]. rewrite value_of_Z, <- !Zle_Qle.
    change (2 ^ 0) with 1 in *. lia.
  - destruct (canonical_value (sig * 5 ^ Z.pos p) (Z.neg p))
      as (m' & e' & -> & V).
    cbn [in_closed_interval]. rewrite V.
    destruct (value_of_negative_exponent (sig * 5 ^ Z.pos p) p)
      as (q & E & ->).
    assert (T : 10 ^ Z.pos p = 2 ^ Z.pos p * 5 ^ Z.pos p)
      by (rewrite <- Z.pow_mul_l; reflexivity).
    assert (F : 0 < 5 ^ Z.pos p) by (apply Z.pow_pos_nonneg; lia).
    unfold Qle. cbn. nia.
Qed.

(** Rounding to binary64 does not leave an interval with whole bounds
    below [2^53]: the bounds are binary64 values themselves. *)
Lemma round64_within A B x :
  0 < A -> B < 2 ^ 53 ->
  in_closed_interval A B x -> in_closed_interval A B (round64 x).
Proof.
  intros PA SB I. destruct x as [| neg | m e]; try contradiction.
  pose proof (interval_as_ratio A B m e I) as R. cbn zeta in R.
  assert (Pm : 0 < m).
  { destruct (0 <=? e) eqn:C; [| nia].
    apply Z.leb_le in C.
    assert (0 < 10 ^ e) by (apply Z.pow_pos_nonneg; lia). nia. }
  unfold round64.
  replace (m =? 0) with false by (symmetry; apply Z.eqb_neq; lia).
  replace (m <? 0) with false by (symmetry; apply Z.ltb_ge; lia).
  rewrite (Z.abs_eq m) by lia.
  destruct R as [Pd R].
  destruct (round_ratio_within A B _ _ PA SB Pd R) as (sig & k & -> & K & S).
  apply dyadic_within; assumption.
Qed.

Lemma Math_round_within A B x :
  in_closed_interval A B x -> in_closed_interval A B (Math_round x).
Proof.
  intros I. destruct x as [| neg | m e]; try contradiction.
  cbn [Math_round]. destruct e as [| p | p]; cbn [Z.leb Z.compare];
    try exact I.
  destruct (value_of_negative_exponent m p) as (q & E & V).
  cbn [in_closed_interval] in *. rewrite V in I. cbn [Z.opp]. rewrite E.
  rewrite value_of_Z, <- !Zle_Qle.
  destruct I as [L U]. unfold Qle in L, U. cbn in L, U.
  split.
  - apply Z.div_le_lower_bound; nia.
  - apply Z.lt_succ_r. apply Z.div_lt_upper_bound; nia.
Qed.

(** Rounding the product of a positive whole size and a factor of [1,4]
    gives a whole size between the size and four times it. *)
Lemma scaled_size_bounds W n :
  0 < W < 2 ^ 51 -> in_closed_interval 1 4 n ->
  in_closed_interval W (4 * W) (Math_round (num_mul (Fin W 0) n)).
Proof.
  intros [P S] I. destruct n as [| neg | m e]; try contradiction.
  cbn [num_mul Z.add]. apply Math_round_within.
  apply round64_within; [exact P | change (2 ^ 53) with (4 * 2 ^ 51); lia |].
  cbn [in_closed_interval] in *. rewrite value_scaled.
  assert (WP : (0 < inject_Z W)%Q) by (unfold Qlt; cbn; lia).
  destruct I as [L U]. split.
  - setoid_replace (inject_Z W) with (inject_Z W * inject_Z 1)%Q at 1
      by (cbn; ring).
    apply Qmult_le_l; assumption.
  - rewrite inject_Z_mult.
    setoid_replace (inject_Z 4 * inject_Z W)%Q with (inject_Z W * inject_Z 4)%Q
      by ring.
    apply Qmult_le_l; assumption.
Qed.

Lemma times_returns a b w h h1 r :
  times a b w h = (h1, inr r) ->
  exists x y, ToNumber a = inr x /\ ToNumber b = inr y /\ r = num_mul x y.
Proof.
  unfold times. intros H.
  apply bind_returns in H. destruct H as (x & h2 & X & H).
  apply lift_returns in X. destruct X as [-> X].
  apply bind_returns in H. destruct H as (y & h3 & Y & H).
  apply lift_returns in Y. destruct Y as [-> Y].
  cbn in H. injection H as _ <-. eauto.
Qed.

(** [metadata.width || 1024] for a reported dimension. *)
Lemma assumed_dimension d W :
  0 < W -> reported d W -> or_else (of_optional d) (JInt 1024) = JInt W.
Proof.
  intros P [-> | [-> ->]]; [| reflexivity].
  unfold or_else. cbn. destruct (W =? 0) eqn:E; [| reflexivity].
  apply Z.eqb_eq in E. lia.
Qed.

(** [args.hr_scale || 2] of accepted arguments is a factor of [1,4]. *)
Lemma accepted_scale args n :
  isHiresFixImageArgs args = inr true ->
  ToNumber (or_else (get args "hr_scale") (JInt 2)) = inr n ->
  in_closed_interval 1 4 n.
Proof.
  intros V N. apply isHiresFixImageArgs_accepts_only in V.
  destruct V as (_ & S & _).
  assert (D : in_closed_interval 1 4 (of_Z 2)).
  { cbn. rewrite value_of_Z, <- !Zle_Qle. lia. }
  unfold or_else in N.
  destruct S as [A | (n' & C & I)].
  - unfold absent in A. rewrite A in N. cbn in N. injection N as <-. exact D.
  - destruct (ToBoolean (get args "hr_scale")).
    + rewrite C in N. injection N as <-. exact I.
    + cbn in N. injection N as <-. exact D.
Qed.

Lemma emits_recover_prompt Q base64Image :
  (forall body, Q (HttpPost "/sdapi/v1/png-info" body None)) ->
  emits Q (recover_prompt base64Image).
Proof.
  intros P. unfold recover_prompt, post_png_info. emits_steps. apply P.
Qed.

(** X23.  Whatever the accepted arguments, the img2img request of a
    hires_fix_image call asks for a size between that of the source image
    and four times it, in each dimension: the width is in [[W, 4W]] and the
    height in [[H, 4H]], where a dimension sharp does not report counts as
    1024.  The sizes are whole numbers below [2^51], so that the bounds
    are binary64 values and the rounding of the product cannot pass
    them. *)
Theorem hires_fix_asks_for_one_to_four_times_the_size cfg args w W H :
  0 < W < 2 ^ 51 -> 0 < H < 2 ^ 51 ->
  (forall hist input metadata,
      sharp_metadata w hist input = inr metadata ->
      reported (width metadata) W /\ reported (height metadata) H) ->
  emits_in w (asks_within W H) (call_tool cfg (call "hires_fix_image" args)).
Proof.
  intros PW PH S. apply emits_in_call_tool.
  change (dispatch cfg (call "hires_fix_image" args))
    with (hires_fix_image (call "hires_fix_image" args)).
  unfold hires_fix_image. cbn [request_arguments call].
  apply emits_in_bind; [apply emits_anywhere, emits_lift |].
  intros ok h h1 V. apply lift_returns in V. destruct V as [_ V].
  destruct ok; cbn [negb].
  2: { apply emits_anywhere, emits_throw. }
  apply emits_in_bind.
  { apply emits_anywhere, emits_readFile. intros p. exact I. }
  intros imageData h2 h3 _.
  apply emits_in_bind; [apply emits_anywhere, emits_pure_of_world |].
  intros encoded h4 h5 _.
  apply emits_in_bind.
  { apply emits_anywhere. unfold metadata_of. apply emits_io. exact I. }
  intros metadata h6 h7 Mt. apply io_answer in Mt. apply S in Mt.
  destruct Mt as [RW RH].
  rewrite (assumed_dimension _ _ (proj1 PW) RW),
    (assumed_dimension _ _ (proj1 PH) RH).
  apply emits_in_bind.
  { apply emits_anywhere. unfold times. emits_steps. }
  intros tw h8 h9 TW. apply times_returns in TW.
  destruct TW as (x & n & X & N & ->). cbn in X. injection X as <-.
  apply emits_in_bind.
  { apply emits_anywhere. unfold times. emits_steps. }
  intros th h10 h11 TH. apply times_returns in TH.
  destruct TH as (x & n' & X & N' & ->). cbn in X. injection X as <-.
  rewrite N in N'. injection N' as <-.
  pose proof (accepted_scale _ _ V N) as I.
  apply emits_in_bind.
  { apply emits_anywhere, emits_recover_prompt. intros body C. discriminate. }
  intros prompt h12 h13 _.
  apply emits_in_bind.
  { intros h14. rewrite detached_img2img. eexists. split; [reflexivity |].
    constructor; [| constructor].
    intros _. do 2 eexists.
    split; [reflexivity |]. split; [reflexivity |].
    split; apply scaled_size_bounds; assumption. }
  intros _ h14 h15 _.
  apply emits_in_bind; [apply emits_anywhere, emits_lift |].
  intros message h16 h17 _. apply emits_anywhere, emits_ret.
Qed.

Lemma hires_fix_asks_for_one_to_four_times_512_by_768 :
  exists l,
    fst (call_tool default_config
           (call "hires_fix_image"
              (JObj [("image_path", JStr "in.png"); ("hr_scale", JStr "1.5")]))
           (world_answering None) [])
    = ([] ++ l)%list
    /\ Forall (asks_within 512 768) l.
Proof.
  apply (hires_fix_asks_for_one_to_four_times_the_size default_config
           (JObj [("image_path", JStr "in.png"); ("hr_scale", JStr "1.5")])
           (world_answering None) 512 768);
    [split; reflexivity | split; reflexivity |].
  intros hist input metadata E. cbn in E. injection E as <-.
  split; left; reflexivity.
Defined.

(** ** The output directory comes first *)

Lemma call_tool_history cfg request w h :
  fst (call_tool cfg request w h) = fst (dispatch cfg request w h).
Proof.
  unfold call_tool, try_catch.
  destruct (dispatch cfg request w h) as [h1 [e | r]]; [| reflexivity].
  destruct (translate_error_throws (A := ToolResult) e w h1) as [e' T].
  rewrite T. reflexivity.
Qed.

Lemma after_the_directory {A} (k : unit -> M A) outputDir w h :
  (forall e message,
      fs_access w h outputDir = inl e ->
      fs_mkdir w (h ++ [FsAccess outputDir])%list outputDir = inl (Error message) ->
      bind (ensureDirectoryExists outputDir) k w h
      = ((h ++ [FsAccess outputDir; FsMkdir outputDir])%list, inl (Error message)))
  /\ (fs_access w h outputDir = inr tt ->
      emits makes_no_directory (k tt) ->
      exists l,
        fst (bind (ensureDirectoryExists outputDir) k w h)
        = (h ++ FsAccess outputDir :: l)%list
        /\ Forall makes_no_directory l).
Proof.
  unfold bind, ensureDirectoryExists, try_catch, access, mkdir, io. split.
  - intros e message Ac K. rewrite Ac, K, <- app_assoc. reflexivity.
  - intros Ac E. rewrite Ac.
    destruct (E w (h ++ [FsAccess outputDir])%list) as (l & F & G).
    exists l. rewrite F, <- app_assoc. auto.
Qed.

Lemma generate_image_makes_no_directory outputDir args :
  emits makes_no_directory
    (response <- post_txt2img (txt2img_payload args) ;;
     if no_images response then throw (Error "No images generated")
     else
       results <- generate_loop outputDir (images_of response) [] ;;
       ret (text_result (JSON_stringify (JArr results)))).
Proof.
  apply emits_bind.
  { unfold post_txt2img. apply emits_io. exact I. }
  intros response. destruct (no_images response); [apply emits_throw |].
  apply emits_bind; [| intros results; apply emits_ret].
  apply emits_generate_loop; intros; exact I.
Qed.

Lemma upscale_images_makes_no_directory cfg outputDir args :
  emits makes_no_directory
    (encodedImages <- Promise_all (map encode_image (elements (get args "images"))) ;;
     resize_mode <- lift (resizeModeNum cfg args) ;;
     response <- post_extra_batch_images
                   (upscale_payload cfg args resize_mode encodedImages) ;;
     if no_images response then throw (Error "No images upscaled")
     else
       results <- upscale_loop outputDir (elements (get args "images")) 0
                    (images_of response) [] ;;
       ret (text_result (JSON_stringify (JArr results)))).
Proof.
  apply emits_bind.
  { apply emits_Promise_all. apply Forall_forall. intros m Hm.
    apply in_map_iff in Hm. destruct Hm as (x & <- & _).
    unfold encode_image, toString_base64.
    apply emits_bind; [apply emits_readFile; intros; exact I | intros data].
    emits_steps. apply emits_path_basename. }
  intros encodedImages.
  apply emits_bind; [apply emits_lift | intros resize_mode].
  apply emits_bind.
  { unfold post_extra_batch_images. apply emits_io. exact I. }
  intros response. destruct (no_images response); [apply emits_throw |].
  apply emits_bind; [| intros results; apply emits_ret].
  apply emits_upscale_loop. intros; exact I.
Qed.

(** What [dispatch] does of a call whose output directory is known: the
    validator and the resolution are behind it, the directory is next. *)
Lemma dispatch_at_the_directory cfg name args outputDir :
  output_dir_of cfg name args = Some outputDir ->
  exists k : unit -> M ToolResult,
    emits makes_no_directory (k tt)
    /\ forall w h,
         dispatch cfg (call name args) w h
         = bind (ensureDirectoryExists outputDir) k w h.
Proof.
  unfold output_dir_of, dispatch. cbn [call request_name].
  destruct (String.eqb name "generate_image").
  - unfold generate_image. cbn [request_arguments call].
    destruct (isGenerateImageArgs args) as [e | [[|] args']] eqn:V;
      try discriminate.
    destruct (resolve_output_dir cfg args') as [e | d] eqn:D; [discriminate |].
    intros O. injection O as ->.
    eexists (fun _ => _). split.
    + apply (generate_image_makes_no_directory outputDir args').
    + intros w h. unfold bind at 1. unfold lift at 1. cbn [negb].
      unfold bind at 1. unfold lift at 1. rewrite ?D. reflexivity.
  - destruct (String.eqb name "get_sd_models") eqn:N1.
    { apply String.eqb_eq in N1. subst name. discriminate. }
    destruct (String.eqb name "set_sd_model") eqn:N2.
    { apply String.eqb_eq in N2. subst name. discriminate. }
    destruct (String.eqb name "get_sd_upscalers") eqn:N3.
    { apply String.eqb_eq in N3. subst name. discriminate. }
    destruct (String.eqb name "upscale_images"); [| discriminate].
    unfold upscale_images. cbn [request_arguments call].
    destruct (isUpscaleImagesArgs args) as [e | [|]] eqn:V; try discriminate.
    destruct (resolve_output_dir cfg args) as [e | d] eqn:D; [discriminate |].
    intros O. injection O as ->.
    eexists (fun _ => _). split.
    + apply (upscale_images_makes_no_directory cfg outputDir args).
    + intros w h. unfold bind at 1. unfold lift at 1. cbn [negb].
      unfold bind at 1. unfold lift at 1. rewrite ?D. reflexivity.
Qed.

(** X24.  In generate_image and upscale_images the output directory comes
    first.  When it can be neither accessed nor created, the call fails
    after those two attempts, with the message of the mkdir error: no
    request is sent and no input is read.  When it can be accessed, it is
    never created: the access is the first thing the call does, and no
    mkdir follows. *)
Theorem the_output_directory_comes_first cfg name args outputDir w h :
  output_dir_of cfg name args = Some outputDir ->
  (forall e message,
      fs_access w h outputDir = inl e ->
      fs_mkdir w (h ++ [FsAccess outputDir])%list outputDir = inl (Error message) ->
      call_tool cfg (call name args) w h
      = ((h ++ [FsAccess outputDir; FsMkdir outputDir])%list,
         inl (McpError InternalError ("MCP error -32603: " ++ message))))
  /\ (fs_access w h outputDir = inr tt ->
      exists l,
        fst (call_tool cfg (call name args) w h)
        = (h ++ FsAccess outputDir :: l)%list
        /\ Forall makes_no_directory l).
Proof.
  intros O. apply dispatch_at_the_directory in O.
  destruct O as (k & E & D).
  destruct (after_the_directory k outputDir w h) as [F S]. split.
  - intros e message A K. unfold call_tool, try_catch.
    rewrite D, (F e message A K). reflexivity.
  - intros A. rewrite call_tool_history, D. apply S; assumption.
Qed.

Lemma the_output_directory_comes_first_at_the_default :
  output_dir_of default_config "generate_image" (JObj [("prompt", JStr "a cat")])
  = Some "./output"
  /\ call_tool default_config (call "generate_image" (JObj [("prompt", JStr "a cat")]))
       world_without_directories []
     = ([FsAccess "./output"; FsMkdir "./output"],
        inl (McpError InternalError "MCP error -32603: EACCES: permission denied")).
Proof.
  split; [reflexivity |].
  apply (proj1 (the_output_directory_comes_first default_config "generate_image"
                  (JObj [("prompt", JStr "a cat")]) "./output"
                  world_without_directories [] eq_refl)
           (Error "ENOENT: no such file or directory")
           "EACCES: permission denied"); reflexivity.
Defined.

(** ** The upscaler named to hires_fix_image *)

Lemma lookup_update_same k x ps : lookup k (update k x ps) = Some x.
Proof.
  induction ps as [| [k0 v] ps IH]; cbn.
  - rewrite String.eqb_refl. reflexivity.
  - destruct (String.eqb_spec k k0) as [-> | N]; cbn.
    + rewrite String.eqb_refl. reflexivity.
    + destruct (String.eqb_spec k k0); [contradiction | exact IH].
Qed.

Lemma hires_validator_ignores_the_upscaler args s :
  absent args "hr_upscaler" ->
  isHiresFixImageArgs (set args "hr_upscaler" (JStr s)) = isHiresFixImageArgs args.
Proof.
  intros A. destruct args as [| | b | n | t | l | ps]; try reflexivity.
  unfold isHiresFixImageArgs, check_in_range, optional_string.
  change (is_object (set (JObj ps) "hr_upscaler" (JStr s)))
    with (is_object (JObj ps)).
  assert (G : get (set (JObj ps) "hr_upscaler" (JStr s)) "hr_upscaler" = JStr s).
  { cbn. rewrite lookup_update_same. reflexivity. }
  rewrite G. rewrite !get_set_other by discriminate.
  unfold absent in A. rewrite A. reflexivity.
Qed.

(** X25.  hires_fix_image announces and validates [hr_upscaler] but never
    uses it: naming any upscaler in arguments that had none changes neither
    what the call does nor what it returns. *)
Theorem hr_upscaler_is_ignored cfg args s w h :
  absent args "hr_upscaler" ->
  call_tool cfg (call "hires_fix_image" (set args "hr_upscaler" (JStr s))) w h
  = call_tool cfg (call "hires_fix_image" args) w h.
Proof.
  intros A. unfold call_tool.
  change (dispatch cfg (call "hires_fix_image" (set args "hr_upscaler" (JStr s))))
    with (hires_fix_image (call "hires_fix_image" (set args "hr_upscaler" (JStr s)))).
  change (dispatch cfg (call "hires_fix_image" args))
    with (hires_fix_image (call "hires_fix_image" args)).
  unfold hires_fix_image, img2img_payload, hires_fix_message.
  cbn [request_arguments call].
  rewrite (hires_validator_ignores_the_upscaler args s A).
  rewrite !get_set_other by discriminate.
  reflexivity.
Qed.

Lemma hr_upscaler_is_ignored_at_latent :
  schema_of "hires_fix_image" "hr_upscaler" <> JUndefined
  /\ call_tool default_config
       (call "hires_fix_image"
          (JObj [("image_path", JStr "in.png"); ("hr_upscaler", JStr "Latent")]))
       (world_answering None) []
     = call_tool default_config
         (call "hires_fix_image" (JObj [("image_path", JStr "in.png")]))
         (world_answering None) [].
Proof.
  split; [discriminate |].
  apply (hr_upscaler_is_ignored default_config
           (JObj [("image_path", JStr "in.png")]) "Latent"
           (world_answering None) []).
  reflexivity.
Defined.

(** ** The inputs of upscale_images are read first *)

Lemma upscale_images_after_the_reads cfg outputDir args encodedImages :
  emits (fun _ => True)
    (resize_mode <- lift (resizeModeNum cfg args) ;;
     response <- post_extra_batch_images
                   (upscale_payload cfg args resize_mode encodedImages) ;;
     if no_images response then throw (Error "No images upscaled")
     else
       results <- upscale_loop outputDir (elements (get args "images")) 0
                    (images_of response) [] ;;
       ret (text_result (JSON_stringify (JArr results)))).
Proof.
  apply emits_bind; [apply emits_lift | intros resize_mode].
  apply emits_bind.
  { unfold post_extra_batch_images. apply emits_io. exact I. }
  intros response. destruct (no_images response); [apply emits_throw |].
  apply emits_bind; [| intros results; apply emits_ret].
  apply emits_upscale_loop. intros; exact I.
Qed.

(** X26.  upscale_images reads all its inputs before it sends anything:
    after the directory check every input is read, in the order given and
    whatever becomes of the other reads.  When one of them cannot be read,
    the call fails there: no request is sent and nothing is written. *)
Theorem upscale_images_reads_every_input_first cfg args paths outputDir w h :
  isUpscaleImagesArgs args = inr true ->
  get args "images" = JArr (map JStr paths) ->
  resolve_output_dir cfg args = inr outputDir ->
  fs_access w h outputDir = inr tt ->
  exists l,
    fst (call_tool cfg (call "upscale_images" args) w h)
    = (h ++ FsAccess outputDir :: map FsReadFile paths ++ l)%list
    /\ forall p,
         In p paths ->
         (forall hist, exists e, fs_readFile w hist p = inl e) ->
         l = [] /\ exists e, snd (call_tool cfg (call "upscale_images" args) w h) = inl e.
Proof.
  intros V Im D Ac.
  assert (R : exists l r,
             dispatch cfg (call "upscale_images" args) w h
             = ((h ++ FsAccess outputDir :: map FsReadFile paths ++ l)%list, r)
             /\ forall p,
                  In p paths ->
                  (forall hist, exists e, fs_readFile w hist p = inl e) ->
                  l = [] /\ exists e, r = inl e).
  { change (dispatch cfg (call "upscale_images" args))
      with (upscale_images cfg (call "upscale_images" args)).
    unfold upscale_images. cbn [request_arguments call].
    unfold bind at 1. unfold lift at 1. rewrite V. cbn [negb].
    unfold bind at 1. unfold lift at 1. rewrite D.
    unfold bind at 1. unfold ensureDirectoryExists, try_catch, access, io.
    rewrite Ac, Im. cbn [elements].
    unfold bind at 1.
    destruct (Promise_all_reads w paths (h ++ [FsAccess outputDir])%list)
      as (r & E & F).
    rewrite E. destruct r as [e | encodedImages].
    - exists [], (inl e). rewrite app_nil_r, <- app_assoc.
      split; [reflexivity |]. intros p I N. split; [reflexivity | eauto].
    - destruct (upscale_images_after_the_reads cfg outputDir args encodedImages
                  w ((h ++ [FsAccess outputDir]) ++ map FsReadFile paths)%list)
        as (l & G & _).
      rewrite Im in G. cbn [elements] in G.
      match type of G with
      | fst ?run = _ => destruct run as [h1 r] eqn:Run
      end.
      cbn [fst] in G. subst h1.
      exists l, r. rewrite <- !app_assoc. split; [reflexivity |].
      intros p I N. destruct (F p I N) as [e C]. discriminate. }
  destruct R as (l & r & T & F). exists l.
  rewrite call_tool_history, T. split; [reflexivity |].
  intros p I N. destruct (F p I N) as (-> & e & ->). split; [reflexivity |].
  destruct (call_tool_throws _ _ _ _ _ _ T) as [e' C]. rewrite C.
  exists e'. reflexivity.
Qed.

Lemma upscale_images_reads_every_input_first_at_two :
  exists l,
    fst (call_tool default_config (call "upscale_images" two_inputs)
           world_without_files [])
    = ([] ++ FsAccess "./output" :: map FsReadFile ["a.png"; "/tmp/in/b.png"] ++ l)%list
    /\ forall p,
         In p ["a.png"; "/tmp/in/b.png"] ->
         (forall hist, exists e, fs_readFile world_without_files hist p = inl e) ->
         l = []
         /\ exists e,
              snd (call_tool default_config (call "upscale_images" two_inputs)
                     world_without_files []) = inl e.
Proof.
  apply (upscale_images_reads_every_input_first default_config two_inputs
           ["a.png"; "/tmp/in/b.png"] "./output" world_without_files []);
    reflexivity.
Defined.
